(** * Snap-and-dock service: a shallow embedding of [SnapService] and [Preview]

    The service keeps a registry of windows and of groups of windows.  Its
    objects ([SnapWindow], [SnapGroup]) are JavaScript objects shared by
    reference; here every object lives in a store indexed by its reference,
    and the service state carries the two stores next to the registries.

    JavaScript numbers are modelled as exact rationals ([Q]); [==] is
    numeric equality.  NaN, infinities and rounding are outside the model. *)

From Stdlib Require Import QArith Qabs ZArith List String Bool Arith Lia.
Import ListNotations.

(** ** Numbers *)

(** [Math.sign]: -1, 0 or 1. *)
Definition Math_sign (q : Q) : Q := inject_Z (Z.sgn (Qnum q)).

(** [Math.abs]. *)
Definition Math_abs (q : Q) : Q := Qabs q.

(** Truthiness of a number, as in [offset.x ? offset.x : 1]. *)
Definition truthy (q : Q) : bool := negb (Qeq_bool q 0).

(** [a < b] on numbers. *)
Definition Qltb (a b : Q) : bool := negb (Qle_bool b a).

(** [UNDOCK_MOVE_SCALE = 30]. *)
Definition UNDOCK_MOVE_SCALE : Q := 30.

(** ** Plain data *)

Module Point.
Record t := mk { x : Q; y : Q }.
End Point.

Module Rectangle.
Record t := mk { center : Point.t; halfSize : Point.t }.
End Rectangle.

Module WindowIdentity.
Record t := mk { uuid : string; name : string }.
End WindowIdentity.

(** The result of [RectUtils.distance]; the service reads all four fields. *)
Module MeasureResult.
Record t := mk { x : Q; y : Q; min : Q; minAbs : Q }.
End MeasureResult.

(** A [WindowState] is used by the service through its rectangle only. *)
Definition WindowState := Rectangle.t.

(** References to [SnapWindow] and [SnapGroup] objects. *)
Definition wid := nat.
Definition gid := nat.

Inductive eSnapValidity := VALID | INVALID.

Definition eSnapValidity_eqb (a b : eSnapValidity) : bool :=
  match a, b with
  | VALID, VALID | INVALID, INVALID => true
  | _, _ => false
  end.

Module SnapTarget.
Record t := mk {
  group : gid;
  activeWindow : wid;
  snapOffset : Point.t;
  halfSize : option Point.t;
  validity : eSnapValidity
}.
End SnapTarget.

(** [SnapState], the pair handed to [SnapView.update]. *)
Module SnapState.
Record t := mk { activeGroup : option gid; target : option SnapTarget.t }.
End SnapState.

(** ** Objects *)

(** Modelled from the spec: the [SnapWindow] class is not among the sources.
    A window wraps one identity and its latest state, holds a back-reference
    to its current group, and has an [onClose] signal; [onClose] records
    whether the service's [onWindowClosed] handler is attached. *)
Module SnapWindow.
Record t := mk {
  identity : WindowIdentity.t;
  state : WindowState;
  group : gid;
  onClose : bool
}.
End SnapWindow.

(** Modelled from the spec: the [SnapGroup] class is not among the sources.
    A group is an ordered sequence of windows ([length] is its length) and
    five signals; each signal field records whether the service's handler
    is attached to it.  [windows] is a read-only view: reading it gives the
    sequence as it is at that moment, and a sequence read earlier is not
    altered when a window leaves or joins the group later. *)
Module SnapGroup.
Record t := mk {
  windows : list wid;
  onModified : bool;
  onTransform : bool;
  onCommit : bool;
  onWindowRemoved : bool;
  onWindowAdded : bool
}.
Definition length (g : t) : nat := List.length (windows g).
End SnapGroup.

(** What the service's own public signals [onWindowAdded] and
    [onWindowRemoved] have emitted so far. *)
Inductive Emitted :=
| WindowAdded (group : gid) (window : wid)
| WindowRemoved (group : gid) (window : wid).

(** ** Array helpers *)

(** [Array.prototype.indexOf]: the first index holding [v], or -1. *)
Fixpoint indexOf (v : nat) (l : list nat) : Z :=
  match l with
  | [] => (-1)%Z
  | h :: t =>
      if Nat.eqb h v then 0%Z
      else let i := indexOf v t in
           if (i <? 0)%Z then (-1)%Z else (i + 1)%Z
  end.

(** [l.splice(index, 1)] for a non-negative [index]. *)
Definition splice1 (index : Z) (l : list nat) : list nat :=
  firstn (Z.to_nat index) l ++ skipn (S (Z.to_nat index)) l.

(** Store update. *)
Definition upd {A : Type} (f : nat -> A) (k : nat) (v : A) : nat -> A :=
  fun k' => if Nat.eqb k' k then v else f k'.

(** ** The service state *)

Record State := mkState {
  windows : list wid;          (* this.windows *)
  groups : list gid;           (* this.groups *)
  view : SnapState.t;          (* what this.view was last updated with *)
  wobj : wid -> SnapWindow.t;  (* the SnapWindow objects *)
  gobj : gid -> SnapGroup.t;   (* the SnapGroup objects *)
  nextWindow : wid;            (* next unused window reference *)
  nextGroup : gid;             (* next unused group reference *)
  window_foo : bool;           (* the global (window as ...).foo *)
  emitted : list Emitted       (* emissions of the service's signals *)
}.

Definition set_windows (l : list wid) (st : State) : State :=
  mkState l (groups st) (view st) (wobj st) (gobj st)
          (nextWindow st) (nextGroup st) (window_foo st) (emitted st).

Definition set_groups (l : list gid) (st : State) : State :=
  mkState (windows st) l (view st) (wobj st) (gobj st)
          (nextWindow st) (nextGroup st) (window_foo st) (emitted st).

Definition set_view (v : SnapState.t) (st : State) : State :=
  mkState (windows st) (groups st) v (wobj st) (gobj st)
          (nextWindow st) (nextGroup st) (window_foo st) (emitted st).

Definition set_wobj (w : wid) (o : SnapWindow.t) (st : State) : State :=
  mkState (windows st) (groups st) (view st) (upd (wobj st) w o) (gobj st)
          (nextWindow st) (nextGroup st) (window_foo st) (emitted st).

Definition set_gobj (g : gid) (o : SnapGroup.t) (st : State) : State :=
  mkState (windows st) (groups st) (view st) (wobj st) (upd (gobj st) g o)
          (nextWindow st) (nextGroup st) (window_foo st) (emitted st).

Definition set_nextWindow (n : wid) (st : State) : State :=
  mkState (windows st) (groups st) (view st) (wobj st) (gobj st)
          n (nextGroup st) (window_foo st) (emitted st).

Definition set_nextGroup (n : gid) (st : State) : State :=
  mkState (windows st) (groups st) (view st) (wobj st) (gobj st)
          (nextWindow st) n (window_foo st) (emitted st).

Definition set_window_foo (b : bool) (st : State) : State :=
  mkState (windows st) (groups st) (view st) (wobj st) (gobj st)
          (nextWindow st) (nextGroup st) b (emitted st).

Definition emit (e : Emitted) (st : State) : State :=
  mkState (windows st) (groups st) (view st) (wobj st) (gobj st)
          (nextWindow st) (nextGroup st) (window_foo st) (emitted st ++ [e]).

(** Getters of the objects, read through the store. *)
Definition getIdentity (st : State) (w : wid) : WindowIdentity.t :=
  SnapWindow.identity (wobj st w).
Definition getState (st : State) (w : wid) : WindowState :=
  SnapWindow.state (wobj st w).
Definition getGroup (st : State) (w : wid) : gid :=
  SnapWindow.group (wobj st w).
Definition group_windows (st : State) (g : gid) : list wid :=
  SnapGroup.windows (gobj st g).
Definition group_length (st : State) (g : gid) : nat :=
  SnapGroup.length (gobj st g).

(** [target.uuid === identity.uuid && target.name === identity.name]. *)
Definition sameIdentity (target identity : WindowIdentity.t) : bool :=
  String.eqb (WindowIdentity.uuid target) (WindowIdentity.uuid identity)
  && String.eqb (WindowIdentity.name target) (WindowIdentity.name identity).

(** ** Service handlers that need neither the resolver nor the geometry *)

(** [sendWindowAddedMessage]: logs, then emits the service's [onWindowAdded]. *)
Definition sendWindowAddedMessage (group : gid) (window : wid) (st : State) : State :=
  emit (WindowAdded group window) st.

(** [sendWindowRemovedMessage]: logs, then emits the service's [onWindowRemoved]. *)
Definition sendWindowRemovedMessage (group : gid) (window : wid) (st : State) : State :=
  emit (WindowRemoved group window) st.

(** [validateGroup] is an unimplemented stub (TODO SERVICE-130). *)
Definition validateGroup (group : gid) (modifiedWindow : wid) (st : State) : State := st.

(** [addGroup]: a new group object with the five handlers attached, pushed
    onto [this.groups]. *)
Definition addGroup (st : State) : gid * State :=
  let group := nextGroup st in
  let o := SnapGroup.mk [] true true true true true in
  (group,
   set_groups (groups st ++ [group])
     (set_gobj group o (set_nextGroup (S group) st))).

(** [removeGroup]: only an empty group that is in the registry is removed;
    its five handlers are detached and it is spliced out of [this.groups]. *)
Definition removeGroup (group : gid) (st : State) : State :=
  let index := indexOf group (groups st) in
  if Nat.eqb (group_length st group) 0 && (0 <=? index)%Z then
    let o := SnapGroup.mk (group_windows st group) false false false false false in
    let st1 := set_gobj group o st in
    set_groups (splice1 index (groups st1)) st1
  else st.

(** [onWindowRemovedFromGroup]. *)
Definition onWindowRemovedFromGroup (group : gid) (window : wid) (st : State) : State :=
  let st1 := if Nat.eqb (group_length st group) 0 then removeGroup group st else st in
  sendWindowRemovedMessage group window st1.

(** ** Signals of a group, dispatched to the attached service handler *)

Definition emit_onWindowRemoved (group : gid) (window : wid) (st : State) : State :=
  if SnapGroup.onWindowRemoved (gobj st group)
  then onWindowRemovedFromGroup group window st else st.

Definition emit_onWindowAdded (group : gid) (window : wid) (st : State) : State :=
  if SnapGroup.onWindowAdded (gobj st group)
  then sendWindowAddedMessage group window st else st.

Definition emit_onModified (group : gid) (window : wid) (st : State) : State :=
  if SnapGroup.onModified (gobj st group)
  then validateGroup group window st else st.

(** ** Methods of [SnapGroup] and [SnapWindow] *)

(** The first occurrence of [w] taken out of a member list. *)
Fixpoint drop1 (w : wid) (l : list wid) : list wid :=
  match l with
  | [] => []
  | h :: t => if Nat.eqb h w then t else h :: drop1 w t
  end.

Definition set_group_windows (g : gid) (l : list wid) (st : State) : State :=
  let o := gobj st g in
  set_gobj g (SnapGroup.mk l (SnapGroup.onModified o) (SnapGroup.onTransform o)
                (SnapGroup.onCommit o) (SnapGroup.onWindowRemoved o)
                (SnapGroup.onWindowAdded o)) st.

(** Modelled from the spec: [SnapGroup] is not among the sources.  A member
    leaves the group: the member list is updated first, then the group's
    "window removed" notification fires, once per structural change. *)
Definition group_removeWindow (g : gid) (w : wid) (st : State) : State :=
  if existsb (Nat.eqb w) (group_windows st g)
  then emit_onWindowRemoved g w (set_group_windows g (drop1 w (group_windows st g)) st)
  else st.

(** Modelled from the spec: [SnapGroup] is not among the sources.  A window
    joins the group at the end of the ordered member sequence, then the
    group's "window added" notification fires. *)
Definition group_addWindow (g : gid) (w : wid) (st : State) : State :=
  emit_onWindowAdded g w (set_group_windows g (group_windows st g ++ [w]) st).

Definition translate (p delta : Point.t) : Point.t :=
  Point.mk (Point.x p + Point.x delta) (Point.y p + Point.y delta).

(** Modelled from the spec: the rectangle change that [setGroup] applies
    when it is given an offset and/or a half-size: the rectangle is
    translated by the offset and resized to the half-size. *)
Definition applyDelta (offset halfSize : option Point.t) (r : WindowState) : WindowState :=
  Rectangle.mk
    (match offset with
     | Some o => translate (Rectangle.center r) o
     | None => Rectangle.center r
     end)
    (match halfSize with
     | Some h => h
     | None => Rectangle.halfSize r
     end).

(** Modelled from the spec: [SnapWindow.setGroup(newGroup, offset?, halfSize?)]
    is not among the sources.  It detaches the window from its current group
    (firing that group's "window removed" notification) and attaches it to
    [newGroup] (firing its "window added" notification); the rectangle is
    translated/resized as part of the same operation.  Notifications fire
    after the back-reference and the member list are updated. *)
Definition setGroup (w : wid) (newGroup : gid) (offset halfSize : option Point.t)
    (st : State) : State :=
  let o := wobj st w in
  let prevGroup := SnapWindow.group o in
  let st1 := set_wobj w (SnapWindow.mk (SnapWindow.identity o)
                           (applyDelta offset halfSize (SnapWindow.state o))
                           newGroup (SnapWindow.onClose o)) st in
  let st2 := group_removeWindow prevGroup w st1 in
  group_addWindow newGroup w st2.

(** Modelled from the spec: [SnapWindow.offsetBy(delta)] is not among the
    sources.  It applies a pure translation to the window's rectangle. *)
Definition offsetBy (w : wid) (delta : Point.t) (st : State) : State :=
  let o := wobj st w in
  set_wobj w (SnapWindow.mk (SnapWindow.identity o)
                (applyDelta (Some delta) None (SnapWindow.state o))
                (SnapWindow.group o) (SnapWindow.onClose o)) st.

(** Modelled from the spec: [SnapView.update(activeGroup, target)] is not
    among the sources; the view holds what it was last given, and
    [update(null, null)] is its empty state. *)
Definition view_update (activeGroup : option gid) (target : option SnapTarget.t)
    (st : State) : State :=
  set_view (SnapState.mk activeGroup target) st.

Definition emptyView : SnapState.t := SnapState.mk None None.

(** ** The service, over its two collaborators

    [RectUtils.distance] and [Resolver.getSnapTarget] are not among the
    sources; the service is modelled over any implementation of them. *)

Section Service.

Variable distance : Rectangle.t -> Rectangle.t -> MeasureResult.t.
Variable getSnapTarget : State -> list gid -> gid -> option SnapTarget.t.

(** The guard of [calculateOffset]: [distance.minAbs === 0 && distance.min < 0]. *)
Definition repels (d : MeasureResult.t) : bool :=
  Qeq_bool (MeasureResult.minAbs d) 0 && Qltb (MeasureResult.min d) 0.

(** The body of the loop of [calculateOffset]. *)
Definition accumulate (st : State) (window : wid) (totalOffset : Point.t)
    (groupedWindow : wid) : Point.t :=
  if negb (Nat.eqb groupedWindow window) then
    let d := distance (getState st window) (getState st groupedWindow) in
    if repels d then
      Point.mk
        (Point.x totalOffset
         + Math_sign ((Point.x (Rectangle.center (getState st window))
                       - Point.x (Rectangle.center (getState st groupedWindow)))
                      * Math_abs (MeasureResult.y d)))
        (Point.y totalOffset
         + Math_sign ((Point.y (Rectangle.center (getState st window))
                       - Point.y (Rectangle.center (getState st groupedWindow)))
                      * Math_abs (MeasureResult.x d)))
    else totalOffset
  else totalOffset.

(** [calculateOffset]. *)
Definition calculateOffset (st : State) (window : wid) : Point.t :=
  let group := getGroup st window in
  fold_left (accumulate st window) (group_windows st group) (Point.mk 0 0).

(** [undock]. *)
Definition undock (target : WindowIdentity.t) (st : State) : State :=
  match find (fun w => sameIdentity target (getIdentity st w)) (windows st) with
  | Some window =>
      let group := getGroup st window in
      let offset := calculateOffset st window in
      let (newGroup, st1) := addGroup st in
      let st2 := setGroup window newGroup None None st1 in
      let st3 :=
        offsetBy window
          (Point.mk
             (Math_sign (if truthy (Point.x offset) then Point.x offset else 1)
              * UNDOCK_MOVE_SCALE)
             (Math_sign (if truthy (Point.y offset) then Point.y offset else 1)
              * UNDOCK_MOVE_SCALE)) st2 in
      emit_onModified group window st3
  | None => st
  end.

(** [deregister] is an unimplemented stub (TODO SERVICE-132). *)
Definition deregister (target : WindowIdentity.t) (st : State) : State := st.

(** One round of the second loop of [explodeGroup]. *)
Definition explodeOne (st : State) (wo : wid * Point.t) : State :=
  let (window, offset) := wo in
  let (newGroup, st1) := addGroup st in
  let st2 := setGroup window newGroup None None st1 in
  offsetBy window
    (Point.mk (Math_sign (Point.x offset) * (1 # 2) * UNDOCK_MOVE_SCALE)
              (Math_sign (Point.y offset) * (1 # 2) * UNDOCK_MOVE_SCALE)) st2.

(** [explodeGroup].  [group.windows] is read once; the first loop fills
    [offsets], the second walks the same windows with their offsets. *)
Definition explodeGroup (targetWindow : WindowIdentity.t) (st : State) : State :=
  match find (fun g =>
                Nat.ltb 0 (List.length
                   (filter (fun w => sameIdentity targetWindow (getIdentity st w))
                           (group_windows st g))))
             (groups st) with
  | Some group =>
      if Nat.ltb 1 (group_length st group) then
        let windows := group_windows st group in
        let offsets := map (calculateOffset st) windows in
        fold_left explodeOne (combine windows offsets) st
      else st
  | None => st
  end.

(** [snapGroup]: asks the resolver and shows the result; no other change
    (logging is not modelled). *)
Definition snapGroup (activeGroup : gid) (st : State) : State :=
  let snapTarget := getSnapTarget st (groups st) activeGroup in
  view_update (Some activeGroup) snapTarget st.

(** The callback of the [forEach] in [applySnapTarget]. *)
Definition applyOne (snapTarget : SnapTarget.t) (st : State) (window : wid) : State :=
  match SnapTarget.halfSize snapTarget with
  | Some halfSize =>
      if Nat.eqb window (SnapTarget.activeWindow snapTarget) then
        setGroup window (SnapTarget.group snapTarget)
                 (Some (SnapTarget.snapOffset snapTarget)) (Some halfSize) st
      else
        setGroup window (SnapTarget.group snapTarget)
                 (Some (SnapTarget.snapOffset snapTarget)) None st
  | None =>
      setGroup window (SnapTarget.group snapTarget)
               (Some (SnapTarget.snapOffset snapTarget)) None st
  end.

(** [applySnapTarget].  The warning after the loop only logs. *)
Definition applySnapTarget (activeGroup : gid) (st : State) : State :=
  let snapTarget := getSnapTarget st (groups st) activeGroup in
  let st1 :=
    match snapTarget with
    | Some t =>
        if eSnapValidity_eqb (SnapTarget.validity t) VALID && negb (window_foo st)
        then fold_left (applyOne t) (group_windows st activeGroup) st
        else st
    | None => st
    end in
  view_update None None st1.

(** [onWindowClosed]. *)
Definition onWindowClosed (snapWindow : wid) (st : State) : State :=
  let index := indexOf snapWindow (windows st) in
  if (0 <=? index)%Z then
    let st1 := set_windows (splice1 index (windows st)) st in
    let o := wobj st1 snapWindow in
    let st2 := set_wobj snapWindow
                 (SnapWindow.mk (SnapWindow.identity o) (SnapWindow.state o)
                    (SnapWindow.group o) false) st1 in
    validateGroup (getGroup st2 snapWindow) snapWindow st2
  else st.

(** Modelled from the spec: the [SnapWindow] constructor is not among the
    sources.  A new window object is created as the only member of the
    group it is given. *)
Definition newSnapWindow (group : gid) (identity : WindowIdentity.t)
    (state : WindowState) (st : State) : wid * State :=
  let w := nextWindow st in
  let st1 := set_wobj w (SnapWindow.mk identity state group false)
               (set_nextWindow (S w) st) in
  (w, group_addWindow group w st1).

(** [addWindow], from the moment the window's state has been fetched. *)
Definition addWindow (identity : WindowIdentity.t) (state : WindowState)
    (st : State) : wid * State :=
  let (group, st1) := addGroup st in
  let (snapWindow, st2) := newSnapWindow group identity state st1 in
  let o := wobj st2 snapWindow in
  let st3 := set_wobj snapWindow
               (SnapWindow.mk (SnapWindow.identity o) (SnapWindow.state o)
                  (SnapWindow.group o) true) st2 in
  (snapWindow, set_windows (windows st3 ++ [snapWindow]) st3).

(** ** What can happen to a running service *)

Inductive Event :=
| Undock (target : WindowIdentity.t)
| Deregister (target : WindowIdentity.t)
| ExplodeGroup (target : WindowIdentity.t)
| WindowCreated (identity : WindowIdentity.t) (state : WindowState)
| WindowClosed (w : wid)
| WindowMoved (w : wid) (state : WindowState)
| GroupTransform (g : gid)
| GroupCommit (g : gid)
| GroupModified (g : gid) (w : wid)
| SetFoo (b : bool).

(** Modelled from the spec: the host refreshes a window's cached state. *)
Definition refreshState (w : wid) (state : WindowState) (st : State) : State :=
  let o := wobj st w in
  set_wobj w (SnapWindow.mk (SnapWindow.identity o) state
                (SnapWindow.group o) (SnapWindow.onClose o)) st.

(** Modelled from the spec: a window's close notification.  The service's
    handler runs if attached; the window's group, which also listens (see
    the note in [onWindowClosed]), removes the window from itself. *)
Definition windowClosed (w : wid) (st : State) : State :=
  let st1 := if SnapWindow.onClose (wobj st w) then onWindowClosed w st else st in
  group_removeWindow (getGroup st1 w) w st1.

Definition handle (e : Event) (st : State) : State :=
  match e with
  | Undock target => undock target st
  | Deregister target => deregister target st
  | ExplodeGroup target => explodeGroup target st
  | WindowCreated identity state => snd (addWindow identity state st)
  | WindowClosed w => windowClosed w st
  | WindowMoved w state => refreshState w state st
  | GroupTransform g =>
      if SnapGroup.onTransform (gobj st g) then snapGroup g st else st
  | GroupCommit g =>
      if SnapGroup.onCommit (gobj st g) then applySnapTarget g st else st
  | GroupModified g w => emit_onModified g w st
  | SetFoo b => set_window_foo b st
  end.

End Service.

(** The state built by the constructor: empty registries; no object has been
    created yet, so the stores hold placeholders only. *)
Definition initial : State :=
  mkState [] [] emptyView
    (fun _ => SnapWindow.mk (WindowIdentity.mk EmptyString EmptyString)
                (Rectangle.mk (Point.mk 0 0) (Point.mk 0 0)) 0%nat false)
    (fun _ => SnapGroup.mk [] false false false false false)
    0%nat 0%nat false [].

(** The states a service can be in. *)
Inductive reachable
    (distance : Rectangle.t -> Rectangle.t -> MeasureResult.t)
    (getSnapTarget : State -> list gid -> gid -> option SnapTarget.t)
  : State -> Prop :=
| reachable_initial : reachable distance getSnapTarget initial
| reachable_handle : forall st e,
    reachable distance getSnapTarget st ->
    reachable distance getSnapTarget (handle distance getSnapTarget e st).

(** ** The preview overlay ([Preview.ts]) *)

Module Preview.

Inductive eTargetType := SNAP | TAB.

Inductive Validity := VALID | INVALID.

(** [PreviewType], the lower-cased target type. *)
Inductive PreviewType := snap | tab.

Definition toLowerCase (type : eTargetType) : PreviewType :=
  match type with SNAP => snap | TAB => tab end.

(** What [setBounds] was last called with. *)
Record Bounds := mkBounds { left : Q; top : Q; width : Q; height : Q }.

(** One entry of the [PreviewMap]: the preview window (its bounds, its
    opacity option and its body style) and the cached opacity. *)
Record PreviewWindowData := mkData {
  bounds : Bounds;
  windowOpacity : Q;
  background : string;
  border : string;
  opacity : Q
}.

(** An overlay of the configuration. *)
Record Overlay := mkOverlay {
  overlayOpacity : Q;
  overlayBackground : string;
  overlayBorder : string
}.

Section WithConfig.

(** The configuration scope of a window, compared by [deepEqual], and the
    configuration store's query; both are declared outside the sources. *)
Variable Scope : Type.
Variable deepEqual : Scope -> Scope -> bool.
Variable query : Scope -> PreviewType -> Validity -> Overlay.

(** The anchor window of a target, as far as the preview reads it. *)
Record DesktopWindow := mkWindow { scope : Scope; currentState : Rectangle.t }.

(** [PreviewableTarget = SnapTarget | TabTarget], discriminated by [type]. *)
Inductive PreviewableTarget :=
| SnapTarget (valid : bool) (activeWindow : DesktopWindow)
    (offset : Point.t) (halfSize : option Point.t)
| TabTarget (valid : bool) (activeWindow : DesktopWindow) (dropArea : Rectangle.t).

Definition type (target : PreviewableTarget) : eTargetType :=
  match target with SnapTarget _ _ _ _ => SNAP | TabTarget _ _ _ => TAB end.

Definition valid (target : PreviewableTarget) : bool :=
  match target with SnapTarget v _ _ _ => v | TabTarget v _ _ => v end.

Definition activeWindow (target : PreviewableTarget) : DesktopWindow :=
  match target with SnapTarget _ a _ _ => a | TabTarget _ a _ => a end.

Record t := mkPreview {
  previewWindows : PreviewType -> Validity -> PreviewWindowData;
  activeWindowPreview : option (PreviewType * Validity);
  lastScope : option Scope
}.

Definition sameKey (a b : PreviewType * Validity) : bool :=
  match a, b with
  | (snap, VALID), (snap, VALID) | (snap, INVALID), (snap, INVALID)
  | (tab, VALID), (tab, VALID) | (tab, INVALID), (tab, INVALID) => true
  | _, _ => false
  end.

Definition updateWindow (k : PreviewType * Validity)
    (f : PreviewWindowData -> PreviewWindowData) (p : t) : t :=
  mkPreview
    (fun ty v => if sameKey (ty, v) k then f (previewWindows p ty v)
                 else previewWindows p ty v)
    (activeWindowPreview p) (lastScope p).

(** [generatePreviewRect]. *)
Definition generatePreviewRect (target : PreviewableTarget) : Rectangle.t :=
  match target with
  | SnapTarget _ activeWindow offset targetHalfSize =>
      let activeState := currentState activeWindow in
      let prevHalfSize := Rectangle.halfSize activeState in
      let halfSize := match targetHalfSize with Some h => h | None => prevHalfSize end in
      let center :=
        Point.mk
          (Point.x (Rectangle.center activeState) + Point.x offset
           + (Point.x halfSize - Point.x prevHalfSize))
          (Point.y (Rectangle.center activeState) + Point.y offset
           + (Point.y halfSize - Point.y prevHalfSize)) in
      Rectangle.mk center halfSize
  | TabTarget _ _ dropArea => dropArea
  end.

(** [positionPreview]. *)
Definition positionPreview (k : PreviewType * Validity) (target : PreviewableTarget)
    (p : t) : t :=
  let previewRect := generatePreviewRect target in
  updateWindow k
    (fun d =>
       mkData
         (mkBounds
            (Point.x (Rectangle.center previewRect) - Point.x (Rectangle.halfSize previewRect))
            (Point.y (Rectangle.center previewRect) - Point.y (Rectangle.halfSize previewRect))
            (Point.x (Rectangle.halfSize previewRect) * 2)
            (Point.y (Rectangle.halfSize previewRect) * 2))
         (windowOpacity d) (background d) (border d) (opacity d)) p.

(** [previewWindow.updateOptions({opacity})]. *)
Definition updateOptions (k : PreviewType * Validity) (o : Q) (p : t) : t :=
  updateWindow k
    (fun d => mkData (bounds d) o (background d) (border d) (opacity d)) p.

(** [applyScopeStyles]. *)
Definition applyScopeStyles (sc : Scope) (p : t) : t :=
  if match lastScope p with Some l => deepEqual l sc | None => false end then p
  else
    mkPreview
      (fun ty v =>
         let d := previewWindows p ty v in
         let overlay := query sc ty v in
         mkData (bounds d) (windowOpacity d) (overlayBackground overlay)
                (overlayBorder overlay) (overlayOpacity overlay))
      (activeWindowPreview p) (Some sc).

(** [hide]. *)
Definition hide (p : t) : t :=
  match activeWindowPreview p with
  | Some k =>
      let p1 := updateOptions k 0 p in
      mkPreview (previewWindows p1) None (lastScope p1)
  | None => p
  end.

(** [show].  The cached opacity is read before the styles are applied. *)
Definition show (target : PreviewableTarget) (p : t) : t :=
  let v := if valid target then VALID else INVALID in
  let previewType := toLowerCase (type target) in
  let k := (previewType, v) in
  let o := opacity (previewWindows p previewType v) in
  let p1 := applyScopeStyles (scope (activeWindow target)) p in
  let p2 := positionPreview k target p1 in
  let p3 := updateOptions k o p2 in
  if negb (match activeWindowPreview p3 with
           | Some a => sameKey k a
           | None => false
           end)
  then let p4 := hide p3 in
       mkPreview (previewWindows p4) (Some k) (lastScope p4)
  else p3.

End WithConfig.

Arguments mkWindow {Scope}.
Arguments scope {Scope}.
Arguments currentState {Scope}.
Arguments SnapTarget {Scope}.
Arguments TabTarget {Scope}.
Arguments type {Scope}.
Arguments valid {Scope}.
Arguments activeWindow {Scope}.
Arguments mkPreview {Scope}.
Arguments previewWindows {Scope}.
Arguments activeWindowPreview {Scope}.
Arguments lastScope {Scope}.
Arguments updateWindow {Scope}.
Arguments generatePreviewRect {Scope}.
Arguments positionPreview {Scope}.
Arguments updateOptions {Scope}.
Arguments applyScopeStyles {Scope}.
Arguments hide {Scope}.
Arguments show {Scope}.

End Preview.

(** * Invariants and sample instances *)

Close Scope Q_scope.

(** ** The registry invariant

    The groups of the registry are distinct, were all created by [addGroup]
    (so their references are below [nextGroup] and the service listens to
    their "window removed" notification), and are non-empty.  Inside an
    operation a group just created by [addGroup] is still waiting for its
    window: the groups satisfying [pending] are exempt from being non-empty. *)
Record RegistryOK (pending : gid -> Prop) (st : State) : Prop := {
  reg_nodup : NoDup (groups st);
  reg_fresh : forall g, In g (groups st) -> g < nextGroup st;
  reg_wired : forall g, In g (groups st) ->
              SnapGroup.onWindowRemoved (gobj st g) = true;
  reg_nonempty : forall g, In g (groups st) -> ~ pending g ->
                 group_windows st g <> []
}.

Definition nonePending : gid -> Prop := fun _ => False.

Definition orPending (pending : gid -> Prop) (g : gid) : gid -> Prop :=
  fun x => pending x \/ x = g.

(** All five service handlers are detached from a group. *)
Definition detached (o : SnapGroup.t) : Prop :=
  SnapGroup.onModified o = false /\ SnapGroup.onTransform o = false /\
  SnapGroup.onCommit o = false /\ SnapGroup.onWindowRemoved o = false /\
  SnapGroup.onWindowAdded o = false.

(** ** Vocabulary for explode and undock *)

(** The displacement [explodeGroup] applies for a precomputed offset. *)
Definition explodeDelta (offset : Point.t) : Point.t :=
  Point.mk (Math_sign (Point.x offset) * (1 # 2) * UNDOCK_MOVE_SCALE)%Q
           (Math_sign (Point.y offset) * (1 # 2) * UNDOCK_MOVE_SCALE)%Q.

(** A rectangle moved by [delta], its size kept. *)
Definition movedBy (delta : Point.t) (r : WindowState) : WindowState :=
  Rectangle.mk (translate (Rectangle.center r) delta) (Rectangle.halfSize r).

(** The outcome of exploding the group [g] of [st], whose members are [ws],
    with the offsets [offs]: every member sits alone in a group of its own,
    created in member order from [nextGroup st] on, and has been moved by its
    offset's displacement; [g] is gone from the registry; nothing else changed. *)
Record Exploded (st : State) (g : gid) (ws : list wid) (offs : list Point.t)
    (st' : State) : Prop := {
  expl_groups : groups st' = drop1 g (groups st) ++ seq (nextGroup st) (List.length ws);
  expl_next : nextGroup st' = nextGroup st + List.length ws;
  expl_windows : windows st' = windows st;
  expl_view : view st' = view st;
  expl_emptied : group_windows st' g = [];
  expl_detached : detached (gobj st' g);
  expl_other_groups : forall g', g' <> g -> g' < nextGroup st -> gobj st' g' = gobj st g';
  expl_other_windows : forall w', ~ In w' ws -> wobj st' w' = wobj st w';
  expl_member : forall i w off,
      nth_error ws i = Some w -> nth_error offs i = Some off ->
      wobj st' w = SnapWindow.mk (getIdentity st w)
                     (movedBy (explodeDelta off) (getState st w))
                     (nextGroup st + i) (SnapWindow.onClose (wobj st w))
      /\ group_windows st' (nextGroup st + i) = [w]
      /\ SnapGroup.onWindowRemoved (gobj st' (nextGroup st + i)) = true
}.

(** [target] names a member of the registered group [g] and of no other
    registered group (identities are unique across the process), and [g] is
    in good order: its members are distinct and all refer back to it. *)
Record Explodable (st : State) (target : WindowIdentity.t) (g : gid) : Prop := {
  xp_registry : RegistryOK nonePending st;
  xp_registered : In g (groups st);
  xp_nodup : NoDup (group_windows st g);
  xp_backref : forall w, In w (group_windows st g) -> getGroup st w = g;
  xp_member : exists w, In w (group_windows st g) /\ getIdentity st w = target;
  xp_unique : forall g' w', In g' (groups st) -> In w' (group_windows st g') ->
              getIdentity st w' = target -> g' = g
}.

(** The displacement [undock] applies for a computed offset. *)
Definition undockDelta (offset : Point.t) : Point.t :=
  Point.mk
    (Math_sign (if truthy (Point.x offset) then Point.x offset else 1) * UNDOCK_MOVE_SCALE)%Q
    (Math_sign (if truthy (Point.y offset) then Point.y offset else 1) * UNDOCK_MOVE_SCALE)%Q.

(** The half-size the [forEach] of [applySnapTarget] hands to [setGroup] for
    the window [w]: the target's for the anchor window, none for the others. *)
Definition halfSizeFor (t : SnapTarget.t) (w : wid) : option Point.t :=
  if Nat.eqb w (SnapTarget.activeWindow t) then SnapTarget.halfSize t else None.

(** ** Vocabulary for the repulsion offset *)

(** The other members of [w]'s group that meet the guard of [calculateOffset]. *)
Definition repelling (distance : Rectangle.t -> Rectangle.t -> MeasureResult.t)
    (st : State) (w : wid) : list wid :=
  filter (fun o => negb (Nat.eqb o w)
                   && repels (distance (getState st w) (getState st o)))
         (group_windows st (getGroup st w)).

(** What [calculateOffset] adds for one such member [o]: on each axis the
    sign of the product of the centre difference and the magnitude of the
    distance on the other axis. *)
Definition push (distance : Rectangle.t -> Rectangle.t -> MeasureResult.t)
    (st : State) (w o : wid) : Point.t :=
  let d := distance (getState st w) (getState st o) in
  Point.mk
    (Math_sign ((Point.x (Rectangle.center (getState st w))
                 - Point.x (Rectangle.center (getState st o)))
                * Math_abs (MeasureResult.y d)))%Q
    (Math_sign ((Point.y (Rectangle.center (getState st w))
                 - Point.y (Rectangle.center (getState st o)))
                * Math_abs (MeasureResult.x d)))%Q.

(** The contribution as the specification words it: the sign of the centre
    difference multiplied by the magnitude of the overlap on the other axis. *)
Definition weightedPush (distance : Rectangle.t -> Rectangle.t -> MeasureResult.t)
    (st : State) (w o : wid) : Point.t :=
  let d := distance (getState st w) (getState st o) in
  Point.mk
    (Math_sign (Point.x (Rectangle.center (getState st w))
                - Point.x (Rectangle.center (getState st o)))
     * Math_abs (MeasureResult.y d))%Q
    (Math_sign (Point.y (Rectangle.center (getState st w))
                - Point.y (Rectangle.center (getState st o)))
     * Math_abs (MeasureResult.x d))%Q.

(** ** Sample collaborators and states, to exercise the statements *)

Definition Qsmaller (a b : Q) : Q := if Qle_bool a b then a else b.

(** Modelled from the spec: [RectUtils.distance] is not among the sources.
    Per axis, the signed gap between the facing edges of the two rectangles
    (negative when they overlap on that axis, zero when they touch, positive
    when they are apart); [min] is the smaller gap and [minAbs] the smaller
    magnitude, so that "touching on one axis and overlapping on the other"
    reads [minAbs == 0] and [min < 0], as the service's guard has it.  The
    statements about the service hold for every [distance]; this one only
    instantiates them. *)
Definition gapDistance (a b : Rectangle.t) : MeasureResult.t :=
  let gx := (Qabs (Point.x (Rectangle.center a) - Point.x (Rectangle.center b))
             - (Point.x (Rectangle.halfSize a) + Point.x (Rectangle.halfSize b)))%Q in
  let gy := (Qabs (Point.y (Rectangle.center a) - Point.y (Rectangle.center b))
             - (Point.y (Rectangle.halfSize a) + Point.y (Rectangle.halfSize b)))%Q in
  MeasureResult.mk gx gy (Qsmaller gx gy) (Qsmaller (Qabs gx) (Qabs gy)).

(** A resolver that always proposes docking the anchor window [w] onto the
    group [g], without moving or resizing it. *)
Definition dockOnto (g : gid) (w : wid) (v : eSnapValidity)
  : State -> list gid -> gid -> option SnapTarget.t :=
  fun _ _ _ => Some (SnapTarget.mk g w (Point.mk 0 0) None v).

(** A resolver that never finds a target. *)
Definition noTarget : State -> list gid -> gid -> option SnapTarget.t :=
  fun _ _ _ => None.

Definition idLeft : WindowIdentity.t := WindowIdentity.mk "app" "left".
Definition idRight : WindowIdentity.t := WindowIdentity.mk "app" "right".
Definition idOther : WindowIdentity.t := WindowIdentity.mk "app" "other".

Definition square (cx cy : Q) : Rectangle.t :=
  Rectangle.mk (Point.mk cx cy) (Point.mk 10 10).

Definition run (st : State) (e : Event) : State :=
  handle gapDistance (dockOnto 0 1 VALID) e st.

(** Two windows, each alone in its group: window 0 in group 0 around (0,0),
    window 1 in group 1 around (20,0), edge to edge. *)
Definition twoWindows : State :=
  fold_left run [WindowCreated idLeft (square 0 0); WindowCreated idRight (square 20 0)]
    initial.

(** The same two windows after the right one has been dropped onto the left
    one: group 0 holds both, group 1 is gone. *)
Definition docked : State := run twoWindows (GroupCommit 1).

(** [twoWindows] with the global [foo] switched on. *)
Definition fooSet : State := run twoWindows (SetFoo true).

(** Two windows far apart, each alone in its group. *)
Definition farWindows : State :=
  fold_left run [WindowCreated idLeft (square 0 0); WindowCreated idRight (square 100 100)]
    initial.

(** The same two windows in one group, still far apart. *)
Definition looseGroup : State := run farWindows (GroupCommit 1).

(** A group created by [addGroup] that no window has joined yet. *)
Definition pendingGroup : State := snd (addGroup initial).

(** ** Well-formed service states

    What the registries and the two stores have in common in every state the
    service gets into: the registered windows are distinct, listened to, and
    each is a member of the registered group it refers to; the members of a
    registered group are distinct registered windows that refer back to it;
    a group outside the registry has no members; and no two registered
    windows share an identity.  As for [RegistryOK], [pending] exempts the
    groups that are still waiting for their window. *)
Record Consistent (pending : gid -> Prop) (st : State) : Prop := {
  wf_registry : RegistryOK pending st;
  wf_windows_nodup : NoDup (windows st);
  wf_window_home : forall w, In w (windows st) ->
      In (getGroup st w) (groups st) /\ In w (group_windows st (getGroup st w));
  wf_window_listened : forall w, In w (windows st) ->
      SnapWindow.onClose (wobj st w) = true;
  wf_window_fresh : forall w, In w (windows st) -> w < nextWindow st;
  wf_members_nodup : forall g, In g (groups st) -> NoDup (group_windows st g);
  wf_member_home : forall g w, In g (groups st) -> In w (group_windows st g) ->
      In w (windows st) /\ getGroup st w = g;
  wf_unregistered_empty : forall g, ~ In g (groups st) -> group_windows st g = [];
  wf_identities : forall w w', In w (windows st) -> In w' (windows st) ->
      getIdentity st w = getIdentity st w' -> w = w'
}.

Definition WellFormed : State -> Prop := Consistent nonePending.

(** What the environment owes the service when an event arrives: the host
    gives a new window an identity that no registered window has, and a
    commit comes from a registered group, for which the resolver proposes, if
    anything, another registered group. *)
Definition expected (getSnapTarget : State -> list gid -> gid -> option SnapTarget.t)
    (st : State) (e : Event) : Prop :=
  match e with
  | WindowCreated identity _ =>
      forall w, In w (windows st) -> getIdentity st w <> identity
  | GroupCommit g =>
      In g (groups st)
      /\ forall t, getSnapTarget st (groups st) g = Some t ->
                   In (SnapTarget.group t) (groups st) /\ SnapTarget.group t <> g
  | _ => True
  end.

(** The states the service reaches while the environment keeps its side. *)
Inductive attainable
    (distance : Rectangle.t -> Rectangle.t -> MeasureResult.t)
    (getSnapTarget : State -> list gid -> gid -> option SnapTarget.t)
  : State -> Prop :=
| attainable_initial : attainable distance getSnapTarget initial
| attainable_handle : forall st e,
    attainable distance getSnapTarget st ->
    expected getSnapTarget st e ->
    attainable distance getSnapTarget (handle distance getSnapTarget e st).

(** * Further vocabulary *)

(** ** Which groups the service listens to *)

(** Which of the five service handlers are attached to a group, in the order
    in which [addGroup] attaches them: [onModified], [onTransform],
    [onCommit], [onWindowRemoved], [onWindowAdded]. *)
Definition handlers (o : SnapGroup.t) : bool * bool * bool * bool * bool :=
  (SnapGroup.onModified o, SnapGroup.onTransform o, SnapGroup.onCommit o,
   SnapGroup.onWindowRemoved o, SnapGroup.onWindowAdded o).

(** All five service handlers are attached to a group. *)
Definition attached (o : SnapGroup.t) : Prop :=
  handlers o = (true, true, true, true, true).

(** The service listens to the groups of its registry and to no other: the
    registered groups are distinct groups created by [addGroup] with all
    five handlers attached, and a group outside the registry has none. *)
Record Listening (st : State) : Prop := {
  ls_nodup : NoDup (groups st);
  ls_fresh : forall g, In g (groups st) -> g < nextGroup st;
  ls_registered : forall g, In g (groups st) -> attached (gobj st g);
  ls_unregistered : forall g, ~ In g (groups st) ->
      handlers (gobj st g) = (false, false, false, false, false)
}.

(** ** The preview overlay, from its construction on *)

Section PreviewLife.

Variable Scope : Type.
Variable deepEqual : Scope -> Scope -> bool.
Variable query : Scope -> Preview.PreviewType -> Preview.Validity -> Preview.Overlay.

(** [defaultHalfSize] of [createWindow]. *)
Definition defaultHalfSize : Point.t := Point.mk 160%Q 160%Q.

(** [createWindow]: the bounds and the opacity of a new preview window, a
    blank page of twice the default half-size with opacity 0, once its
    creation callback has moved it to (-10000, -10000).  The name of the
    window and the options that bear on neither bounds, opacity nor style
    are not modelled. *)
Definition createWindow : Preview.Bounds * Q :=
  (Preview.mkBounds (-10000)%Q (-10000)%Q
     (Point.x defaultHalfSize * 2)%Q (Point.y defaultHalfSize * 2)%Q,
   0%Q).

(** The constructor: no active preview, no scope seen yet, and one new window
    with a cached opacity of 0 for every preview type and validity. *)
Definition newPreview : Preview.t Scope :=
  Preview.mkPreview
    (fun _ _ =>
       Preview.mkData (fst createWindow) (snd createWindow) EmptyString EmptyString 0%Q)
    None None.

(** [onTransform], given the first window of the active group and, if that
    window is tabbed, the scope of the active tab of its tab group. *)
Definition onTransform (activeTabScope : option Scope)
    (target : Preview.DesktopWindow Scope) (p : Preview.t Scope) : Preview.t Scope :=
  let scope := match activeTabScope with
               | Some s => s
               | None => Preview.scope target
               end in
  Preview.applyScopeStyles deepEqual query scope p.

(** The guard of [applyScopeStyles]: the scope is deep-equal to the last one. *)
Definition sameAsLastScope (sc : Scope) (p : Preview.t Scope) : bool :=
  match Preview.lastScope p with
  | Some l => deepEqual l sc
  | None => false
  end.

(** What can be asked of a preview: its two public methods, and the
    transform of a group it listens to. *)
Inductive PreviewCall :=
| Show (target : Preview.PreviewableTarget Scope)
| Hide
| Transform (activeTabScope : option Scope) (target : Preview.DesktopWindow Scope).

Definition call (p : Preview.t Scope) (c : PreviewCall) : Preview.t Scope :=
  match c with
  | Show target => Preview.show deepEqual query target p
  | Hide => Preview.hide p
  | Transform activeTabScope target => onTransform activeTabScope target p
  end.

(** The preview after a sequence of calls on a new one. *)
Definition after (calls : list PreviewCall) : Preview.t Scope :=
  fold_left call calls newPreview.

(** Whether the preview window of a type and validity is the active one. *)
Definition isActive (p : Preview.t Scope) (ty : Preview.PreviewType)
    (v : Preview.Validity) : bool :=
  match Preview.activeWindowPreview p with
  | Some a => Preview.sameKey (ty, v) a
  | None => false
  end.

(** Every preview window but the active one has opacity 0. *)
Definition OneVisible (p : Preview.t Scope) : Prop :=
  forall ty v, isActive p ty v = false ->
               Preview.windowOpacity (Preview.previewWindows p ty v) = 0%Q.

End PreviewLife.

Arguments newPreview {Scope}.
Arguments sameAsLastScope {Scope}.
Arguments isActive {Scope}.
Arguments OneVisible {Scope}.
Arguments Show {Scope}.
Arguments Hide {Scope}.
Arguments Transform {Scope}.

(** The key of the preview window [show] picks for a target. *)
Definition keyOf {Scope : Type} (target : Preview.PreviewableTarget Scope)
  : Preview.PreviewType * Preview.Validity :=
  (Preview.toLowerCase (Preview.type target),
   if Preview.valid target then Preview.VALID else Preview.INVALID).

(** The preview as [show] has it before it looks at the active preview: the
    styles applied, the picked window positioned and given the opacity that
    was cached when [show] began. *)
Definition shown {Scope : Type} (deepEqual : Scope -> Scope -> bool)
    (query : Scope -> Preview.PreviewType -> Preview.Validity -> Preview.Overlay)
    (target : Preview.PreviewableTarget Scope) (p : Preview.t Scope)
  : Preview.t Scope :=
  Preview.updateOptions (keyOf target)
    (Preview.opacity (Preview.previewWindows p (fst (keyOf target)) (snd (keyOf target))))
    (Preview.positionPreview (keyOf target) target
       (Preview.applyScopeStyles deepEqual query
          (Preview.scope (Preview.activeWindow target)) p)).

(** ** Sample configuration and targets for the preview *)

(** Scopes are numbers compared by equality; valid previews are green and
    mostly opaque, invalid ones red and fainter. *)
Definition sampleQuery (sc : nat) (ty : Preview.PreviewType) (v : Preview.Validity)
  : Preview.Overlay :=
  match v with
  | Preview.VALID => Preview.mkOverlay (8 # 10)%Q "green" "none"
  | Preview.INVALID => Preview.mkOverlay (5 # 10)%Q "red" "none"
  end.

Definition sampleAnchor : Preview.DesktopWindow nat := Preview.mkWindow 7 (square 0 0).

Definition sampleSnap : Preview.PreviewableTarget nat :=
  Preview.SnapTarget true sampleAnchor (Point.mk 20%Q 0%Q) None.

Definition sampleTab : Preview.PreviewableTarget nat :=
  Preview.TabTarget false sampleAnchor (square 5 5).

(** * Properties *)

(** ** Arrays *)

Lemma indexOf_found (v : nat) (l : list nat) : (0 <= indexOf v l)%Z <-> In v l.
Proof.
  induction l as [|h t IH]; simpl; [split; [lia|tauto]|].
  destruct (Nat.eqb_spec h v) as [->|Hne].
  - split; [auto|lia].
  - destruct (Z.ltb_spec (indexOf v t) 0) as [Hlt|Hge].
    + split; [lia|]. intros [Heq|Hin]; [congruence|]. apply IH in Hin. lia.
    + split; [intros _; right; apply IH; exact Hge|lia].
Qed.

Lemma splice1_indexOf (v : nat) (l : list nat) :
  In v l -> splice1 (indexOf v l) l = drop1 v l.
Proof.
  unfold splice1.
  induction l as [|h t IH]; simpl; [tauto|].
  intros Hin. destruct (Nat.eqb_spec h v) as [->|Hne].
  - reflexivity.
  - destruct Hin as [Heq|Hin]; [congruence|].
    pose proof (proj2 (indexOf_found v t) Hin) as Hge.
    destruct (Z.ltb_spec (indexOf v t) 0) as [Hlt|_]; [lia|].
    replace (Z.to_nat (indexOf v t + 1)) with (S (Z.to_nat (indexOf v t))) by lia.
    simpl. f_equal. apply IH. exact Hin.
Qed.

Lemma drop1_incl (v x : nat) (l : list nat) : In x (drop1 v l) -> In x l.
Proof.
  induction l as [|h t IH]; simpl; [tauto|].
  destruct (Nat.eqb h v); simpl; tauto.
Qed.

Lemma drop1_keeps (v x : nat) (l : list nat) : x <> v -> In x l -> In x (drop1 v l).
Proof.
  intros Hne. induction l as [|h t IH]; simpl; [tauto|].
  destruct (Nat.eqb_spec h v) as [->|Hhv]; simpl; intuition congruence.
Qed.

Lemma drop1_absent (v : nat) (l : list nat) : ~ In v l -> drop1 v l = l.
Proof.
  induction l as [|h t IH]; simpl; [reflexivity|].
  intros Hnin. destruct (Nat.eqb_spec h v) as [->|Hhv]; [tauto|].
  f_equal. apply IH. tauto.
Qed.

Lemma drop1_NoDup (v : nat) (l : list nat) : NoDup l -> NoDup (drop1 v l).
Proof.
  induction 1 as [|h t Hnin Hnd IH]; simpl; [constructor|].
  destruct (Nat.eqb h v); [exact Hnd|].
  constructor; [|exact IH]. intros Hin. apply Hnin. eapply drop1_incl; eauto.
Qed.

Lemma drop1_gone (v : nat) (l : list nat) : NoDup l -> ~ In v (drop1 v l).
Proof.
  induction 1 as [|h t Hnin Hnd IH]; simpl; [tauto|].
  destruct (Nat.eqb_spec h v) as [->|Hhv]; [exact Hnin|].
  simpl. tauto.
Qed.

Lemma drop1_app_fresh (v n : nat) (l : list nat) :
  n <> v -> drop1 v (l ++ [n]) = drop1 v l ++ [n].
Proof.
  intros Hne. induction l as [|h t IH]; simpl.
  - destruct (Nat.eqb_spec n v); [congruence|reflexivity].
  - destruct (Nat.eqb h v); [reflexivity|]. simpl. f_equal. exact IH.
Qed.

Lemma existsb_eqb_In (w : nat) (l : list nat) :
  existsb (Nat.eqb w) l = true <-> In w l.
Proof.
  rewrite existsb_exists. split.
  - intros [x [Hin Heq]]. apply Nat.eqb_eq in Heq. subst. exact Hin.
  - intros Hin. exists w. split; [exact Hin|apply Nat.eqb_refl].
Qed.

Lemma upd_same {A : Type} (f : nat -> A) (k : nat) (v : A) : upd f k v k = v.
Proof. unfold upd. rewrite Nat.eqb_refl. reflexivity. Qed.

Lemma upd_other {A : Type} (f : nat -> A) (k k' : nat) (v : A) :
  k' <> k -> upd f k v k' = f k'.
Proof. unfold upd. intros Hne. destruct (Nat.eqb_spec k' k); [contradiction|reflexivity]. Qed.

(** ** The registry invariant through the handlers *)

Lemma RegistryOK_weaken (P Q : gid -> Prop) (st : State) :
  (forall g, P g -> Q g) -> RegistryOK P st -> RegistryOK Q st.
Proof.
  intros HPQ [Hnd Hfr Hw Hne]. constructor; auto.
Qed.

(** States with the same registry, group store and counter. *)
Lemma RegistryOK_same (P : gid -> Prop) (st st' : State) :
  groups st' = groups st -> gobj st' = gobj st -> nextGroup st' = nextGroup st ->
  RegistryOK P st -> RegistryOK P st'.
Proof.
  intros Hg Ho Hn [Hnd Hfr Hw Hne].
  constructor; unfold group_windows in *; rewrite ?Hg, ?Ho, ?Hn; auto.
Qed.

Lemma removeGroup_cases (g : gid) (st : State) :
  (removeGroup g st = st /\ (group_length st g <> 0%nat \/ ~ In g (groups st)))
  \/ (group_length st g = 0%nat /\ In g (groups st)
      /\ groups (removeGroup g st) = drop1 g (groups st)
      /\ gobj (removeGroup g st)
         = upd (gobj st) g
             (SnapGroup.mk (group_windows st g) false false false false false)
      /\ nextGroup (removeGroup g st) = nextGroup st
      /\ wobj (removeGroup g st) = wobj st
      /\ windows (removeGroup g st) = windows st
      /\ nextWindow (removeGroup g st) = nextWindow st
      /\ view (removeGroup g st) = view st
      /\ window_foo (removeGroup g st) = window_foo st
      /\ emitted (removeGroup g st) = emitted st).
Proof.
  unfold removeGroup.
  destruct (Nat.eqb_spec (group_length st g) 0) as [Hz|Hnz]; simpl.
  - destruct (Z.leb_spec 0 (indexOf g (groups st))) as [Hge|Hlt].
    + right. apply indexOf_found in Hge.
      repeat split; auto. simpl. apply splice1_indexOf. exact Hge.
    + left. split; [reflexivity|]. right. intros Hin.
      apply indexOf_found in Hin. lia.
  - left. split; [reflexivity|]. left. exact Hnz.
Qed.

Lemma removeGroup_ok (P : gid -> Prop) (g : gid) (st : State) :
  RegistryOK P st -> RegistryOK P (removeGroup g st).
Proof.
  intros HOK.
  destruct (removeGroup_cases g st)
    as [[-> _]|(Hz & Hin & Hg & Ho & Hn & _)]; [exact HOK|].
  destruct HOK as [Hnd Hfr Hw Hne].
  assert (Hother : forall g', In g' (drop1 g (groups st)) -> g' <> g).
  { intros g' Hin' ->. exact (drop1_gone g _ Hnd Hin'). }
  constructor; unfold group_windows; rewrite ?Hg, ?Ho, ?Hn.
  - apply drop1_NoDup. exact Hnd.
  - intros g' Hin'. apply Hfr. eapply drop1_incl; eauto.
  - intros g' Hin'. rewrite upd_other by auto.
    apply Hw. eapply drop1_incl; eauto.
  - intros g' Hin' HP. rewrite upd_other by auto.
    apply Hne; [eapply drop1_incl; eauto|exact HP].
Qed.

Lemma removeGroup_empty_ok (P : gid -> Prop) (g : gid) (st : State) :
  group_length st g = 0%nat ->
  RegistryOK (orPending P g) st -> RegistryOK P (removeGroup g st).
Proof.
  intros Hz HOK.
  destruct (removeGroup_cases g st)
    as [[-> [Hnz|Hnin]]|(_ & Hin & Hg & Ho & Hn & _)].
  - contradiction.
  - destruct HOK as [Hnd Hfr Hw Hne]. constructor; auto.
    intros g' Hin' HP. apply Hne; [exact Hin'|].
    intros [HP'| ->]; [exact (HP HP')|exact (Hnin Hin')].
  - destruct HOK as [Hnd Hfr Hw Hne].
    assert (Hother : forall g', In g' (drop1 g (groups st)) -> g' <> g).
    { intros g' Hin' ->. exact (drop1_gone g _ Hnd Hin'). }
    constructor; unfold group_windows; rewrite ?Hg, ?Ho, ?Hn.
    + apply drop1_NoDup. exact Hnd.
    + intros g' Hin'. apply Hfr. eapply drop1_incl; eauto.
    + intros g' Hin'. rewrite upd_other by auto.
      apply Hw. eapply drop1_incl; eauto.
    + intros g' Hin' HP. rewrite upd_other by auto.
      apply Hne; [eapply drop1_incl; eauto|].
      intros [HP'|Heq]; [exact (HP HP')|exact (Hother g' Hin' Heq)].
Qed.

Lemma onWindowRemovedFromGroup_ok (P : gid -> Prop) (g : gid) (w : wid) (st : State) :
  RegistryOK (orPending P g) st -> RegistryOK P (onWindowRemovedFromGroup g w st).
Proof.
  intros HOK. unfold onWindowRemovedFromGroup, sendWindowRemovedMessage.
  match goal with
  | |- RegistryOK _ (emit _ ?s) => apply RegistryOK_same with (st := s); [reflexivity..|]
  end.
  destruct (Nat.eqb_spec (group_length st g) 0) as [Hz|Hnz].
  - apply removeGroup_empty_ok; assumption.
  - destruct HOK as [Hnd Hfr Hw Hne]. constructor; auto.
    intros g' Hin' HP. destruct (Nat.eq_dec g' g) as [->|Hgg].
    + unfold group_length, SnapGroup.length in Hnz. unfold group_windows.
      destruct (SnapGroup.windows (gobj st g)); [contradiction|discriminate].
    + apply Hne; [exact Hin'|]. intros [HP'|Heq]; auto.
Qed.

Lemma emit_onWindowRemoved_ok (P : gid -> Prop) (g : gid) (w : wid) (st : State) :
  RegistryOK (orPending P g) st -> RegistryOK P (emit_onWindowRemoved g w st).
Proof.
  intros HOK. unfold emit_onWindowRemoved.
  destruct (SnapGroup.onWindowRemoved (gobj st g)) eqn:Hwired.
  - apply onWindowRemovedFromGroup_ok. exact HOK.
  - destruct HOK as [Hnd Hfr Hw Hne]. constructor; auto.
    intros g' Hin' HP. apply Hne; [exact Hin'|].
    intros [HP'| ->]; [exact (HP HP')|].
    rewrite (Hw g Hin') in Hwired. discriminate.
Qed.

Lemma set_group_windows_ok (P : gid -> Prop) (g : gid) (l : list wid) (st : State) :
  RegistryOK P st -> RegistryOK (orPending P g) (set_group_windows g l st).
Proof.
  intros [Hnd Hfr Hw Hne]. constructor; simpl; auto.
  - intros g' Hin'. unfold upd. destruct (Nat.eqb_spec g' g) as [->|Hgg]; simpl; auto.
  - intros g' Hin' HP. unfold group_windows. simpl.
    rewrite upd_other.
    + apply Hne; [exact Hin'|]. intros HP'. apply HP. left. exact HP'.
    + intros ->. apply HP. right. reflexivity.
Qed.

Lemma group_removeWindow_ok (P : gid -> Prop) (g : gid) (w : wid) (st : State) :
  RegistryOK P st -> RegistryOK P (group_removeWindow g w st).
Proof.
  intros HOK. unfold group_removeWindow.
  destruct (existsb (Nat.eqb w) (group_windows st g)); [|exact HOK].
  apply emit_onWindowRemoved_ok. apply set_group_windows_ok. exact HOK.
Qed.

Lemma group_addWindow_ok (P : gid -> Prop) (g : gid) (w : wid) (st : State) :
  RegistryOK (orPending P g) st -> RegistryOK P (group_addWindow g w st).
Proof.
  intros [Hnd Hfr Hw Hne]. unfold group_addWindow.
  assert (HOK : RegistryOK P (set_group_windows g (group_windows st g ++ [w]) st)).
  { constructor; simpl; auto.
    - intros g' Hin'. unfold upd. destruct (Nat.eqb_spec g' g) as [->|Hgg]; simpl; auto.
    - intros g' Hin' HP. unfold group_windows. simpl. unfold upd.
      destruct (Nat.eqb_spec g' g) as [->|Hgg]; simpl.
      + intros Habs. apply app_eq_nil in Habs. destruct Habs; discriminate.
      + apply Hne; [exact Hin'|]. intros [HP'|Heq]; auto. }
  unfold emit_onWindowAdded, sendWindowAddedMessage.
  destruct (SnapGroup.onWindowAdded _); [|exact HOK].
  eapply RegistryOK_same; [..|exact HOK]; reflexivity.
Qed.

Lemma setGroup_ok (P : gid -> Prop) (w : wid) (g : gid) (o h : option Point.t)
    (st : State) :
  RegistryOK (orPending P g) st -> RegistryOK P (setGroup w g o h st).
Proof.
  intros HOK. unfold setGroup.
  apply group_addWindow_ok. apply group_removeWindow_ok.
  eapply RegistryOK_same; [..|exact HOK]; reflexivity.
Qed.

Lemma setGroup_ok_none (w : wid) (g : gid) (o h : option Point.t) (st : State) :
  RegistryOK nonePending st -> RegistryOK nonePending (setGroup w g o h st).
Proof.
  intros HOK. apply setGroup_ok.
  eapply RegistryOK_weaken; [|exact HOK]. intros x Hx. left. exact Hx.
Qed.

Lemma addGroup_ok (P : gid -> Prop) (st : State) :
  RegistryOK P st ->
  RegistryOK (orPending P (nextGroup st)) (snd (addGroup st)).
Proof.
  intros [Hnd Hfr Hw Hne]. unfold addGroup. constructor; simpl.
  - apply NoDup_app; [exact Hnd|repeat constructor; simpl; tauto|].
    intros g Hin [<-|[]]. apply Hfr in Hin. lia.
  - intros g Hin. apply in_app_or in Hin. destruct Hin as [Hin|[<-|[]]].
    + apply Hfr in Hin. lia.
    + lia.
  - intros g Hin. unfold upd.
    destruct (Nat.eqb_spec g (nextGroup st)); [reflexivity|].
    apply in_app_or in Hin. destruct Hin as [Hin|[<-|[]]]; [auto|congruence].
  - intros g Hin HP. unfold group_windows. simpl. unfold upd.
    destruct (Nat.eqb_spec g (nextGroup st)) as [->|Hgg].
    + exfalso. apply HP. right. reflexivity.
    + apply in_app_or in Hin. destruct Hin as [Hin|[<-|[]]]; [|congruence].
      apply Hne; [exact Hin|]. intros HP'. apply HP. left. exact HP'.
Qed.

(** ** The registry invariant through the service *)

Section RegistryInvariant.

Variable distance : Rectangle.t -> Rectangle.t -> MeasureResult.t.
Variable getSnapTarget : State -> list gid -> gid -> option SnapTarget.t.

Lemma offsetBy_ok (P : gid -> Prop) (w : wid) (d : Point.t) (st : State) :
  RegistryOK P st -> RegistryOK P (offsetBy w d st).
Proof. intros HOK. eapply RegistryOK_same; [..|exact HOK]; reflexivity. Qed.

Lemma undock_ok (target : WindowIdentity.t) (st : State) :
  RegistryOK nonePending st -> RegistryOK nonePending (undock distance target st).
Proof.
  intros HOK. unfold undock.
  destruct (find _ (windows st)) as [w|]; [|exact HOK].
  pose proof (addGroup_ok _ _ HOK) as Hadd.
  destruct (addGroup st) as [g st1] eqn:Hag.
  assert (Hg : g = nextGroup st) by (unfold addGroup in Hag; congruence).
  simpl in Hadd. rewrite <- Hg in Hadd.
  unfold emit_onModified, validateGroup.
  match goal with |- RegistryOK _ (if ?c then ?s else ?s) =>
    replace (if c then s else s) with s by (destruct c; reflexivity) end.
  apply offsetBy_ok. apply setGroup_ok. exact Hadd.
Qed.

Lemma explodeOne_ok (st : State) (wo : wid * Point.t) :
  RegistryOK nonePending st -> RegistryOK nonePending (explodeOne st wo).
Proof.
  intros HOK. unfold explodeOne. destruct wo as [w off].
  pose proof (addGroup_ok _ _ HOK) as Hadd.
  destruct (addGroup st) as [g st1] eqn:Hag.
  assert (Hg : g = nextGroup st) by (unfold addGroup in Hag; congruence).
  simpl in Hadd. rewrite <- Hg in Hadd.
  apply offsetBy_ok. apply setGroup_ok. exact Hadd.
Qed.

Lemma explodeGroup_ok (target : WindowIdentity.t) (st : State) :
  RegistryOK nonePending st ->
  RegistryOK nonePending (explodeGroup distance target st).
Proof.
  intros HOK. unfold explodeGroup.
  destruct (find _ (groups st)) as [g|]; [|exact HOK].
  destruct (Nat.ltb 1 (group_length st g)); [|exact HOK].
  generalize (combine (group_windows st g)
                (map (calculateOffset distance st) (group_windows st g))).
  intros l. revert st HOK.
  induction l as [|wo l IH]; intros st HOK; simpl; [exact HOK|].
  apply IH. apply explodeOne_ok. exact HOK.
Qed.

Lemma applyOne_ok (t : SnapTarget.t) (st : State) (w : wid) :
  RegistryOK nonePending st -> RegistryOK nonePending (applyOne t st w).
Proof.
  intros HOK. unfold applyOne.
  destruct (SnapTarget.halfSize t); [destruct (Nat.eqb _ _)|];
    apply setGroup_ok_none; exact HOK.
Qed.

Lemma applySnapTarget_ok (g : gid) (st : State) :
  RegistryOK nonePending st ->
  RegistryOK nonePending (applySnapTarget getSnapTarget g st).
Proof.
  intros HOK. unfold applySnapTarget, view_update.
  match goal with |- RegistryOK _ (set_view _ ?s) =>
    apply RegistryOK_same with (st := s); [reflexivity..|] end.
  destruct (getSnapTarget st (groups st) g) as [t|]; [|exact HOK].
  destruct (_ && _); [|exact HOK].
  generalize (group_windows st g). intros l. revert st HOK.
  induction l as [|w l IH]; intros st HOK; simpl; [exact HOK|].
  apply IH. apply applyOne_ok. exact HOK.
Qed.

Lemma addWindow_ok (identity : WindowIdentity.t) (state : WindowState) (st : State) :
  RegistryOK nonePending st ->
  RegistryOK nonePending (snd (addWindow identity state st)).
Proof.
  intros HOK. unfold addWindow.
  pose proof (addGroup_ok _ _ HOK) as Hadd.
  destruct (addGroup st) as [g st1] eqn:Hag.
  assert (Hg : g = nextGroup st) by (unfold addGroup in Hag; congruence).
  simpl in Hadd. rewrite <- Hg in Hadd.
  unfold newSnapWindow. simpl.
  match goal with |- RegistryOK _ (set_windows _ (set_wobj _ _ ?s)) =>
    apply RegistryOK_same with (st := s); [reflexivity..|] end.
  apply group_addWindow_ok.
  eapply RegistryOK_same; [..|exact Hadd]; reflexivity.
Qed.

Lemma onWindowClosed_ok (w : wid) (st : State) :
  RegistryOK nonePending st -> RegistryOK nonePending (onWindowClosed w st).
Proof.
  intros HOK. unfold onWindowClosed, validateGroup.
  destruct (0 <=? indexOf w (windows st))%Z; [|exact HOK].
  eapply RegistryOK_same; [..|exact HOK]; reflexivity.
Qed.

Lemma windowClosed_ok (w : wid) (st : State) :
  RegistryOK nonePending st -> RegistryOK nonePending (windowClosed w st).
Proof.
  intros HOK. unfold windowClosed. apply group_removeWindow_ok.
  destruct (SnapWindow.onClose (wobj st w)); [apply onWindowClosed_ok|]; exact HOK.
Qed.

Lemma handle_ok (e : Event) (st : State) :
  RegistryOK nonePending st ->
  RegistryOK nonePending (handle distance getSnapTarget e st).
Proof.
  intros HOK. destruct e; simpl.
  - apply undock_ok. exact HOK.
  - exact HOK.
  - apply explodeGroup_ok. exact HOK.
  - apply addWindow_ok. exact HOK.
  - apply windowClosed_ok. exact HOK.
  - eapply RegistryOK_same; [..|exact HOK]; reflexivity.
  - destruct (SnapGroup.onTransform (gobj st g)); [|exact HOK].
    eapply RegistryOK_same; [..|exact HOK]; reflexivity.
  - destruct (SnapGroup.onCommit (gobj st g)); [|exact HOK].
    apply applySnapTarget_ok. exact HOK.
  - unfold emit_onModified, validateGroup.
    destruct (SnapGroup.onModified (gobj st g)); exact HOK.
  - eapply RegistryOK_same; [..|exact HOK]; reflexivity.
Qed.

Lemma initial_ok : RegistryOK nonePending initial.
Proof. constructor; simpl; try tauto. constructor. Qed.

Lemma reachable_ok (st : State) :
  reachable distance getSnapTarget st -> RegistryOK nonePending st.
Proof.
  induction 1 as [|st e Hr IH]; [exact initial_ok|apply handle_ok; exact IH].
Qed.

End RegistryInvariant.

(** ** What leaving and joining a group changes *)

Lemma group_removeWindow_fields (g : gid) (w : wid) (st : State) :
  In w (group_windows st g) ->
  SnapGroup.onWindowRemoved (gobj st g) = true ->
  In g (groups st) ->
  let rest := drop1 w (group_windows st g) in
  let st' := group_removeWindow g w st in
  wobj st' = wobj st /\ windows st' = windows st /\ nextGroup st' = nextGroup st
  /\ nextWindow st' = nextWindow st /\ view st' = view st
  /\ window_foo st' = window_foo st
  /\ group_windows st' g = rest
  /\ (forall g', g' <> g -> gobj st' g' = gobj st g')
  /\ (rest <> [] -> groups st' = groups st
                    /\ SnapGroup.onWindowRemoved (gobj st' g) = true)
  /\ (rest = [] -> groups st' = drop1 g (groups st) /\ detached (gobj st' g)).
Proof.
  intros Hin Hwired Hreg rest st'. subst st'. unfold group_removeWindow.
  rewrite (proj2 (existsb_eqb_In w _) Hin). fold rest.
  unfold emit_onWindowRemoved.
  replace (SnapGroup.onWindowRemoved (gobj (set_group_windows g rest st) g)) with true
    by (simpl; rewrite upd_same; simpl; auto).
  unfold onWindowRemovedFromGroup, sendWindowRemovedMessage.
  replace (group_length (set_group_windows g rest st) g) with (List.length rest)
    by (unfold group_length; simpl; rewrite upd_same; reflexivity).
  destruct rest as [|r0 rest'] eqn:Hrest; simpl Nat.eqb; cbv iota.
  - destruct (removeGroup_cases g (set_group_windows g [] st))
      as [[_ [Hnz|Hnin]]|(_ & _ & Hg & Ho & Hn & Hwo & Hws & Hnw & Hv & Hf & _)].
    + exfalso. apply Hnz. unfold group_length. simpl. rewrite upd_same. reflexivity.
    + exfalso. apply Hnin. exact Hreg.
    + unfold group_windows, detached in *. simpl in *.
      rewrite Hg, Ho, Hn, Hwo, Hws, Hnw, Hv, Hf.
      repeat split; intros; try congruence;
        rewrite ?upd_same, ?upd_other by assumption; simpl;
        rewrite ?upd_same, ?upd_other by assumption; reflexivity.
  - unfold group_windows, detached. simpl.
    repeat split; intros; try congruence;
      rewrite ?upd_same, ?upd_other by assumption; simpl; auto.
Qed.

Lemma group_addWindow_fields (g : gid) (w : wid) (st : State) :
  let st' := group_addWindow g w st in
  wobj st' = wobj st /\ windows st' = windows st /\ nextGroup st' = nextGroup st
  /\ nextWindow st' = nextWindow st /\ view st' = view st
  /\ window_foo st' = window_foo st /\ groups st' = groups st
  /\ group_windows st' g = group_windows st g ++ [w]
  /\ SnapGroup.onWindowRemoved (gobj st' g) = SnapGroup.onWindowRemoved (gobj st g)
  /\ (forall g', g' <> g -> gobj st' g' = gobj st g').
Proof.
  unfold group_addWindow, emit_onWindowAdded, sendWindowAddedMessage, group_windows.
  destruct (SnapGroup.onWindowAdded _); simpl;
    repeat split; intros;
    rewrite ?upd_same, ?upd_other by assumption; reflexivity.
Qed.

(** A member [w] of a registered group moves to another group [g]. *)
Lemma setGroup_fields (w : wid) (g : gid) (o h : option Point.t) (st : State) :
  let prev := getGroup st w in
  In w (group_windows st prev) ->
  SnapGroup.onWindowRemoved (gobj st prev) = true ->
  In prev (groups st) ->
  g <> prev ->
  let rest := drop1 w (group_windows st prev) in
  let st' := setGroup w g o h st in
  wobj st' = upd (wobj st) w
               (SnapWindow.mk (getIdentity st w) (applyDelta o h (getState st w))
                  g (SnapWindow.onClose (wobj st w)))
  /\ windows st' = windows st /\ nextGroup st' = nextGroup st
  /\ nextWindow st' = nextWindow st /\ view st' = view st
  /\ window_foo st' = window_foo st
  /\ group_windows st' g = group_windows st g ++ [w]
  /\ SnapGroup.onWindowRemoved (gobj st' g) = SnapGroup.onWindowRemoved (gobj st g)
  /\ group_windows st' prev = rest
  /\ (forall g', g' <> prev -> g' <> g -> gobj st' g' = gobj st g')
  /\ (rest <> [] -> groups st' = groups st
                    /\ SnapGroup.onWindowRemoved (gobj st' prev) = true)
  /\ (rest = [] -> groups st' = drop1 prev (groups st) /\ detached (gobj st' prev)).
Proof.
  intros prev Hin Hwired Hreg Hne rest st'. subst st'. unfold setGroup.
  fold (getGroup st w). fold prev.
  set (st1 := set_wobj w _ st).
  assert (Hin1 : In w (group_windows st1 prev)) by exact Hin.
  assert (Hwired1 : SnapGroup.onWindowRemoved (gobj st1 prev) = true) by exact Hwired.
  assert (Hreg1 : In prev (groups st1)) by exact Hreg.
  destruct (group_removeWindow_fields prev w st1 Hin1 Hwired1 Hreg1)
    as (Hwo & Hws & Hn & Hnw & Hv & Hf & Hgw & Hoth & Hmore & Hlast).
  set (st2 := group_removeWindow prev w st1) in *.
  destruct (group_addWindow_fields g w st2)
    as (Hwo' & Hws' & Hn' & Hnw' & Hv' & Hf' & Hg' & Hgw' & Hwd' & Hoth').
  set (st3 := group_addWindow g w st2) in *.
  assert (Hprev3 : gobj st3 prev = gobj st2 prev) by (apply Hoth'; auto).
  assert (Hg2 : gobj st2 g = gobj st g) by (rewrite Hoth by exact Hne; reflexivity).
  unfold group_windows in *.
  rewrite Hwo', Hws', Hn', Hnw', Hv', Hf', Hg', Hgw', Hwd', Hprev3, Hg2.
  rewrite Hwo, Hws, Hn, Hnw, Hv, Hf, Hgw.
  repeat split; try reflexivity.
  - intros g' Hp Hg. rewrite Hoth', Hoth by assumption. reflexivity.
  - apply Hmore. assumption.
  - apply Hmore. assumption.
  - apply Hlast. assumption.
  - apply Hlast. assumption.
  - apply Hlast. assumption.
  - apply Hlast. assumption.
  - apply Hlast. assumption.
  - apply Hlast. assumption.
Qed.

(** ** One round of the explode loop *)

Lemma explodeOne_fields (st : State) (g : gid) (w : wid) (r : list wid) (off : Point.t) :
  (forall g', In g' (groups st) -> g' < nextGroup st) ->
  In g (groups st) ->
  SnapGroup.onWindowRemoved (gobj st g) = true ->
  group_windows st g = w :: r ->
  getGroup st w = g ->
  let n := nextGroup st in
  let st' := explodeOne st (w, off) in
  wobj st' w = SnapWindow.mk (getIdentity st w)
                 (movedBy (explodeDelta off) (getState st w))
                 n (SnapWindow.onClose (wobj st w))
  /\ (forall w', w' <> w -> wobj st' w' = wobj st w')
  /\ windows st' = windows st /\ nextGroup st' = S n /\ view st' = view st
  /\ group_windows st' n = [w]
  /\ SnapGroup.onWindowRemoved (gobj st' n) = true
  /\ group_windows st' g = r
  /\ (forall g', g' <> g -> g' <> n -> gobj st' g' = gobj st g')
  /\ (r <> [] -> groups st' = groups st ++ [n]
                 /\ SnapGroup.onWindowRemoved (gobj st' g) = true)
  /\ (r = [] -> groups st' = drop1 g (groups st) ++ [n] /\ detached (gobj st' g)).
Proof.
  intros Hfr Hreg Hwired Hws Hback n st'. subst st'.
  assert (Hgn : g <> n) by (apply Hfr in Hreg; unfold n; lia).
  unfold explodeOne.
  destruct (addGroup st) as [n' st1] eqn:Hadd.
  unfold addGroup in Hadd. injection Hadd as Hn' Hst1. fold n in Hn', Hst1. subst n'.
  assert (Hg1 : gobj st1 g = gobj st g).
  { subst st1. simpl. apply upd_other. exact Hgn. }
  assert (Hn1 : gobj st1 n = SnapGroup.mk [] true true true true true).
  { subst st1. simpl. apply upd_same. }
  assert (Hw1 : wobj st1 = wobj st) by (subst st1; reflexivity).
  assert (Hprev : getGroup st1 w = g) by (unfold getGroup; rewrite Hw1; exact Hback).
  assert (Hdrop : drop1 w (group_windows st1 (getGroup st1 w)) = r).
  { rewrite Hprev. unfold group_windows. rewrite Hg1.
    unfold group_windows in Hws. rewrite Hws. simpl. rewrite Nat.eqb_refl. reflexivity. }
  destruct (setGroup_fields w n None None st1)
    as (Hwo & Hwins & Hnx & _ & Hv & _ & Hgn' & Hwn & Hgp & Hoth & Hmore & Hlast).
  - rewrite Hprev. unfold group_windows. rewrite Hg1.
    unfold group_windows in Hws. rewrite Hws. left. reflexivity.
  - rewrite Hprev, Hg1. exact Hwired.
  - rewrite Hprev. subst st1. simpl. apply in_or_app. left. exact Hreg.
  - rewrite Hprev. auto.
  - rewrite Hdrop in *. rewrite Hprev in *.
    set (st2 := setGroup w n None None st1) in *.
    unfold offsetBy, group_windows in *. simpl.
    rewrite Hwo, Hwins, Hnx, Hv, Hgn', Hwn, Hgp, Hn1. rewrite upd_same. simpl.
    unfold getIdentity, getState. rewrite Hw1.
    assert (Hgroups1 : groups st1 = groups st ++ [n]) by (subst st1; reflexivity).
    assert (Hdropn : drop1 g (groups st ++ [n]) = drop1 g (groups st) ++ [n]).
    { apply drop1_app_fresh. auto. }
    repeat split; try (subst st1; reflexivity).
    + rewrite !upd_same. reflexivity.
    + intros w' Hw'. rewrite !upd_other by exact Hw'. reflexivity.
    + intros g' Hg' Hgn2. rewrite Hoth by assumption.
      subst st1. simpl. apply upd_other. exact Hgn2.
    + rewrite (proj1 (Hmore H)). exact Hgroups1.
    + apply Hmore. assumption.
    + rewrite (proj1 (Hlast H)), Hgroups1. exact Hdropn.
    + apply Hlast. assumption.
    + apply Hlast. assumption.
    + apply Hlast. assumption.
    + apply Hlast. assumption.
    + apply Hlast. assumption.
Qed.

Lemma NoDup_snoc_fresh (l : list nat) (n : nat) :
  NoDup l -> (forall x, In x l -> x < n) -> NoDup (l ++ [n]).
Proof.
  intros Hnd Hfr. apply NoDup_app; [exact Hnd|repeat constructor; simpl; tauto|].
  intros x Hin [<-|[]]. apply Hfr in Hin. lia.
Qed.

(** ** The whole explode loop *)

Lemma explode_loop (g : gid) (r : list wid) :
  forall (w : wid) (st : State) (offs : list Point.t),
  NoDup (groups st) ->
  (forall g', In g' (groups st) -> g' < nextGroup st) ->
  In g (groups st) ->
  SnapGroup.onWindowRemoved (gobj st g) = true ->
  group_windows st g = w :: r ->
  NoDup (w :: r) ->
  (forall w', In w' (w :: r) -> getGroup st w' = g) ->
  List.length offs = List.length (w :: r) ->
  Exploded st g (w :: r) offs (fold_left explodeOne (combine (w :: r) offs) st).
Proof.
  induction r as [|w2 r' IH]; intros w st offs Hnd Hfr Hreg Hwired Hws Hndw Hback Hlen.
  - destruct offs as [|off [|? ?]]; try discriminate.
    change (fold_left explodeOne (combine [w] [off]) st) with (explodeOne st (w, off)).
    destruct (explodeOne_fields st g w [] off Hfr Hreg Hwired Hws (Hback w (or_introl eq_refl)))
      as (Hw & Hwo & Hwins & Hnx & Hv & Hgn & Hwn & Hgg & Hoth & _ & Hlast).
    destruct (Hlast eq_refl) as [Hgr Hdet].
    assert (Hgn' : g <> nextGroup st) by (apply Hfr in Hreg; lia).
    set (s1 := explodeOne st (w, off)) in *.
    constructor; auto.
    + rewrite Hnx. simpl. lia.
    + intros g' Hg' Hlt. apply Hoth; [exact Hg'|lia].
    + intros w' Hnin. apply Hwo. simpl in Hnin. intros ->. tauto.
    + intros [|i] wi oi Hwi Hoi; simpl in Hwi, Hoi.
      * injection Hwi as <-. injection Hoi as <-. rewrite Nat.add_0_r. auto.
      * destruct i; discriminate.
  - destruct offs as [|off offs']; [discriminate|].
    change (fold_left explodeOne (combine (w :: w2 :: r') (off :: offs')) st)
      with (fold_left explodeOne (combine (w2 :: r') offs') (explodeOne st (w, off))).
    destruct (explodeOne_fields st g w (w2 :: r') off Hfr Hreg Hwired Hws
                (Hback w (or_introl eq_refl)))
      as (Hw & Hwo & Hwins & Hnx & Hv & Hgn & Hwn & Hgg & Hoth & Hmore & _).
    destruct Hmore as [Hgr Hwired1]; [discriminate|].
    set (s1 := explodeOne st (w, off)) in *.
    set (n := nextGroup st) in *.
    assert (Hgn' : g <> n) by (apply Hfr in Hreg; unfold n; lia).
    inversion Hndw as [|? ? Hwnin Hndr]; subst.
    assert (Hfr1 : forall g', In g' (groups s1) -> g' < nextGroup s1).
    { intros g' Hin. rewrite Hgr in Hin. rewrite Hnx.
      apply in_app_or in Hin. destruct Hin as [Hin|[<-|[]]]; [apply Hfr in Hin; fold n in Hin|]; lia. }
    assert (Hback1 : forall w', In w' (w2 :: r') -> getGroup s1 w' = g).
    { intros w' Hin. unfold getGroup. rewrite Hwo.
      - apply Hback. right. exact Hin.
      - intros ->. exact (Hwnin Hin). }
    assert (Hnd1 : NoDup (groups s1)).
    { rewrite Hgr. apply NoDup_snoc_fresh; assumption. }
    assert (Hreg1 : In g (groups s1)).
    { rewrite Hgr. apply in_or_app. left. exact Hreg. }
    specialize (IH w2 s1 offs' Hnd1 Hfr1 Hreg1 Hwired1 Hgg Hndr Hback1
                  ltac:(simpl in Hlen |- *; lia)).
    destruct IH as [Eg En Ew Ev Ee Ed Eog Eow Em].
    constructor.
    + rewrite Eg, Hgr, Hnx. rewrite drop1_app_fresh by auto.
      rewrite <- app_assoc. reflexivity.
    + rewrite En, Hnx. simpl. fold n. lia.
    + rewrite Ew. exact Hwins.
    + rewrite Ev. exact Hv.
    + exact Ee.
    + exact Ed.
    + intros g' Hg' Hlt. rewrite Eog; [|exact Hg'|rewrite Hnx; lia].
      apply Hoth; [exact Hg'|fold n in Hlt; lia].
    + intros w' Hnin. rewrite Eow by (simpl in *; tauto).
      apply Hwo. simpl in Hnin. intros ->. tauto.
    + intros [|i] wi oi Hwi Hoi; simpl in Hwi, Hoi.
      * injection Hwi as <-. injection Hoi as <-. fold n. rewrite Nat.add_0_r.
        rewrite Eow by exact Hwnin.
        unfold group_windows in *.
        rewrite Eog; [|auto|rewrite Hnx; lia].
        auto.
      * destruct (Em i wi oi Hwi Hoi) as (Hwi' & Hgi & Hwdi).
        rewrite Hnx in Hwi', Hgi, Hwdi. fold n.
        replace (n + S i) with (S n + i) by lia.
        assert (Hne : wi <> w).
        { intros ->. apply Hwnin. eapply nth_error_In; eauto. }
        unfold getIdentity, getState in *. rewrite (Hwo wi Hne) in Hwi'.
        auto.
Qed.

(** ** Looking windows and groups up by identity *)

Lemma sameIdentity_eq (a b : WindowIdentity.t) : sameIdentity a b = true <-> b = a.
Proof.
  unfold sameIdentity. destruct a as [u n], b as [u' n']. simpl.
  rewrite andb_true_iff, !String.eqb_eq. split.
  - intros [-> ->]. reflexivity.
  - intros H. injection H as -> ->. auto.
Qed.

Lemma find_unique {A : Type} (p : A -> bool) (l : list A) (a : A) :
  In a l -> p a = true -> (forall b, In b l -> p b = true -> b = a) ->
  find p l = Some a.
Proof.
  induction l as [|h t IH]; simpl; [tauto|].
  intros Hin Hpa Huniq. destruct (p h) eqn:Hph.
  - f_equal. apply Huniq; auto.
  - destruct Hin as [->|Hin]; [congruence|]. apply IH; auto.
Qed.

Lemma holds_identity (st : State) (target : WindowIdentity.t) (l : list wid) :
  Nat.ltb 0 (List.length (filter (fun w => sameIdentity target (getIdentity st w)) l)) = true
  <-> exists w, In w l /\ getIdentity st w = target.
Proof.
  rewrite Nat.ltb_lt. split.
  - intros Hlen.
    destruct (filter (fun w => sameIdentity target (getIdentity st w)) l) as [|w r] eqn:Hf;
      [simpl in Hlen; lia|].
    assert (Hin : In w (filter (fun w => sameIdentity target (getIdentity st w)) l))
      by (rewrite Hf; left; reflexivity).
    apply filter_In in Hin. destruct Hin as [Hin Hsame].
    exists w. split; [exact Hin|]. apply sameIdentity_eq. exact Hsame.
  - intros [w [Hin Hid]].
    assert (Hin' : In w (filter (fun w => sameIdentity target (getIdentity st w)) l)).
    { apply filter_In. split; [exact Hin|]. apply sameIdentity_eq. exact Hid. }
    destruct (filter _ l); [contradiction|simpl; lia].
Qed.

Section Explode.

Variable distance : Rectangle.t -> Rectangle.t -> MeasureResult.t.

Lemma explodeGroup_exploded (st : State) (target : WindowIdentity.t) (g : gid) :
  Explodable st target g ->
  1 < group_length st g ->
  Exploded st g (group_windows st g)
    (map (calculateOffset distance st) (group_windows st g))
    (explodeGroup distance target st).
Proof.
  intros [HOK Hreg Hnd Hback Hmem Huniq] Hlen.
  unfold explodeGroup.
  rewrite (find_unique _ (groups st) g Hreg).
  - apply Nat.ltb_lt in Hlen. rewrite Hlen.
    destruct HOK as [Hndg Hfr Hw _].
    unfold group_length, SnapGroup.length in Hlen. apply Nat.ltb_lt in Hlen.
    fold (group_windows st g) in Hlen.
    destruct (group_windows st g) as [|w r] eqn:Hws; [simpl in Hlen; lia|].
    apply explode_loop; auto.
    rewrite length_map. reflexivity.
  - apply holds_identity. exact Hmem.
  - intros g' Hin' Hhold. apply holds_identity in Hhold.
    destruct Hhold as [w' [Hw' Hid]]. eapply Huniq; eauto.
Qed.

Lemma explodeGroup_member_state (st : State) (target : WindowIdentity.t) (g : gid) :
  Explodable st target g ->
  1 < group_length st g ->
  forall w, In w (group_windows st g) ->
  getState (explodeGroup distance target st) w
  = movedBy (explodeDelta (calculateOffset distance st w)) (getState st w).
Proof.
  intros Hx Hlen w Hin.
  pose proof (explodeGroup_exploded st target g Hx Hlen) as HE.
  destruct (In_nth_error _ _ Hin) as [i Hi].
  pose proof (map_nth_error (calculateOffset distance st) i _ Hi) as Hoff.
  destruct (expl_member _ _ _ _ _ HE i w _ Hi Hoff) as (Hwo & _).
  unfold getState. rewrite Hwo. reflexivity.
Qed.

End Explode.

(** ** Numbers *)

Lemma Math_sign_cases (q : Q) :
  (Math_sign q = 1%Q /\ (0 < q)%Q)
  \/ (Math_sign q = 0%Q /\ (q == 0)%Q)
  \/ (Math_sign q = (-1)%Q /\ (q < 0)%Q).
Proof.
  destruct q as [[|p|p] d]; unfold Math_sign, Qlt, Qeq; simpl.
  - right. left. split; reflexivity.
  - left. split; [reflexivity|lia].
  - right. right. split; [reflexivity|lia].
Qed.

Lemma Math_sign_gated (a b : Q) :
  Math_sign (a * Math_abs b) = if Qeq_bool b 0 then 0%Q else Math_sign a.
Proof.
  destruct a as [na da], b as [[|pb|pb] db];
    unfold Math_sign, Math_abs, Qeq_bool, Qmult, Qabs; simpl;
    rewrite ?Z.mul_0_r; try reflexivity;
    destruct na; reflexivity.
Qed.

Lemma truthy_false (q : Q) : truthy q = false <-> (q == 0)%Q.
Proof.
  unfold truthy. rewrite negb_false_iff. apply Qeq_bool_iff.
Qed.

Lemma truthy_true (q : Q) : truthy q = true <-> ~ (q == 0)%Q.
Proof.
  unfold truthy. rewrite negb_true_iff. split.
  - intros H. apply Qeq_bool_neq. exact H.
  - intros H. destruct (Qeq_bool q 0) eqn:E; [|reflexivity].
    apply Qeq_bool_iff in E. contradiction.
Qed.

(** The sign [undock] uses: that of the offset, a zero offset counting as positive. *)
Lemma undock_sign (q : Q) :
  ((0 <= q)%Q /\ Math_sign (if truthy q then q else 1%Q) = 1%Q)
  \/ ((q < 0)%Q /\ Math_sign (if truthy q then q else 1%Q) = (-1)%Q).
Proof.
  destruct (truthy q) eqn:Ht.
  - apply truthy_true in Ht.
    destruct (Math_sign_cases q) as [[Hs Hq]|[[Hs Hq]|[Hs Hq]]].
    + left. split; [apply Qlt_le_weak; exact Hq|exact Hs].
    + contradiction.
    + right. split; assumption.
  - apply truthy_false in Ht. left. split; [rewrite Ht; apply Qle_refl|reflexivity].
Qed.

Lemma Qltb_lt (a b : Q) : Qltb a b = true <-> (a < b)%Q.
Proof.
  unfold Qltb. rewrite negb_true_iff. split.
  - intros H. apply Qnot_le_lt. intros Hle. apply Qle_bool_iff in Hle. congruence.
  - intros H. destruct (Qle_bool b a) eqn:E; [|reflexivity].
    apply Qle_bool_iff in E. exfalso. exact (Qlt_not_le _ _ H E).
Qed.

Lemma repels_spec (d : MeasureResult.t) :
  repels d = true <-> (MeasureResult.minAbs d == 0)%Q /\ (MeasureResult.min d < 0)%Q.
Proof.
  unfold repels. rewrite andb_true_iff, Qeq_bool_iff, Qltb_lt. reflexivity.
Qed.

(** ** What the group methods leave alone *)

Lemma removeGroup_wobj (g : gid) (st : State) : wobj (removeGroup g st) = wobj st.
Proof. unfold removeGroup. destruct (_ && _); reflexivity. Qed.

Lemma removeGroup_group_windows (g g' : gid) (st : State) :
  group_windows (removeGroup g st) g' = group_windows st g'.
Proof.
  unfold removeGroup. destruct (_ && _); [|reflexivity].
  unfold group_windows. simpl. unfold upd.
  destruct (Nat.eqb_spec g' g) as [->|]; reflexivity.
Qed.

Lemma emit_onWindowRemoved_wobj (g : gid) (w : wid) (st : State) :
  wobj (emit_onWindowRemoved g w st) = wobj st.
Proof.
  unfold emit_onWindowRemoved, onWindowRemovedFromGroup, sendWindowRemovedMessage.
  destruct (SnapGroup.onWindowRemoved _); [|reflexivity].
  destruct (Nat.eqb _ _); simpl; [apply removeGroup_wobj|reflexivity].
Qed.

Lemma emit_onWindowRemoved_group_windows (g g' : gid) (w : wid) (st : State) :
  group_windows (emit_onWindowRemoved g w st) g' = group_windows st g'.
Proof.
  unfold emit_onWindowRemoved, onWindowRemovedFromGroup, sendWindowRemovedMessage.
  destruct (SnapGroup.onWindowRemoved _); [|reflexivity].
  destruct (Nat.eqb _ _); [|reflexivity].
  change (group_windows (emit (WindowRemoved g w) (removeGroup g st)) g')
    with (group_windows (removeGroup g st) g').
  apply removeGroup_group_windows.
Qed.

Lemma group_removeWindow_wobj (g : gid) (w : wid) (st : State) :
  wobj (group_removeWindow g w st) = wobj st.
Proof.
  unfold group_removeWindow. destruct (existsb _ _); [|reflexivity].
  rewrite emit_onWindowRemoved_wobj. reflexivity.
Qed.

Lemma group_removeWindow_group_windows (g g' : gid) (w : wid) (st : State) :
  group_windows (group_removeWindow g w st) g'
  = if Nat.eqb g' g then drop1 w (group_windows st g) else group_windows st g'.
Proof.
  unfold group_removeWindow.
  destruct (existsb (Nat.eqb w) (group_windows st g)) eqn:Hex.
  - rewrite emit_onWindowRemoved_group_windows.
    unfold group_windows. simpl. unfold upd.
    destruct (Nat.eqb g' g); reflexivity.
  - destruct (Nat.eqb_spec g' g) as [->|]; [|reflexivity].
    symmetry. apply drop1_absent. intros Hin.
    apply existsb_eqb_In in Hin. congruence.
Qed.

Lemma group_addWindow_wobj (g : gid) (w : wid) (st : State) :
  wobj (group_addWindow g w st) = wobj st.
Proof. apply (group_addWindow_fields g w st). Qed.

Lemma group_addWindow_group_windows (g g' : gid) (w : wid) (st : State) :
  group_windows (group_addWindow g w st) g'
  = if Nat.eqb g' g then group_windows st g ++ [w] else group_windows st g'.
Proof.
  destruct (group_addWindow_fields g w st) as (_ & _ & _ & _ & _ & _ & _ & Hg & _ & Ho).
  destruct (Nat.eqb_spec g' g) as [->|Hne]; [exact Hg|].
  unfold group_windows. rewrite Ho by exact Hne. reflexivity.
Qed.

(** ** [setGroup] on the window store and on the member lists *)

Lemma setGroup_wobj_same (w : wid) (g : gid) (o h : option Point.t) (st : State) :
  wobj (setGroup w g o h st) w
  = SnapWindow.mk (getIdentity st w) (applyDelta o h (getState st w)) g
      (SnapWindow.onClose (wobj st w)).
Proof.
  unfold setGroup. rewrite group_addWindow_wobj, group_removeWindow_wobj.
  simpl. apply upd_same.
Qed.

Lemma setGroup_wobj_other (w w' : wid) (g : gid) (o h : option Point.t) (st : State) :
  w' <> w -> wobj (setGroup w g o h st) w' = wobj st w'.
Proof.
  intros Hne. unfold setGroup. rewrite group_addWindow_wobj, group_removeWindow_wobj.
  simpl. apply upd_other. exact Hne.
Qed.

Lemma setGroup_joins (w : wid) (g : gid) (o h : option Point.t) (st : State) :
  In w (group_windows (setGroup w g o h st) g).
Proof.
  unfold setGroup. rewrite group_addWindow_group_windows, Nat.eqb_refl.
  apply in_or_app. right. left. reflexivity.
Qed.

Lemma setGroup_keeps (w x : wid) (g g' : gid) (o h : option Point.t) (st : State) :
  x <> w -> In x (group_windows st g') ->
  In x (group_windows (setGroup w g o h st) g').
Proof.
  intros Hne Hin. unfold setGroup.
  set (st1 := set_wobj w _ st).
  assert (Hin1 : In x (group_windows (group_removeWindow (SnapWindow.group (wobj st w)) w st1) g')).
  { rewrite group_removeWindow_group_windows.
    destruct (Nat.eqb_spec g' (SnapWindow.group (wobj st w))) as [<-|_].
    - apply drop1_keeps; assumption.
    - exact Hin. }
  rewrite group_addWindow_group_windows.
  destruct (Nat.eqb_spec g' g) as [<-|_]; [|exact Hin1].
  apply in_or_app. left. exact Hin1.
Qed.

Lemma removeGroup_windows (g : gid) (st : State) : windows (removeGroup g st) = windows st.
Proof. unfold removeGroup. destruct (_ && _); reflexivity. Qed.

Lemma group_removeWindow_windows (g : gid) (w : wid) (st : State) :
  windows (group_removeWindow g w st) = windows st.
Proof.
  unfold group_removeWindow. destruct (existsb _ _); [|reflexivity].
  unfold emit_onWindowRemoved, onWindowRemovedFromGroup, sendWindowRemovedMessage.
  destruct (SnapGroup.onWindowRemoved _); [|reflexivity].
  destruct (Nat.eqb _ _); [|reflexivity].
  simpl. rewrite removeGroup_windows. reflexivity.
Qed.

Lemma setGroup_windows (w : wid) (g : gid) (o h : option Point.t) (st : State) :
  windows (setGroup w g o h st) = windows st.
Proof.
  unfold setGroup. rewrite (proj1 (proj2 (group_addWindow_fields _ _ _))).
  rewrite group_removeWindow_windows. reflexivity.
Qed.

(** ** [undock] *)

Section Undock.

Variable distance : Rectangle.t -> Rectangle.t -> MeasureResult.t.

Lemma undock_finds (st : State) (w : wid) :
  In w (windows st) ->
  (forall w', In w' (windows st) -> getIdentity st w' = getIdentity st w -> w' = w) ->
  find (fun w' => sameIdentity (getIdentity st w) (getIdentity st w')) (windows st)
  = Some w.
Proof.
  intros Hin Huniq. apply find_unique; [exact Hin|apply sameIdentity_eq; reflexivity|].
  intros w' Hin' Hsame. apply Huniq; [exact Hin'|]. apply sameIdentity_eq. exact Hsame.
Qed.

Lemma undock_moves (st : State) (w : wid) :
  In w (windows st) ->
  (forall w', In w' (windows st) -> getIdentity st w' = getIdentity st w -> w' = w) ->
  getState (undock distance (getIdentity st w) st) w
  = movedBy (undockDelta (calculateOffset distance st w)) (getState st w).
Proof.
  intros Hin Huniq. unfold undock. rewrite (undock_finds st w Hin Huniq).
  destruct (addGroup st) as [n st1] eqn:Hadd.
  assert (Hw1 : wobj st1 = wobj st).
  { unfold addGroup in Hadd. injection Hadd as _ <-. reflexivity. }
  unfold emit_onModified, validateGroup.
  match goal with |- getState (if ?c then ?s else ?s) _ = _ =>
    replace (if c then s else s) with s by (destruct c; reflexivity) end.
  unfold offsetBy, getState. simpl. rewrite upd_same. simpl.
  rewrite setGroup_wobj_same. simpl. unfold getState. rewrite Hw1.
  reflexivity.
Qed.

Lemma undock_unknown (st : State) (target : WindowIdentity.t) :
  (forall w, In w (windows st) -> getIdentity st w <> target) ->
  undock distance target st = st.
Proof.
  intros Hnone. unfold undock.
  destruct (find _ (windows st)) as [w|] eqn:Hf; [|reflexivity].
  apply find_some in Hf. destruct Hf as [Hin Hsame].
  apply sameIdentity_eq in Hsame. exfalso. exact (Hnone w Hin Hsame).
Qed.

Lemma explodeGroup_noop (st : State) (target : WindowIdentity.t) :
  (forall g, In g (groups st) ->
             (exists w, In w (group_windows st g) /\ getIdentity st w = target) ->
             group_length st g <= 1) ->
  explodeGroup distance target st = st.
Proof.
  intros Hsmall. unfold explodeGroup.
  destruct (find _ (groups st)) as [g|] eqn:Hf; [|reflexivity].
  apply find_some in Hf. destruct Hf as [Hin Hhold].
  apply holds_identity in Hhold. specialize (Hsmall g Hin Hhold).
  destruct (Nat.ltb_spec 1 (group_length st g)); [lia|reflexivity].
Qed.

End Undock.

(** ** The commit loop *)

Lemma applyOne_setGroup (t : SnapTarget.t) (st : State) (w : wid) :
  applyOne t st w
  = setGroup w (SnapTarget.group t) (Some (SnapTarget.snapOffset t)) (halfSizeFor t w) st.
Proof.
  unfold applyOne, halfSizeFor.
  destruct (SnapTarget.halfSize t); [destruct (Nat.eqb _ _)|]; try reflexivity.
  destruct (Nat.eqb _ _); reflexivity.
Qed.

Lemma commit_loop_other (t : SnapTarget.t) (l : list wid) :
  forall (st : State) (w : wid) (g' : gid),
  ~ In w l ->
  wobj (fold_left (applyOne t) l st) w = wobj st w
  /\ (In w (group_windows st g') ->
      In w (group_windows (fold_left (applyOne t) l st) g')).
Proof.
  induction l as [|h l IH]; intros st w g' Hnin; simpl; [auto|].
  assert (Hne : w <> h) by (intros ->; apply Hnin; left; reflexivity).
  assert (Hnin' : ~ In w l) by (intros Hin; apply Hnin; right; exact Hin).
  destruct (IH (applyOne t st h) w g' Hnin') as [Hw Hmem].
  rewrite applyOne_setGroup in *. split.
  - rewrite Hw. apply setGroup_wobj_other. exact Hne.
  - intros Hin. apply Hmem. apply setGroup_keeps; assumption.
Qed.

Lemma commit_loop_member (t : SnapTarget.t) (l : list wid) :
  forall (st : State) (w : wid),
  NoDup l -> In w l ->
  wobj (fold_left (applyOne t) l st) w
  = SnapWindow.mk (getIdentity st w)
      (applyDelta (Some (SnapTarget.snapOffset t)) (halfSizeFor t w) (getState st w))
      (SnapTarget.group t) (SnapWindow.onClose (wobj st w))
  /\ In w (group_windows (fold_left (applyOne t) l st) (SnapTarget.group t)).
Proof.
  induction l as [|h l IH]; intros st w Hnd Hin; simpl; [contradiction|].
  inversion Hnd as [|? ? Hhnin Hnd']; subst.
  destruct Hin as [->|Hin].
  - destruct (commit_loop_other t l (applyOne t st w) w (SnapTarget.group t) Hhnin)
      as [Hw Hmem].
    rewrite applyOne_setGroup in *. split.
    + rewrite Hw. apply setGroup_wobj_same.
    + apply Hmem. apply setGroup_joins.
  - assert (Hne : w <> h) by (intros ->; contradiction).
    destruct (IH (applyOne t st h) w Hnd' Hin) as [Hw Hmem].
    split; [|exact Hmem].
    rewrite Hw. rewrite applyOne_setGroup.
    unfold getIdentity, getState.
    rewrite (setGroup_wobj_other h w _ _ _ st Hne). reflexivity.
Qed.

(** ** [calculateOffset] *)

Section Offset.

Variable distance : Rectangle.t -> Rectangle.t -> MeasureResult.t.

Lemma accumulate_push (st : State) (w o : wid) (acc : Point.t) :
  accumulate distance st w acc o
  = if negb (Nat.eqb o w) && repels (distance (getState st w) (getState st o))
    then translate acc (push distance st w o) else acc.
Proof.
  unfold accumulate. destruct (negb (Nat.eqb o w)); [|reflexivity].
  simpl. destruct (repels _); reflexivity.
Qed.

Lemma accumulate_fold (st : State) (w : wid) (l : list wid) :
  forall acc,
  fold_left (accumulate distance st w) l acc
  = fold_left translate
      (map (push distance st w)
         (filter (fun o => negb (Nat.eqb o w)
                           && repels (distance (getState st w) (getState st o))) l))
      acc.
Proof.
  induction l as [|o l IH]; intros acc; simpl; [reflexivity|].
  rewrite accumulate_push.
  destruct (negb (Nat.eqb o w) && repels _); simpl; apply IH.
Qed.

Lemma calculateOffset_pushes (st : State) (w : wid) :
  calculateOffset distance st w
  = fold_left translate (map (push distance st w) (repelling distance st w))
      (Point.mk 0 0).
Proof. unfold calculateOffset, repelling. apply accumulate_fold. Qed.

Lemma calculateOffset_calm (st : State) (w : wid) :
  (forall o, In o (group_windows st (getGroup st w)) -> o <> w ->
             repels (distance (getState st w) (getState st o)) = false) ->
  calculateOffset distance st w = Point.mk 0 0.
Proof.
  intros Hcalm. rewrite calculateOffset_pushes. unfold repelling.
  replace (filter _ (group_windows st (getGroup st w))) with (@nil wid); [reflexivity|].
  symmetry. induction (group_windows st (getGroup st w)) as [|o l IH]; [reflexivity|].
  simpl. destruct (Nat.eqb_spec o w) as [->|Hne]; simpl.
  - apply IH. intros o' Hin. apply Hcalm. right. exact Hin.
  - rewrite (Hcalm o (or_introl eq_refl) Hne).
    apply IH. intros o' Hin. apply Hcalm. right. exact Hin.
Qed.

Lemma push_gated (st : State) (w o : wid) :
  let d := distance (getState st w) (getState st o) in
  Point.x (push distance st w o)
  = (if Qeq_bool (MeasureResult.y d) 0 then 0%Q
     else Math_sign (Point.x (Rectangle.center (getState st w))
                     - Point.x (Rectangle.center (getState st o)))%Q)
  /\ Point.y (push distance st w o)
     = (if Qeq_bool (MeasureResult.x d) 0 then 0%Q
        else Math_sign (Point.y (Rectangle.center (getState st w))
                        - Point.y (Rectangle.center (getState st o)))%Q).
Proof. unfold push. simpl. split; apply Math_sign_gated. Qed.

End Offset.

(** ** Explode displacements *)

Lemma explodeDelta_zero_x (off : Point.t) :
  (Point.x off == 0)%Q -> (Point.x (explodeDelta off) == 0)%Q.
Proof.
  intros Hz. unfold explodeDelta. simpl.
  destruct (Math_sign_cases (Point.x off)) as [[_ Hq]|[[-> _]|[_ Hq]]].
  - rewrite Hz in Hq. exfalso. exact (Qlt_irrefl _ Hq).
  - reflexivity.
  - rewrite Hz in Hq. exfalso. exact (Qlt_irrefl _ Hq).
Qed.

Lemma explodeDelta_zero_y (off : Point.t) :
  (Point.y off == 0)%Q -> (Point.y (explodeDelta off) == 0)%Q.
Proof.
  intros Hz. unfold explodeDelta. simpl.
  destruct (Math_sign_cases (Point.y off)) as [[_ Hq]|[[-> _]|[_ Hq]]].
  - rewrite Hz in Hq. exfalso. exact (Qlt_irrefl _ Hq).
  - reflexivity.
  - rewrite Hz in Hq. exfalso. exact (Qlt_irrefl _ Hq).
Qed.

(** ** The preview windows *)

Section PreviewFacts.

Variable Scope : Type.
Variable deepEqual : Scope -> Scope -> bool.
Variable query : Scope -> Preview.PreviewType -> Preview.Validity -> Preview.Overlay.

Lemma sameKey_refl (k : Preview.PreviewType * Preview.Validity) :
  Preview.sameKey k k = true.
Proof. destruct k as [[|] [|]]; reflexivity. Qed.

Lemma updateWindow_same (ty : Preview.PreviewType) (v : Preview.Validity)
    (f : Preview.PreviewWindowData -> Preview.PreviewWindowData) (p : Preview.t Scope) :
  Preview.previewWindows (Preview.updateWindow (ty, v) f p) ty v
  = f (Preview.previewWindows p ty v).
Proof.
  unfold Preview.updateWindow. cbn [Preview.previewWindows].
  rewrite sameKey_refl. reflexivity.
Qed.

Lemma updateWindow_other (ty : Preview.PreviewType) (v : Preview.Validity)
    (k : Preview.PreviewType * Preview.Validity)
    (f : Preview.PreviewWindowData -> Preview.PreviewWindowData) (p : Preview.t Scope) :
  Preview.sameKey (ty, v) k = false ->
  Preview.previewWindows (Preview.updateWindow k f p) ty v = Preview.previewWindows p ty v.
Proof.
  intros Hne. unfold Preview.updateWindow. cbn [Preview.previewWindows].
  rewrite Hne. reflexivity.
Qed.

(** Hiding the active preview leaves the bounds of every preview alone. *)
Lemma hide_bounds (ty : Preview.PreviewType) (v : Preview.Validity) (p : Preview.t Scope) :
  Preview.bounds (Preview.previewWindows (Preview.hide p) ty v)
  = Preview.bounds (Preview.previewWindows p ty v).
Proof.
  unfold Preview.hide. destruct (Preview.activeWindowPreview p) as [a|]; [|reflexivity].
  unfold Preview.updateOptions, Preview.updateWindow. cbn [Preview.previewWindows].
  destruct (Preview.sameKey (ty, v) a); reflexivity.
Qed.

Lemma show_bounds (target : Preview.PreviewableTarget Scope) (p : Preview.t Scope) :
  let rect := Preview.generatePreviewRect target in
  Preview.bounds
    (Preview.previewWindows (Preview.show deepEqual query target p)
       (Preview.toLowerCase (Preview.type target))
       (if Preview.valid target then Preview.VALID else Preview.INVALID))
  = Preview.mkBounds
      (Point.x (Rectangle.center rect) - Point.x (Rectangle.halfSize rect))%Q
      (Point.y (Rectangle.center rect) - Point.y (Rectangle.halfSize rect))%Q
      (Point.x (Rectangle.halfSize rect) * 2)%Q
      (Point.y (Rectangle.halfSize rect) * 2)%Q.
Proof.
  intros rect. unfold Preview.show.
  set (ty := Preview.toLowerCase (Preview.type target)).
  set (v := if Preview.valid target then Preview.VALID else Preview.INVALID).
  set (p1 := Preview.applyScopeStyles _ _ _ p).
  set (o := Preview.opacity (Preview.previewWindows p ty v)).
  set (p3 := Preview.updateOptions (ty, v) o (Preview.positionPreview (ty, v) target p1)).
  assert (Hp3 : Preview.bounds (Preview.previewWindows p3 ty v)
                = Preview.mkBounds
                    (Point.x (Rectangle.center rect) - Point.x (Rectangle.halfSize rect))%Q
                    (Point.y (Rectangle.center rect) - Point.y (Rectangle.halfSize rect))%Q
                    (Point.x (Rectangle.halfSize rect) * 2)%Q
                    (Point.y (Rectangle.halfSize rect) * 2)%Q).
  { unfold p3, Preview.updateOptions, Preview.positionPreview.
    rewrite !updateWindow_same. reflexivity. }
  destruct (negb _); [|exact Hp3].
  cbn [Preview.previewWindows]. rewrite hide_bounds. exact Hp3.
Qed.

End PreviewFacts.

(** ** Well-formedness through the handlers *)

Lemma Consistent_weaken (P Q : gid -> Prop) (st : State) :
  (forall g, P g -> Q g) -> Consistent P st -> Consistent Q st.
Proof.
  intros HPQ [HR Hwnd Hhome Hlis Hfr Hmnd Hmh Hue Hid].
  constructor; auto. eapply RegistryOK_weaken; eauto.
Qed.

(** A registered window moves from its group to another registered group. *)
Lemma setGroup_consistent (P : gid -> Prop) (w : wid) (tg : gid)
    (o h : option Point.t) (st : State) :
  Consistent (orPending P tg) st ->
  In w (windows st) ->
  In tg (groups st) ->
  tg <> getGroup st w ->
  Consistent P (setGroup w tg o h st).
Proof.
  intros HC Hw Htg Hne.
  destruct HC as [HR Hwnd Hhome Hlis Hfr Hmnd Hmh Hue Hid].
  destruct (Hhome w Hw) as [Hprev Hmem].
  pose proof (setGroup_ok P w tg o h st HR) as HR'.
  destruct (setGroup_fields w tg o h st Hmem (reg_wired _ _ HR _ Hprev) Hprev Hne)
    as (Hwo & Hws & Hng & Hnw & Hv & Hf & Htgw & Htgwd & Hpw & Hoth & Hmore & Hlast).
  set (prev := getGroup st w) in *.
  set (st' := setGroup w tg o h st) in *.
  set (rest := drop1 w (group_windows st prev)) in *.
  assert (Hgnd : NoDup (groups st)) by exact (reg_nodup _ _ HR).
  assert (F1 : forall x, x <> w -> wobj st' x = wobj st x).
  { intros x Hx. rewrite Hwo. apply upd_other. exact Hx. }
  assert (F2 : wobj st' w = SnapWindow.mk (getIdentity st w)
                              (applyDelta o h (getState st w)) tg
                              (SnapWindow.onClose (wobj st w))).
  { rewrite Hwo. apply upd_same. }
  assert (Fid : forall x, getIdentity st' x = getIdentity st x).
  { intros x. unfold getIdentity. destruct (Nat.eq_dec x w) as [->|Hx].
    - rewrite F2. reflexivity.
    - rewrite F1 by exact Hx. reflexivity. }
  assert (Fsub : forall x, In x (groups st') -> In x (groups st)).
  { intros x Hx. destruct rest eqn:Hrest.
    - rewrite (proj1 (Hlast eq_refl)) in Hx. eapply drop1_incl; eauto.
    - rewrite (proj1 (Hmore ltac:(discriminate))) in Hx. exact Hx. }
  assert (Fkeep : forall x, In x (groups st) -> x <> prev -> In x (groups st')).
  { intros x Hx Hxp. destruct rest eqn:Hrest.
    - rewrite (proj1 (Hlast eq_refl)). apply drop1_keeps; assumption.
    - rewrite (proj1 (Hmore ltac:(discriminate))). exact Hx. }
  assert (Fprev : In prev (groups st') -> rest <> []).
  { intros Hx Hrest. rewrite (proj1 (Hlast Hrest)) in Hx.
    exact (drop1_gone prev _ Hgnd Hx). }
  assert (Fprev' : rest <> [] -> In prev (groups st')).
  { intros Hrest. rewrite (proj1 (Hmore Hrest)). exact Hprev. }
  assert (Fother : forall x, x <> prev -> x <> tg ->
                             group_windows st' x = group_windows st x).
  { intros x Hxp Hxt. unfold group_windows. rewrite Hoth by assumption. reflexivity. }
  assert (Hwtg : ~ In w (group_windows st tg)).
  { intros Hin. destruct (Hmh tg w Htg Hin) as [_ Hback]. apply Hne. symmetry. exact Hback. }
  assert (Hrest_in : forall x, In x rest -> In x (group_windows st prev) /\ x <> w).
  { intros x Hx. split; [eapply drop1_incl; eauto|].
    intros ->. exact (drop1_gone w _ (Hmnd prev Hprev) Hx). }
  constructor.
  - exact HR'.
  - rewrite Hws. exact Hwnd.
  - intros x Hx. rewrite Hws in Hx. unfold getGroup.
    destruct (Nat.eq_dec x w) as [->|Hxw].
    + rewrite F2. simpl. split; [apply Fkeep; auto|].
      rewrite Htgw. apply in_or_app. right. left. reflexivity.
    + rewrite F1 by exact Hxw. fold (getGroup st x).
      destruct (Hhome x Hx) as [Hgx Hxin].
      destruct (Nat.eq_dec (getGroup st x) prev) as [Hp|Hp].
      * rewrite Hp in *. rewrite Hpw.
        assert (Hxr : In x rest) by (apply drop1_keeps; assumption).
        split; [|exact Hxr]. apply Fprev'. intros Habs. rewrite Habs in Hxr. exact Hxr.
      * split; [apply Fkeep; assumption|].
        destruct (Nat.eq_dec (getGroup st x) tg) as [Ht|Ht].
        -- rewrite Ht in *. rewrite Htgw. apply in_or_app. left. exact Hxin.
        -- rewrite Fother by assumption. exact Hxin.
  - intros x Hx. rewrite Hws in Hx. destruct (Nat.eq_dec x w) as [->|Hxw].
    + rewrite F2. simpl. apply Hlis. exact Hx.
    + rewrite F1 by exact Hxw. apply Hlis. exact Hx.
  - intros x Hx. rewrite Hws in Hx. rewrite Hnw. apply Hfr. exact Hx.
  - intros g Hg. destruct (Nat.eq_dec g prev) as [->|Hgp].
    + rewrite Hpw. apply drop1_NoDup. apply Hmnd. exact Hprev.
    + destruct (Nat.eq_dec g tg) as [->|Hgt].
      * rewrite Htgw. apply NoDup_app; [apply Hmnd; exact Htg|repeat constructor; simpl; tauto|].
        intros x Hx [<-|[]]. exact (Hwtg Hx).
      * rewrite Fother by assumption. apply Hmnd. apply Fsub. exact Hg.
  - intros g x Hg Hx. rewrite Hws. unfold getGroup.
    destruct (Nat.eq_dec g prev) as [->|Hgp].
    + rewrite Hpw in Hx. destruct (Hrest_in x Hx) as [Hxin Hxw].
      rewrite F1 by exact Hxw. exact (Hmh prev x Hprev Hxin).
    + destruct (Nat.eq_dec g tg) as [->|Hgt].
      * rewrite Htgw in Hx. apply in_app_or in Hx. destruct Hx as [Hx|[<-|[]]].
        -- assert (Hxw : x <> w) by (intros ->; exact (Hwtg Hx)).
           rewrite F1 by exact Hxw. exact (Hmh tg x Htg Hx).
        -- rewrite F2. simpl. split; [exact Hw|reflexivity].
      * rewrite Fother in Hx by assumption.
        destruct (Hmh g x (Fsub g Hg) Hx) as [Hxw Hxg].
        assert (Hne' : x <> w) by (intros ->; apply Hgp; symmetry; exact Hxg).
        rewrite F1 by exact Hne'. split; assumption.
  - intros g Hg. destruct (Nat.eq_dec g prev) as [->|Hgp].
    + rewrite Hpw. destruct rest eqn:Hrest; [reflexivity|].
      exfalso. apply Hg. apply Fprev'. discriminate.
    + destruct (Nat.eq_dec g tg) as [->|Hgt].
      * exfalso. apply Hg. apply Fkeep; auto.
      * rewrite Fother by assumption. apply Hue. intros Hin. apply Hg. apply Fkeep; assumption.
  - intros x x' Hx Hx'. rewrite Hws in Hx, Hx'. rewrite !Fid. apply Hid; assumption.
Qed.

(** States that differ in rectangles, view, flag and log only. *)
Lemma Consistent_same (P : gid -> Prop) (st st' : State) :
  groups st' = groups st -> gobj st' = gobj st -> nextGroup st' = nextGroup st ->
  windows st' = windows st -> nextWindow st' = nextWindow st ->
  (forall w, SnapWindow.identity (wobj st' w) = SnapWindow.identity (wobj st w)
             /\ SnapWindow.group (wobj st' w) = SnapWindow.group (wobj st w)
             /\ SnapWindow.onClose (wobj st' w) = SnapWindow.onClose (wobj st w)) ->
  Consistent P st -> Consistent P st'.
Proof.
  intros Hg Ho Hn Hw Hnw Hobj [HR Hwnd Hhome Hlis Hfr Hmnd Hmh Hue Hid].
  assert (Hgrp : forall w, getGroup st' w = getGroup st w) by (intros w; apply Hobj).
  assert (Hidn : forall w, getIdentity st' w = getIdentity st w) by (intros w; apply Hobj).
  assert (Hcl : forall w, SnapWindow.onClose (wobj st' w) = SnapWindow.onClose (wobj st w))
    by (intros w; apply Hobj).
  assert (Hgw : forall g, group_windows st' g = group_windows st g)
    by (intros g; unfold group_windows; rewrite Ho; reflexivity).
  constructor.
  - eapply RegistryOK_same; eauto.
  - rewrite Hw. exact Hwnd.
  - intros w Hin. rewrite Hw in Hin. rewrite Hgrp, Hg, Hgw. auto.
  - intros w Hin. rewrite Hw in Hin. rewrite Hcl. auto.
  - intros w Hin. rewrite Hw in Hin. rewrite Hnw. auto.
  - intros g Hin. rewrite Hg in Hin. rewrite Hgw. auto.
  - intros g w Hin Hm. rewrite Hg in Hin. rewrite Hgw in Hm. rewrite Hw, Hgrp. auto.
  - intros g Hin. rewrite Hg in Hin. rewrite Hgw. auto.
  - intros w w' Hin Hin'. rewrite Hw in Hin, Hin'. rewrite !Hidn. auto.
Qed.

Lemma addGroup_consistent (P : gid -> Prop) (st : State) :
  Consistent P st ->
  Consistent (orPending P (nextGroup st)) (snd (addGroup st)).
Proof.
  intros [HR Hwnd Hhome Hlis Hfr Hmnd Hmh Hue Hid].
  pose proof (addGroup_ok P st HR) as HR'.
  assert (Hfresh : forall g, In g (groups st) -> g <> nextGroup st).
  { intros g Hin. apply (reg_fresh _ _ HR) in Hin. lia. }
  unfold addGroup in *. simpl in *.
  assert (Hgw : forall g, g <> nextGroup st ->
            group_windows
              (set_groups (groups st ++ [nextGroup st])
                 (set_gobj (nextGroup st) (SnapGroup.mk [] true true true true true)
                    (set_nextGroup (S (nextGroup st)) st))) g
            = group_windows st g).
  { intros g Hg. unfold group_windows. simpl. rewrite upd_other by exact Hg. reflexivity. }
  assert (Hgn : group_windows
              (set_groups (groups st ++ [nextGroup st])
                 (set_gobj (nextGroup st) (SnapGroup.mk [] true true true true true)
                    (set_nextGroup (S (nextGroup st)) st))) (nextGroup st) = []).
  { unfold group_windows. simpl. rewrite upd_same. reflexivity. }
  constructor; auto.
  - intros w Hin. destruct (Hhome w Hin) as [Hg Hm].
    change (In (getGroup st w) (groups st ++ [nextGroup st])
            /\ In w (group_windows
                 (set_groups (groups st ++ [nextGroup st])
                    (set_gobj (nextGroup st) (SnapGroup.mk [] true true true true true)
                       (set_nextGroup (S (nextGroup st)) st))) (getGroup st w))).
    rewrite Hgw by (apply Hfresh; exact Hg).
    split; [apply in_or_app; left; exact Hg|exact Hm].
  - intros g Hin. simpl in Hin. apply in_app_or in Hin. destruct Hin as [Hin|[<-|[]]].
    + rewrite Hgw by (apply Hfresh; exact Hin). auto.
    + rewrite Hgn. constructor.
  - intros g w Hin Hm. simpl in Hin. apply in_app_or in Hin. destruct Hin as [Hin|[<-|[]]].
    + rewrite Hgw in Hm by (apply Hfresh; exact Hin). exact (Hmh g w Hin Hm).
    + rewrite Hgn in Hm. contradiction.
  - intros g Hnin. simpl in Hnin.
    assert (Hg : g <> nextGroup st).
    { intros ->. apply Hnin. apply in_or_app. right. left. reflexivity. }
    rewrite Hgw by exact Hg. apply Hue. intros Hin. apply Hnin. apply in_or_app. left. exact Hin.
Qed.

Lemma offsetBy_consistent (P : gid -> Prop) (w : wid) (d : Point.t) (st : State) :
  Consistent P st -> Consistent P (offsetBy w d st).
Proof.
  apply Consistent_same; try reflexivity.
  intros x. unfold offsetBy. simpl. unfold upd.
  destruct (Nat.eqb_spec x w) as [->|]; simpl; auto.
Qed.

(** A registered window leaves its group for a group of its own. *)
Lemma isolate_consistent (w : wid) (st : State) :
  WellFormed st -> In w (windows st) ->
  WellFormed (setGroup w (nextGroup st) None None (snd (addGroup st)))
  /\ windows (setGroup w (nextGroup st) None None (snd (addGroup st))) = windows st.
Proof.
  intros HC Hw.
  pose proof (addGroup_consistent nonePending st HC) as HC1.
  assert (Hhome : In (getGroup st w) (groups st)) by (apply (wf_window_home _ _ HC); exact Hw).
  apply (reg_fresh _ _ (wf_registry _ _ HC)) in Hhome.
  split.
  - apply setGroup_consistent.
    + exact HC1.
    + exact Hw.
    + simpl. apply in_or_app. right. left. reflexivity.
    + change (nextGroup st <> getGroup st w). lia.
  - rewrite setGroup_windows. reflexivity.
Qed.

(** ** Well-formedness through the service *)

Section WellFormedService.

Variable distance : Rectangle.t -> Rectangle.t -> MeasureResult.t.
Variable getSnapTarget : State -> list gid -> gid -> option SnapTarget.t.

Lemma explodeOne_unfold (st : State) (w : wid) (off : Point.t) :
  explodeOne st (w, off)
  = offsetBy w (explodeDelta off)
      (setGroup w (nextGroup st) None None (snd (addGroup st))).
Proof. reflexivity. Qed.

Lemma explodeOne_wf (st : State) (w : wid) (off : Point.t) :
  WellFormed st -> In w (windows st) ->
  WellFormed (explodeOne st (w, off))
  /\ windows (explodeOne st (w, off)) = windows st.
Proof.
  intros HC Hw. rewrite explodeOne_unfold.
  destruct (isolate_consistent w st HC Hw) as [HC' Hws].
  split; [apply offsetBy_consistent; exact HC'|exact Hws].
Qed.

Lemma undock_wf (target : WindowIdentity.t) (st : State) :
  WellFormed st -> WellFormed (undock distance target st).
Proof.
  intros HC. unfold undock.
  destruct (find _ (windows st)) as [w|] eqn:Hf; [|exact HC].
  apply find_some in Hf. destruct Hf as [Hw _].
  change (addGroup st) with (nextGroup st, snd (addGroup st)). cbv iota beta.
  unfold emit_onModified, validateGroup.
  match goal with |- WellFormed (if ?c then ?s else ?s) =>
    replace (if c then s else s) with s by (destruct c; reflexivity) end.
  apply offsetBy_consistent. apply isolate_consistent; assumption.
Qed.

Lemma explode_loop_wf (l : list (wid * Point.t)) :
  forall st, WellFormed st ->
  (forall wo, In wo l -> In (fst wo) (windows st)) ->
  WellFormed (fold_left explodeOne l st).
Proof.
  induction l as [|[w off] l IH]; intros st HC Hin; cbn [fold_left]; [exact HC|].
  destruct (explodeOne_wf st w off HC (Hin (w, off) (or_introl eq_refl))) as [HC' Hws].
  apply IH; [exact HC'|].
  intros wo Hwo. rewrite Hws. apply Hin. right. exact Hwo.
Qed.

Lemma explodeGroup_wf (target : WindowIdentity.t) (st : State) :
  WellFormed st -> WellFormed (explodeGroup distance target st).
Proof.
  intros HC. unfold explodeGroup.
  destruct (find _ (groups st)) as [g|] eqn:Hf; [|exact HC].
  apply find_some in Hf. destruct Hf as [Hg _].
  destruct (Nat.ltb 1 (group_length st g)); [|exact HC].
  apply explode_loop_wf; [exact HC|].
  intros [w off] Hwo. apply in_combine_l in Hwo. simpl.
  apply (wf_member_home _ _ HC g w Hg Hwo).
Qed.

Lemma commit_loop_wf (t : SnapTarget.t) (g : gid) (l : list wid) :
  SnapTarget.group t <> g ->
  forall st, WellFormed st ->
  In (SnapTarget.group t) (groups st) ->
  NoDup l ->
  (forall w, In w l -> In w (windows st) /\ getGroup st w = g) ->
  WellFormed (fold_left (applyOne t) l st).
Proof.
  intros Hne. induction l as [|w l IH]; intros st HC Htg Hnd Hl; cbn [fold_left];
    [exact HC|].
  inversion Hnd as [|? ? Hwl Hnd']; subst.
  destruct (Hl w (or_introl eq_refl)) as [Hw Hhome].
  assert (HC' : WellFormed (applyOne t st w)).
  { rewrite applyOne_setGroup. apply setGroup_consistent.
    - eapply Consistent_weaken; [|exact HC]. intros x Hx. left. exact Hx.
    - exact Hw.
    - exact Htg.
    - rewrite Hhome. exact Hne. }
  assert (Hws : windows (applyOne t st w) = windows st)
    by (rewrite applyOne_setGroup; apply setGroup_windows).
  apply IH; [exact HC'| |exact Hnd'|].
  - assert (Hw' : In w (windows (applyOne t st w))) by (rewrite Hws; exact Hw).
    pose proof (proj1 (wf_window_home _ _ HC' w Hw')) as Hreg.
    assert (Hgrp : getGroup (applyOne t st w) w = SnapTarget.group t).
    { unfold getGroup. rewrite applyOne_setGroup, setGroup_wobj_same. reflexivity. }
    rewrite Hgrp in Hreg. exact Hreg.
  - intros x Hx. rewrite Hws. destruct (Hl x (or_intror Hx)) as [Hxw Hxg].
    split; [exact Hxw|].
    assert (Hxne : x <> w) by (intros ->; contradiction).
    unfold getGroup. rewrite applyOne_setGroup.
    rewrite setGroup_wobj_other by exact Hxne. exact Hxg.
Qed.

Lemma applySnapTarget_wf (g : gid) (st : State) :
  WellFormed st -> expected getSnapTarget st (GroupCommit g) ->
  WellFormed (applySnapTarget getSnapTarget g st).
Proof.
  intros HC [Hg Hres]. unfold applySnapTarget, view_update.
  match goal with |- WellFormed (set_view _ ?s) =>
    apply Consistent_same with (st := s); try reflexivity; [intros; auto|] end.
  destruct (getSnapTarget st (groups st) g) as [t|]; [|exact HC].
  destruct (_ && _); [|exact HC].
  destruct (Hres t eq_refl) as [Htg Hne].
  apply (commit_loop_wf t g); auto.
  - apply (wf_members_nodup _ _ HC). exact Hg.
  - intros w Hw. apply (wf_member_home _ _ HC g w Hg Hw).
Qed.

Lemma addWindow_wf (identity : WindowIdentity.t) (state : WindowState) (st : State) :
  WellFormed st ->
  (forall w, In w (windows st) -> getIdentity st w <> identity) ->
  WellFormed (snd (addWindow identity state st)).
Proof.
  intros HC Hnew.
  pose proof (addWindow_ok identity state st (wf_registry _ _ HC)) as HR'.
  destruct HC as [HR Hwnd Hhome Hlis Hfr Hmnd Hmh Hue Hid].
  set (st' := snd (addWindow identity state st)) in *.
  set (n := nextGroup st). set (w0 := nextWindow st).
  assert (Hfresh : forall g, In g (groups st) -> g <> n).
  { intros g Hin. apply (reg_fresh _ _ HR) in Hin. unfold n. lia. }
  assert (Hwfresh : forall w, In w (windows st) -> w <> w0).
  { intros w Hin. apply Hfr in Hin. unfold w0. lia. }
  set (st1 := set_wobj w0 (SnapWindow.mk identity state n false)
                (set_nextWindow (S w0) (snd (addGroup st)))).
  destruct (group_addWindow_fields n w0 st1)
    as (Hwo & Hws & Hng & Hnw & Hv & Hf & Hgs & Hgw & _ & Hoth).
  set (st2 := group_addWindow n w0 st1) in *.
  assert (Est : st' = set_windows (windows st2 ++ [w0])
                        (set_wobj w0
                           (SnapWindow.mk (SnapWindow.identity (wobj st2 w0))
                              (SnapWindow.state (wobj st2 w0))
                              (SnapWindow.group (wobj st2 w0)) true) st2))
    by reflexivity.
  assert (Ews : windows st' = windows st ++ [w0]).
  { rewrite Est. simpl. rewrite Hws. reflexivity. }
  assert (Egs : groups st' = groups st ++ [n]).
  { rewrite Est. simpl. rewrite Hgs. reflexivity. }
  assert (Enw : nextWindow st' = S w0).
  { rewrite Est. simpl. rewrite Hnw. reflexivity. }
  assert (Ew0 : wobj st' w0 = SnapWindow.mk identity state n true).
  { rewrite Est. simpl. rewrite upd_same, Hwo. unfold st1. simpl.
    rewrite upd_same. reflexivity. }
  assert (Ewo : forall x, x <> w0 -> wobj st' x = wobj st x).
  { intros x Hx. rewrite Est. simpl. rewrite upd_other by exact Hx.
    rewrite Hwo. unfold st1. simpl. rewrite upd_other by exact Hx. reflexivity. }
  assert (Egn : group_windows st' n = [w0]).
  { rewrite Est. unfold group_windows in *. simpl. rewrite Hgw.
    unfold st1. simpl. rewrite upd_same. reflexivity. }
  assert (Ego : forall g, g <> n -> group_windows st' g = group_windows st g).
  { intros g Hg. rewrite Est. unfold group_windows. simpl. rewrite Hoth by exact Hg.
    unfold st1. simpl. rewrite upd_other by exact Hg. reflexivity. }
  constructor.
  - exact HR'.
  - rewrite Ews. apply NoDup_app; [exact Hwnd|repeat constructor; simpl; tauto|].
    intros x Hx [<-|[]]. exact (Hwfresh _ Hx eq_refl).
  - intros x Hx. rewrite Ews in Hx. rewrite Egs. unfold getGroup.
    apply in_app_or in Hx. destruct Hx as [Hx|[<-|[]]].
    + rewrite Ewo by (apply Hwfresh; exact Hx). fold (getGroup st x).
      destruct (Hhome x Hx) as [Hg Hm].
      rewrite Ego by (apply Hfresh; exact Hg).
      split; [apply in_or_app; left; exact Hg|exact Hm].
    + rewrite Ew0. simpl. rewrite Egn.
      split; [apply in_or_app; right|]; left; reflexivity.
  - intros x Hx. rewrite Ews in Hx. apply in_app_or in Hx. destruct Hx as [Hx|[<-|[]]].
    + rewrite Ewo by (apply Hwfresh; exact Hx). auto.
    + rewrite Ew0. reflexivity.
  - intros x Hx. rewrite Ews in Hx. rewrite Enw.
    apply in_app_or in Hx. destruct Hx as [Hx|[<-|[]]]; [apply Hfr in Hx; fold w0 in Hx|]; lia.
  - intros g Hg. rewrite Egs in Hg. apply in_app_or in Hg. destruct Hg as [Hg|[<-|[]]].
    + rewrite Ego by (apply Hfresh; exact Hg). auto.
    + rewrite Egn. repeat constructor. simpl. tauto.
  - intros g x Hg Hx. rewrite Egs in Hg. rewrite Ews. unfold getGroup.
    apply in_app_or in Hg. destruct Hg as [Hg|[<-|[]]].
    + rewrite Ego in Hx by (apply Hfresh; exact Hg).
      destruct (Hmh g x Hg Hx) as [Hxw Hxg].
      rewrite Ewo by (apply Hwfresh; exact Hxw).
      split; [apply in_or_app; left; exact Hxw|exact Hxg].
    + rewrite Egn in Hx. destruct Hx as [<-|[]]. rewrite Ew0. simpl.
      split; [apply in_or_app; right; left|]; reflexivity.
  - intros g Hg. rewrite Egs in Hg.
    assert (Hgn : g <> n) by (intros ->; apply Hg; apply in_or_app; right; left; reflexivity).
    rewrite Ego by exact Hgn. apply Hue. intros Hin. apply Hg. apply in_or_app. left. exact Hin.
  - intros x x' Hx Hx'. rewrite Ews in Hx, Hx'. unfold getIdentity.
    apply in_app_or in Hx. apply in_app_or in Hx'.
    destruct Hx as [Hx|[<-|[]]]; destruct Hx' as [Hx'|[<-|[]]].
    + rewrite !Ewo by (apply Hwfresh; assumption). apply Hid; assumption.
    + rewrite Ew0, Ewo by (apply Hwfresh; assumption). simpl.
      intros Habs. exfalso. exact (Hnew x Hx Habs).
    + rewrite Ew0, Ewo by (apply Hwfresh; assumption). simpl.
      intros Habs. exfalso. exact (Hnew x' Hx' (eq_sym Habs)).
    + reflexivity.
Qed.

Lemma windowClosed_wf (w : wid) (st : State) :
  WellFormed st -> WellFormed (windowClosed w st).
Proof.
  intros HC. unfold windowClosed.
  destruct (in_dec Nat.eq_dec w (windows st)) as [Hw|Hnw].
  - (* a registered window closes *)
    rewrite (wf_window_listened _ _ HC w Hw).
    unfold onWindowClosed, validateGroup.
    pose proof (proj2 (indexOf_found w (windows st)) Hw) as Hidx.
    destruct (Z.leb_spec 0 (indexOf w (windows st))) as [_|Hlt]; [|lia].
    rewrite (splice1_indexOf w (windows st) Hw).
    set (st1 := set_wobj w _ (set_windows (drop1 w (windows st)) st)).
    pose proof (windowClosed_ok w st (wf_registry _ _ HC)) as HR'.
    unfold windowClosed in HR'. rewrite (wf_window_listened _ _ HC w Hw) in HR'.
    unfold onWindowClosed, validateGroup in HR'.
    destruct (Z.leb_spec 0 (indexOf w (windows st))) as [_|Hlt] in HR'; [|lia].
    rewrite (splice1_indexOf w (windows st) Hw) in HR'. fold st1 in HR'.
    destruct HC as [HR Hwnd Hhome Hlis Hfr Hmnd Hmh Hue Hid].
    destruct (Hhome w Hw) as [Hprev Hmem].
    assert (Hg1 : getGroup st1 w = getGroup st w).
    { unfold getGroup, st1. simpl. rewrite upd_same. reflexivity. }
    rewrite Hg1 in *.
    set (prev := getGroup st w) in *.
    destruct (group_removeWindow_fields prev w st1 Hmem (reg_wired _ _ HR _ Hprev) Hprev)
      as (Hwo & Hws & Hng & Hnwd & Hv & Hf & Hpw & Hoth & Hmore & Hlast).
    set (st' := group_removeWindow prev w st1) in *.
    change (group_windows st1 prev) with (group_windows st prev) in *.
    set (rest := drop1 w (group_windows st prev)) in *.
    assert (Hgnd : NoDup (groups st)) by exact (reg_nodup _ _ HR).
    assert (F1 : forall x, x <> w -> wobj st' x = wobj st x).
    { intros x Hx. rewrite Hwo. unfold st1. simpl. apply upd_other. exact Hx. }
    assert (Fws : windows st' = drop1 w (windows st)) by (rewrite Hws; reflexivity).
    assert (Fin : forall x, In x (windows st') -> In x (windows st) /\ x <> w).
    { intros x Hx. rewrite Fws in Hx. split; [eapply drop1_incl; eauto|].
      intros ->. exact (drop1_gone w _ Hwnd Hx). }
    assert (Fsub : forall x, In x (groups st') -> In x (groups st)).
    { intros x Hx. destruct rest eqn:Hrest.
      - rewrite (proj1 (Hlast eq_refl)) in Hx. eapply drop1_incl; eauto.
      - rewrite (proj1 (Hmore ltac:(discriminate))) in Hx. exact Hx. }
    assert (Fkeep : forall x, In x (groups st) -> x <> prev -> In x (groups st')).
    { intros x Hx Hxp. destruct rest eqn:Hrest.
      - rewrite (proj1 (Hlast eq_refl)). apply drop1_keeps; assumption.
      - rewrite (proj1 (Hmore ltac:(discriminate))). exact Hx. }
    assert (Fprev' : rest <> [] -> In prev (groups st')).
    { intros Hrest. rewrite (proj1 (Hmore Hrest)). exact Hprev. }
    assert (Fother : forall x, x <> prev -> group_windows st' x = group_windows st x).
    { intros x Hxp. unfold group_windows. rewrite Hoth by assumption. reflexivity. }
    assert (Hrest_in : forall x, In x rest -> In x (group_windows st prev) /\ x <> w).
    { intros x Hx. split; [eapply drop1_incl; eauto|].
      intros ->. exact (drop1_gone w _ (Hmnd prev Hprev) Hx). }
    constructor.
    + exact HR'.
    + rewrite Fws. apply drop1_NoDup. exact Hwnd.
    + intros x Hx. destruct (Fin x Hx) as [Hxw Hxne]. unfold getGroup.
      rewrite F1 by exact Hxne. fold (getGroup st x).
      destruct (Hhome x Hxw) as [Hgx Hxin].
      destruct (Nat.eq_dec (getGroup st x) prev) as [Hp|Hp].
      * rewrite Hp in *. rewrite Hpw.
        assert (Hxr : In x rest) by (apply drop1_keeps; assumption).
        split; [|exact Hxr]. apply Fprev'. intros Habs. rewrite Habs in Hxr. exact Hxr.
      * split; [apply Fkeep; assumption|]. rewrite Fother by assumption. exact Hxin.
    + intros x Hx. destruct (Fin x Hx) as [Hxw Hxne]. rewrite F1 by exact Hxne. auto.
    + intros x Hx. destruct (Fin x Hx) as [Hxw Hxne]. rewrite Hnwd. unfold st1. simpl. auto.
    + intros g Hg. destruct (Nat.eq_dec g prev) as [->|Hgp].
      * rewrite Hpw. apply drop1_NoDup. auto.
      * rewrite Fother by assumption. apply Hmnd. apply Fsub. exact Hg.
    + intros g x Hg Hx. rewrite Fws. unfold getGroup.
      destruct (Nat.eq_dec g prev) as [->|Hgp].
      * rewrite Hpw in Hx. destruct (Hrest_in x Hx) as [Hxin Hxw].
        rewrite F1 by exact Hxw. destruct (Hmh prev x Hprev Hxin) as [Hxreg Hxg].
        split; [apply drop1_keeps; assumption|exact Hxg].
      * rewrite Fother in Hx by assumption.
        destruct (Hmh g x (Fsub g Hg) Hx) as [Hxw Hxg].
        assert (Hne' : x <> w) by (intros ->; apply Hgp; symmetry; exact Hxg).
        rewrite F1 by exact Hne'. split; [apply drop1_keeps; assumption|exact Hxg].
    + intros g Hg. destruct (Nat.eq_dec g prev) as [->|Hgp].
      * rewrite Hpw. destruct rest eqn:Hrest; [reflexivity|].
        exfalso. apply Hg. apply Fprev'. discriminate.
      * rewrite Fother by assumption. apply Hue. intros Hin. apply Hg. apply Fkeep; assumption.
    + intros x x' Hx Hx'. destruct (Fin x Hx) as [Hxw Hxne].
      destruct (Fin x' Hx') as [Hxw' Hxne']. unfold getIdentity.
      rewrite !F1 by assumption. apply Hid; assumption.
  - (* the window is not registered: nothing listens, nothing holds it *)
    assert (Hclosed : (if SnapWindow.onClose (wobj st w) then onWindowClosed w st else st) = st).
    { destruct (SnapWindow.onClose (wobj st w)); [|reflexivity].
      unfold onWindowClosed.
      destruct (Z.leb_spec 0 (indexOf w (windows st))) as [Hge|_]; [|reflexivity].
      apply indexOf_found in Hge. contradiction. }
    rewrite Hclosed. unfold group_removeWindow.
    destruct (existsb (Nat.eqb w) (group_windows st (getGroup st w))) eqn:Hex; [|exact HC].
    apply existsb_eqb_In in Hex. exfalso.
    destruct (in_dec Nat.eq_dec (getGroup st w) (groups st)) as [Hreg|Hunreg].
    + apply Hnw. apply (wf_member_home _ _ HC _ w Hreg Hex).
    + rewrite (wf_unregistered_empty _ _ HC _ Hunreg) in Hex. exact Hex.
Qed.

Lemma refreshState_wf (w : wid) (state : WindowState) (st : State) :
  WellFormed st -> WellFormed (refreshState w state st).
Proof.
  apply Consistent_same; try reflexivity.
  intros x. unfold refreshState. simpl. unfold upd.
  destruct (Nat.eqb_spec x w) as [->|]; simpl; auto.
Qed.

Lemma handle_wf (e : Event) (st : State) :
  WellFormed st -> expected getSnapTarget st e ->
  WellFormed (handle distance getSnapTarget e st).
Proof.
  intros HC Hexp. destruct e; simpl.
  - apply undock_wf. exact HC.
  - exact HC.
  - apply explodeGroup_wf. exact HC.
  - apply addWindow_wf; assumption.
  - apply windowClosed_wf. exact HC.
  - apply refreshState_wf. exact HC.
  - destruct (SnapGroup.onTransform (gobj st g)); [|exact HC].
    unfold snapGroup, view_update.
    eapply Consistent_same; [..|exact HC]; try reflexivity. intros; auto.
  - destruct (SnapGroup.onCommit (gobj st g)); [|exact HC].
    apply applySnapTarget_wf; assumption.
  - unfold emit_onModified, validateGroup.
    destruct (SnapGroup.onModified (gobj st g)); exact HC.
  - eapply Consistent_same; [..|exact HC]; try reflexivity. intros; auto.
Qed.

Lemma initial_wf : WellFormed initial.
Proof.
  constructor; simpl; try tauto; try exact initial_ok; intros; constructor.
Qed.

End WellFormedService.

(** In a well-formed state, every member of a registered group identifies
    that group. *)
Lemma wellformed_explodable (st : State) (g : gid) (w : wid) :
  WellFormed st -> In g (groups st) -> In w (group_windows st g) ->
  Explodable st (getIdentity st w) g.
Proof.
  intros HC Hg Hw. constructor.
  - exact (wf_registry _ _ HC).
  - exact Hg.
  - exact (wf_members_nodup _ _ HC g Hg).
  - intros x Hx. apply (wf_member_home _ _ HC g x Hg Hx).
  - exists w. split; [exact Hw|reflexivity].
  - intros g' w' Hg' Hw' Hid.
    destruct (wf_member_home _ _ HC g' w' Hg' Hw') as [Hreg' Hhome'].
    destruct (wf_member_home _ _ HC g w Hg Hw) as [Hreg Hhome].
    rewrite (wf_identities _ _ HC w' w Hreg' Hreg Hid) in Hhome'. congruence.
Qed.

Lemma attainable_reachable
    (distance : Rectangle.t -> Rectangle.t -> MeasureResult.t)
    (getSnapTarget : State -> list gid -> gid -> option SnapTarget.t) (st : State) :
  attainable distance getSnapTarget st -> reachable distance getSnapTarget st.
Proof.
  induction 1 as [|st e Ha IH Hexp]; [apply reachable_initial|].
  apply reachable_handle. exact IH.
Qed.

Lemma attainable_wf
    (distance : Rectangle.t -> Rectangle.t -> MeasureResult.t)
    (getSnapTarget : State -> list gid -> gid -> option SnapTarget.t) (st : State) :
  attainable distance getSnapTarget st -> WellFormed st.
Proof.
  induction 1 as [|st e Ha IH Hexp]; [exact initial_wf|].
  apply handle_wf; assumption.
Qed.

(** * Further properties of the service *)

(** ** More on arrays *)

Lemma drop1_snoc_absent (v : nat) (l : list nat) : ~ In v l -> drop1 v (l ++ [v]) = l.
Proof.
  induction l as [|h t IH]; simpl; intros Hnin.
  - rewrite Nat.eqb_refl. reflexivity.
  - destruct (Nat.eqb_spec h v) as [->|_]; [exfalso; apply Hnin; left; reflexivity|].
    f_equal. apply IH. tauto.
Qed.

Lemma drop1_empty_single (v : nat) (l : list nat) :
  In v l -> drop1 v l = [] -> l = [v].
Proof.
  destruct l as [|h t]; simpl; [tauto|].
  destruct (Nat.eqb_spec h v) as [->|Hne].
  - intros _ ->. reflexivity.
  - discriminate.
Qed.

Lemma drop1_length (v : nat) (l : list nat) :
  In v l -> S (List.length (drop1 v l)) = List.length l.
Proof.
  induction l as [|h t IH]; simpl; [tauto|].
  destruct (Nat.eqb_spec h v) as [->|Hne]; [reflexivity|].
  intros [Heq|Hin]; [congruence|]. simpl. f_equal. apply IH. exact Hin.
Qed.

Lemma applyDelta_none (r : WindowState) : applyDelta None None r = r.
Proof. destruct r. reflexivity. Qed.

(** ** What the service's own signals emit *)

Lemma removeGroup_emitted (g : gid) (st : State) :
  emitted (removeGroup g st) = emitted st.
Proof. unfold removeGroup. destruct (_ && _); reflexivity. Qed.

Lemma onWindowRemovedFromGroup_emitted (g : gid) (w : wid) (st : State) :
  emitted (onWindowRemovedFromGroup g w st) = emitted st ++ [WindowRemoved g w].
Proof.
  unfold onWindowRemovedFromGroup, sendWindowRemovedMessage.
  destruct (Nat.eqb _ _); simpl; [rewrite removeGroup_emitted|]; reflexivity.
Qed.

Lemma group_removeWindow_emitted (g : gid) (w : wid) (st : State) :
  In w (group_windows st g) ->
  SnapGroup.onWindowRemoved (gobj st g) = true ->
  emitted (group_removeWindow g w st) = emitted st ++ [WindowRemoved g w].
Proof.
  intros Hin Hwired. unfold group_removeWindow.
  rewrite (proj2 (existsb_eqb_In w _) Hin). unfold emit_onWindowRemoved.
  replace (SnapGroup.onWindowRemoved
             (gobj (set_group_windows g (drop1 w (group_windows st g)) st) g))
    with true by (simpl; rewrite upd_same; simpl; auto).
  rewrite onWindowRemovedFromGroup_emitted. reflexivity.
Qed.

Lemma group_addWindow_emitted (g : gid) (w : wid) (st : State) :
  SnapGroup.onWindowAdded (gobj st g) = true ->
  emitted (group_addWindow g w st) = emitted st ++ [WindowAdded g w].
Proof.
  intros Hwired. unfold group_addWindow, emit_onWindowAdded, sendWindowAddedMessage.
  replace (SnapGroup.onWindowAdded
             (gobj (set_group_windows g (group_windows st g ++ [w]) st) g))
    with true by (simpl; rewrite upd_same; simpl; auto).
  reflexivity.
Qed.

(** ** A window leaves its group for a new one *)

Lemma isolate_fields (st : State) (g : gid) (w : wid) :
  (forall g', In g' (groups st) -> g' < nextGroup st) ->
  In g (groups st) ->
  SnapGroup.onWindowRemoved (gobj st g) = true ->
  In w (group_windows st g) ->
  getGroup st w = g ->
  let n := nextGroup st in
  let rest := drop1 w (group_windows st g) in
  let st' := setGroup w n None None (snd (addGroup st)) in
  wobj st' w = SnapWindow.mk (getIdentity st w) (getState st w) n
                 (SnapWindow.onClose (wobj st w))
  /\ (forall w', w' <> w -> wobj st' w' = wobj st w')
  /\ windows st' = windows st /\ nextGroup st' = S n /\ view st' = view st
  /\ group_windows st' n = [w]
  /\ group_windows st' g = rest
  /\ (forall g', g' <> g -> g' <> n -> gobj st' g' = gobj st g')
  /\ (rest <> [] -> groups st' = groups st ++ [n])
  /\ (rest = [] -> groups st' = drop1 g (groups st) ++ [n] /\ detached (gobj st' g))
  /\ emitted st' = emitted st ++ [WindowRemoved g w; WindowAdded n w].
Proof.
  intros Hfr Hreg Hwired Hmem Hback n rest st'.
  assert (Hgn : g <> n) by (apply Hfr in Hreg; unfold n; lia).
  set (st1 := snd (addGroup st)) in *.
  assert (Hg1 : gobj st1 g = gobj st g) by (unfold st1; simpl; apply upd_other; exact Hgn).
  assert (Hn1 : gobj st1 n = SnapGroup.mk [] true true true true true)
    by (unfold st1; simpl; apply upd_same).
  assert (Hw1 : wobj st1 = wobj st) by reflexivity.
  assert (Hprev : getGroup st1 w = g) by exact Hback.
  assert (Hmem1 : In w (group_windows st1 (getGroup st1 w))).
  { rewrite Hprev. unfold group_windows. rewrite Hg1. exact Hmem. }
  assert (Hwired1 : SnapGroup.onWindowRemoved (gobj st1 (getGroup st1 w)) = true)
    by (rewrite Hprev, Hg1; exact Hwired).
  assert (Hreg1 : In (getGroup st1 w) (groups st1)).
  { rewrite Hprev. unfold st1. simpl. apply in_or_app. left. exact Hreg. }
  assert (Hne1 : n <> getGroup st1 w) by (rewrite Hprev; auto).
  destruct (setGroup_fields w n None None st1 Hmem1 Hwired1 Hreg1 Hne1)
    as (Hwo & Hwins & Hnx & _ & Hv & _ & Hgn' & _ & Hgp & Hoth & Hmore & Hlast).
  fold st' in Hwo, Hwins, Hnx, Hv, Hgn', Hgp, Hoth, Hmore, Hlast.
  rewrite Hprev in *.
  assert (Hrest : drop1 w (group_windows st1 g) = rest).
  { unfold rest, group_windows. rewrite Hg1. reflexivity. }
  rewrite Hrest in *.
  assert (Hgroups1 : groups st1 = groups st ++ [n]) by reflexivity.
  assert (Hem : emitted st' = emitted st ++ [WindowRemoved g w; WindowAdded n w]).
  { unfold st', setGroup. fold (getGroup st1 w). rewrite Hprev.
    set (s1 := set_wobj w _ st1).
    assert (Hin1 : In w (group_windows s1 g)).
    { change (In w (SnapGroup.windows (gobj st1 g))). rewrite Hg1. exact Hmem. }
    assert (Hwd1 : SnapGroup.onWindowRemoved (gobj s1 g) = true).
    { change (SnapGroup.onWindowRemoved (gobj st1 g) = true). rewrite Hg1. exact Hwired. }
    assert (Hreg' : In g (groups s1)).
    { change (In g (groups st ++ [n])). apply in_or_app. left. exact Hreg. }
    destruct (group_removeWindow_fields g w s1 Hin1 Hwd1 Hreg')
      as (_ & _ & _ & _ & _ & _ & _ & Hoth2 & _).
    rewrite group_addWindow_emitted.
    - rewrite (group_removeWindow_emitted g w s1 Hin1 Hwd1).
      change (emitted s1) with (emitted st). rewrite <- app_assoc. reflexivity.
    - rewrite Hoth2 by auto. change (gobj s1 n) with (gobj st1 n). rewrite Hn1. reflexivity. }
  repeat apply conj.
  - rewrite Hwo, upd_same. unfold getIdentity, getState. rewrite Hw1, applyDelta_none.
    reflexivity.
  - intros w' Hw'. rewrite Hwo, upd_other by exact Hw'. rewrite Hw1. reflexivity.
  - exact Hwins.
  - rewrite Hnx. reflexivity.
  - exact Hv.
  - rewrite Hgn'. unfold group_windows. rewrite Hn1. reflexivity.
  - exact Hgp.
  - intros g' Hg' Hgn2. rewrite Hoth by auto. unfold st1. simpl. apply upd_other. exact Hgn2.
  - intros Hr. rewrite (proj1 (Hmore Hr)). exact Hgroups1.
  - intros Hr. destruct (Hlast Hr) as [Hgr Hdet]. split; [|exact Hdet].
    rewrite Hgr, Hgroups1. apply drop1_app_fresh. auto.
  - exact Hem.
Qed.

(** ** [undock] of a registered window *)

Lemma offsetBy_getGroup (w x : wid) (d : Point.t) (st : State) :
  getGroup (offsetBy w d st) x = getGroup st x.
Proof.
  unfold getGroup, offsetBy. cbn [wobj set_wobj]. unfold upd.
  destruct (Nat.eqb_spec x w) as [->|]; reflexivity.
Qed.

Lemma offsetBy_getState (w : wid) (d : Point.t) (st : State) :
  getState (offsetBy w d st) w = movedBy d (getState st w).
Proof.
  unfold getState, offsetBy. cbn [wobj set_wobj]. rewrite upd_same. reflexivity.
Qed.

Lemma offsetBy_other (w x : wid) (d : Point.t) (st : State) :
  x <> w -> wobj (offsetBy w d st) x = wobj st x.
Proof.
  intros Hx. unfold offsetBy. cbn [wobj set_wobj]. apply upd_other. exact Hx.
Qed.

Lemma undock_unfold (distance : Rectangle.t -> Rectangle.t -> MeasureResult.t)
    (st : State) (w : wid) :
  WellFormed st -> In w (windows st) ->
  undock distance (getIdentity st w) st
  = offsetBy w (undockDelta (calculateOffset distance st w))
      (setGroup w (nextGroup st) None None (snd (addGroup st))).
Proof.
  intros HC Hw. unfold undock.
  rewrite (undock_finds st w Hw)
    by (intros w' Hw' Hid; exact (wf_identities _ _ HC w' w Hw' Hw Hid)).
  change (addGroup st) with (nextGroup st, snd (addGroup st)). cbv iota beta.
  unfold emit_onModified, validateGroup.
  match goal with |- (if ?c then ?s else ?s) = _ =>
    destruct c; reflexivity end.
Qed.

Lemma wellformed_member_fields (st : State) (w : wid) :
  WellFormed st -> In w (windows st) ->
  (forall g', In g' (groups st) -> g' < nextGroup st)
  /\ In (getGroup st w) (groups st)
  /\ SnapGroup.onWindowRemoved (gobj st (getGroup st w)) = true
  /\ In w (group_windows st (getGroup st w))
  /\ NoDup (group_windows st (getGroup st w))
  /\ NoDup (groups st).
Proof.
  intros HC Hw. destruct (wf_window_home _ _ HC w Hw) as [Hg Hm].
  pose proof (wf_registry _ _ HC) as HR.
  repeat apply conj.
  - exact (reg_fresh _ _ HR).
  - exact Hg.
  - exact (reg_wired _ _ HR _ Hg).
  - exact Hm.
  - exact (wf_members_nodup _ _ HC _ Hg).
  - exact (reg_nodup _ _ HR).
Qed.

(** ** [addWindow] *)

Lemma set_group_windows_gobj (g : gid) (l : list wid) (st : State) :
  gobj (set_group_windows g l st) g
  = SnapGroup.mk l (SnapGroup.onModified (gobj st g)) (SnapGroup.onTransform (gobj st g))
      (SnapGroup.onCommit (gobj st g)) (SnapGroup.onWindowRemoved (gobj st g))
      (SnapGroup.onWindowAdded (gobj st g)).
Proof. unfold set_group_windows. cbn [gobj set_gobj]. apply upd_same. Qed.

Lemma addWindow_fields (identity : WindowIdentity.t) (state : WindowState) (st : State) :
  let w := nextWindow st in
  let g := nextGroup st in
  let st' := snd (addWindow identity state st) in
  fst (addWindow identity state st) = w
  /\ windows st' = windows st ++ [w]
  /\ groups st' = groups st ++ [g]
  /\ nextWindow st' = S w /\ nextGroup st' = S g
  /\ wobj st' w = SnapWindow.mk identity state g true
  /\ (forall x, x <> w -> wobj st' x = wobj st x)
  /\ gobj st' g = SnapGroup.mk [w] true true true true true
  /\ (forall g', g' <> g -> gobj st' g' = gobj st g')
  /\ view st' = view st
  /\ emitted st' = emitted st ++ [WindowAdded g w].
Proof.
  intros w g st'.
  set (st1 := set_wobj w (SnapWindow.mk identity state g false)
                (set_nextWindow (S w) (snd (addGroup st)))).
  assert (Hg1 : gobj st1 g = SnapGroup.mk [] true true true true true).
  { unfold st1. simpl. apply upd_same. }
  destruct (group_addWindow_fields g w st1)
    as (Hwo & Hws & Hng & Hnw & Hv & Hf & Hgs & Hgw & _ & Hoth).
  assert (Hem : emitted (group_addWindow g w st1) = emitted st1 ++ [WindowAdded g w]).
  { apply group_addWindow_emitted. rewrite Hg1. reflexivity. }
  assert (Hgo : gobj (group_addWindow g w st1) g = SnapGroup.mk [w] true true true true true).
  { unfold group_addWindow, emit_onWindowAdded, sendWindowAddedMessage.
    rewrite set_group_windows_gobj. cbn [SnapGroup.onWindowAdded]. rewrite Hg1.
    cbn [SnapGroup.onWindowAdded].
    change (gobj (emit (WindowAdded g w)
                    (set_group_windows g (group_windows st1 g ++ [w]) st1)) g)
      with (gobj (set_group_windows g (group_windows st1 g ++ [w]) st1) g).
    rewrite set_group_windows_gobj. unfold group_windows. rewrite Hg1. reflexivity. }
  set (st2 := group_addWindow g w st1) in *.
  assert (Est : st' = set_windows (windows st2 ++ [w])
                        (set_wobj w
                           (SnapWindow.mk (SnapWindow.identity (wobj st2 w))
                              (SnapWindow.state (wobj st2 w))
                              (SnapWindow.group (wobj st2 w)) true) st2))
    by reflexivity.
  split; [reflexivity|].
  rewrite Est. simpl.
  rewrite Hws, Hgs, Hnw, Hng, Hv, Hem, Hwo, Hgo.
  repeat apply conj; try reflexivity.
  - rewrite upd_same. unfold st1. simpl. rewrite upd_same. reflexivity.
  - intros x Hx. rewrite upd_other by exact Hx. unfold st1. simpl.
    apply upd_other. exact Hx.
  - intros g' Hg'. rewrite Hoth by exact Hg'. unfold st1. simpl. apply upd_other. exact Hg'.
Qed.

(** ** [onWindowClosed] *)

Lemma onWindowClosed_fields (w : wid) (st : State) :
  In w (windows st) ->
  let st' := onWindowClosed w st in
  windows st' = drop1 w (windows st)
  /\ groups st' = groups st /\ gobj st' = gobj st
  /\ nextGroup st' = nextGroup st /\ nextWindow st' = nextWindow st
  /\ view st' = view st /\ emitted st' = emitted st
  /\ wobj st' w = SnapWindow.mk (getIdentity st w) (getState st w) (getGroup st w) false
  /\ (forall x, x <> w -> wobj st' x = wobj st x).
Proof.
  intros Hw st'. subst st'. unfold onWindowClosed, validateGroup.
  pose proof (proj2 (indexOf_found w (windows st)) Hw) as Hidx.
  destruct (Z.leb_spec 0 (indexOf w (windows st))) as [_|Hlt]; [|lia].
  rewrite (splice1_indexOf w (windows st) Hw). simpl.
  repeat apply conj; try reflexivity.
  - apply upd_same.
  - intros x Hx. apply upd_other. exact Hx.
Qed.

Lemma onWindowClosed_unknown (w : wid) (st : State) :
  ~ In w (windows st) -> onWindowClosed w st = st.
Proof.
  intros Hnin. unfold onWindowClosed.
  destruct (Z.leb_spec 0 (indexOf w (windows st))) as [Hge|_]; [|reflexivity].
  apply indexOf_found in Hge. contradiction.
Qed.

(** ** A registered window closes *)

Lemma windowClosed_fields (w : wid) (st : State) :
  WellFormed st -> In w (windows st) ->
  let g := getGroup st w in
  let rest := drop1 w (group_windows st g) in
  let st' := windowClosed w st in
  windows st' = drop1 w (windows st)
  /\ group_windows st' g = rest
  /\ (forall g', g' <> g -> gobj st' g' = gobj st g')
  /\ (forall x, x <> w -> wobj st' x = wobj st x)
  /\ (rest <> [] -> groups st' = groups st)
  /\ (rest = [] -> groups st' = drop1 g (groups st) /\ detached (gobj st' g))
  /\ emitted st' = emitted st ++ [WindowRemoved g w].
Proof.
  intros HC Hw g rest st'.
  destruct (wellformed_member_fields st w HC Hw) as (Hfr & Hg & Hwd & Hm & Hnd & Hgnd).
  destruct (onWindowClosed_fields w st Hw)
    as (Hws & Hgs & Hgo & _ & _ & _ & Hem & Hwo & Hoth).
  assert (Est : st' = group_removeWindow g w (onWindowClosed w st)).
  { unfold st', windowClosed. rewrite (wf_window_listened _ _ HC w Hw).
    unfold getGroup at 1. rewrite Hwo. reflexivity. }
  assert (Hin1 : In w (group_windows (onWindowClosed w st) g))
    by (unfold group_windows; rewrite Hgo; exact Hm).
  assert (Hwd1 : SnapGroup.onWindowRemoved (gobj (onWindowClosed w st) g) = true)
    by (rewrite Hgo; exact Hwd).
  assert (Hreg1 : In g (groups (onWindowClosed w st))) by (rewrite Hgs; exact Hg).
  destruct (group_removeWindow_fields g w _ Hin1 Hwd1 Hreg1)
    as (Hwo2 & Hws2 & _ & _ & _ & _ & Hgw & Hoth2 & Hmore & Hlast).
  pose proof (group_removeWindow_emitted g w _ Hin1 Hwd1) as Hem2.
  rewrite <- Est in Hwo2, Hws2, Hgw, Hoth2, Hmore, Hlast, Hem2.
  assert (Hrest : drop1 w (group_windows (onWindowClosed w st) g) = rest)
    by (unfold rest, group_windows; rewrite Hgo; reflexivity).
  rewrite Hrest in Hgw, Hmore, Hlast.
  split; [rewrite Hws2; exact Hws|].
  split; [exact Hgw|].
  split; [intros g' Hg'; rewrite Hoth2 by exact Hg'; rewrite Hgo; reflexivity|].
  split; [intros x Hx; rewrite Hwo2; apply Hoth; exact Hx|].
  split; [intros Hr; rewrite (proj1 (Hmore Hr)); exact Hgs|].
  split; [intros Hr; destruct (Hlast Hr) as [Hgr Hdet]; split;
          [rewrite Hgr, Hgs; reflexivity|exact Hdet]|].
  rewrite Hem2, Hem. reflexivity.
Qed.

(** ** The commit loop empties the active group into the target group *)

Lemma merge_loop (t : SnapTarget.t) (g : gid) :
  SnapTarget.group t <> g ->
  forall (l : list wid) (st : State),
  l <> [] ->
  NoDup l ->
  In g (groups st) ->
  SnapGroup.onWindowRemoved (gobj st g) = true ->
  group_windows st g = l ->
  (forall w, In w l -> getGroup st w = g) ->
  let st' := fold_left (applyOne t) l st in
  group_windows st' (SnapTarget.group t) = group_windows st (SnapTarget.group t) ++ l
  /\ group_windows st' g = []
  /\ groups st' = drop1 g (groups st)
  /\ detached (gobj st' g)
  /\ windows st' = windows st
  /\ (forall g', g' <> g -> g' <> SnapTarget.group t -> gobj st' g' = gobj st g')
  /\ (forall w, ~ In w l -> wobj st' w = wobj st w).
Proof.
  intros Hne. induction l as [|w l IH]; intros st Hnonempty Hnd Hreg Hwired Hl Hback;
    [congruence|].
  inversion Hnd as [|? ? Hwl Hnd']; subst.
  cbn [fold_left]. rewrite applyOne_setGroup.
  set (o := Some (SnapTarget.snapOffset t)). set (h := halfSizeFor t w).
  assert (Hprev : getGroup st w = g) by (apply Hback; left; reflexivity).
  assert (Hmem : In w (group_windows st (getGroup st w)))
    by (rewrite Hprev, Hl; left; reflexivity).
  assert (Hwired' : SnapGroup.onWindowRemoved (gobj st (getGroup st w)) = true)
    by (rewrite Hprev; exact Hwired).
  assert (Hreg' : In (getGroup st w) (groups st)) by (rewrite Hprev; exact Hreg).
  assert (Hne' : SnapTarget.group t <> getGroup st w) by (rewrite Hprev; exact Hne).
  destruct (setGroup_fields w (SnapTarget.group t) o h st Hmem Hwired' Hreg' Hne')
    as (Hwo & Hws & _ & _ & _ & _ & Htg & _ & Hpw & Hoth & Hmore & Hlast).
  rewrite Hprev in Hpw, Hoth, Hmore, Hlast.
  assert (Hrest : drop1 w (group_windows st g) = l).
  { rewrite Hl. simpl. rewrite Nat.eqb_refl. reflexivity. }
  rewrite Hrest in Hpw, Hmore, Hlast.
  set (st1 := setGroup w (SnapTarget.group t) o h st) in *.
  destruct l as [|x l'].
  - (* the last member leaves *)
    cbn [fold_left]. destruct (Hlast eq_refl) as [Hgr Hdet].
    split; [exact Htg|]. split; [exact Hpw|]. split; [exact Hgr|].
    split; [exact Hdet|]. split; [exact Hws|].
    split; [intros g' Hg' Htg'; apply Hoth; assumption|].
    intros y Hy. rewrite Hwo. apply upd_other. intros ->. apply Hy. left. reflexivity.
  - assert (Hnil : x :: l' <> []) by discriminate.
    destruct (Hmore Hnil) as [Hgr Hwired1].
    assert (Hreg1 : In g (groups st1)) by (rewrite Hgr; exact Hreg).
    assert (Hback1 : forall y, In y (x :: l') -> getGroup st1 y = g).
    { intros y Hy. unfold getGroup. rewrite Hwo, upd_other.
      - apply Hback. right. exact Hy.
      - intros ->. contradiction. }
    destruct (IH st1 Hnil Hnd' Hreg1 Hwired1 Hpw Hback1)
      as (Htg2 & Hg2 & Hgr2 & Hdet2 & Hws2 & Hoth2 & Hwo2).
    split; [rewrite Htg2, Htg, <- app_assoc; reflexivity|].
    split; [exact Hg2|]. split; [rewrite Hgr2, Hgr; reflexivity|].
    split; [exact Hdet2|]. split; [rewrite Hws2; exact Hws|].
    split.
    + intros g' Hg' Htg'. rewrite Hoth2 by assumption. apply Hoth; assumption.
    + intros y Hy. rewrite Hwo2 by (intros Hin; apply Hy; right; exact Hin).
      rewrite Hwo. apply upd_other. intros ->. apply Hy. left. reflexivity.
Qed.

(** ** The size of a repulsion offset *)

Lemma Zsgn_bound (z : Z) : (Z.abs (Z.sgn z) <= 1)%Z.
Proof. destruct z; simpl; lia. Qed.

Lemma fold_translate_integral (l : list Point.t) :
  (forall p, In p l ->
     exists a b : Z, Point.x p = inject_Z a /\ Point.y p = inject_Z b
                     /\ (Z.abs a <= 1)%Z /\ (Z.abs b <= 1)%Z) ->
  forall (acc : Point.t) (za zb : Z),
  (Point.x acc == inject_Z za)%Q -> (Point.y acc == inject_Z zb)%Q ->
  exists zx zy : Z,
    (Point.x (fold_left translate l acc) == inject_Z zx)%Q
    /\ (Point.y (fold_left translate l acc) == inject_Z zy)%Q
    /\ (Z.abs (zx - za) <= Z.of_nat (List.length l))%Z
    /\ (Z.abs (zy - zb) <= Z.of_nat (List.length l))%Z.
Proof.
  induction l as [|p l IH]; intros Hl acc za zb Hx Hy.
  - exists za, zb. simpl. repeat split; try assumption; lia.
  - destruct (Hl p (or_introl eq_refl)) as (a & b & Hpa & Hpb & Ha & Hb).
    assert (Hx' : (Point.x (translate acc p) == inject_Z (za + a))%Q).
    { unfold translate. cbn [Point.x]. rewrite Hx, Hpa, inject_Z_plus. reflexivity. }
    assert (Hy' : (Point.y (translate acc p) == inject_Z (zb + b))%Q).
    { unfold translate. cbn [Point.y]. rewrite Hy, Hpb, inject_Z_plus. reflexivity. }
    destruct (IH (fun q Hq => Hl q (or_intror Hq)) (translate acc p) _ _ Hx' Hy')
      as (zx & zy & Hzx & Hzy & Hbx & Hby).
    exists zx, zy. cbn [fold_left]. split; [exact Hzx|]. split; [exact Hzy|].
    cbn [List.length]. rewrite Nat2Z.inj_succ. split; lia.
Qed.

Lemma filter_length_lt {A : Type} (f : A -> bool) (l : list A) (a : A) :
  In a l -> f a = false -> (List.length (filter f l) < List.length l)%nat.
Proof.
  induction l as [|h t IH]; simpl; [tauto|].
  intros [->|Hin] Hf.
  - rewrite Hf. pose proof (filter_length_le f t). lia.
  - destruct (f h); simpl; specialize (IH Hin Hf); lia.
Qed.

(** ** The groups partition the windows *)

Lemma NoDup_flat_map {A B : Type} (f : A -> list B) (l : list A) :
  NoDup l ->
  (forall a, In a l -> NoDup (f a)) ->
  (forall a a' b, In a l -> In a' l -> In b (f a) -> In b (f a') -> a = a') ->
  NoDup (flat_map f l).
Proof.
  induction l as [|h t IH]; intros Hnd Hf Hdisj; simpl; [constructor|].
  inversion Hnd as [|? ? Hht Hnd']; subst.
  apply NoDup_app.
  - apply Hf. left. reflexivity.
  - apply IH; [exact Hnd'| |].
    + intros a Ha. apply Hf. right. exact Ha.
    + intros a a' b Ha Ha'. apply Hdisj; right; assumption.
  - intros b Hb Hin. apply in_flat_map in Hin. destruct Hin as (a & Ha & Hba).
    apply Hht. rewrite (Hdisj h a b (or_introl eq_refl) (or_intror Ha) Hb Hba).
    exact Ha.
Qed.

Lemma same_members_same_length {A : Type} (l l' : list A) :
  NoDup l -> NoDup l' -> (forall a, In a l <-> In a l') ->
  List.length l = List.length l'.
Proof.
  intros Hl Hl' Hiff. apply Nat.le_antisymm; apply NoDup_incl_length; try assumption;
    intros a Ha; apply Hiff; exact Ha.
Qed.

Lemma wellformed_partition (st : State) :
  WellFormed st ->
  NoDup (flat_map (group_windows st) (groups st))
  /\ (forall w, In w (windows st) <-> In w (flat_map (group_windows st) (groups st))).
Proof.
  intros HC. split.
  - apply NoDup_flat_map.
    + exact (reg_nodup _ _ (wf_registry _ _ HC)).
    + exact (wf_members_nodup _ _ HC).
    + intros g g' w Hg Hg' Hw Hw'.
      rewrite <- (proj2 (wf_member_home _ _ HC g w Hg Hw)).
      exact (proj2 (wf_member_home _ _ HC g' w Hg' Hw')).
  - intros w. rewrite in_flat_map. split.
    + intros Hw. exists (getGroup st w). exact (wf_window_home _ _ HC w Hw).
    + intros (g & Hg & Hw). exact (proj1 (wf_member_home _ _ HC g w Hg Hw)).
Qed.

(** ** The service listens to the registered groups only *)

Lemma handlers_detached (o : SnapGroup.t) :
  handlers o = (false, false, false, false, false) <-> detached o.
Proof.
  unfold handlers, detached. split.
  - intros H. injection H as -> -> -> -> ->. repeat split.
  - intros (-> & -> & -> & -> & ->). reflexivity.
Qed.

Lemma Listening_frame (st st' : State) :
  groups st' = groups st -> nextGroup st' = nextGroup st ->
  (forall g, handlers (gobj st' g) = handlers (gobj st g)) ->
  Listening st -> Listening st'.
Proof.
  intros Hg Hn Hh [Hnd Hfr Hreg Hun]. constructor.
  - rewrite Hg. exact Hnd.
  - rewrite Hg, Hn. exact Hfr.
  - intros g Hin. unfold attached. rewrite Hh. apply Hreg. rewrite <- Hg. exact Hin.
  - intros g Hin. rewrite Hh. apply Hun. rewrite <- Hg. exact Hin.
Qed.

Lemma set_group_windows_listening (g : gid) (l : list wid) (st : State) :
  Listening st -> Listening (set_group_windows g l st).
Proof.
  apply Listening_frame; try reflexivity.
  intros g'. unfold set_group_windows. cbn [gobj set_gobj]. unfold upd.
  destruct (Nat.eqb_spec g' g) as [->|_]; reflexivity.
Qed.

Lemma addGroup_listening (st : State) :
  Listening st -> Listening (snd (addGroup st)).
Proof.
  intros [Hnd Hfr Hreg Hun]. unfold addGroup. cbn [snd]. constructor.
  - cbn [groups set_groups]. apply NoDup_snoc_fresh; [exact Hnd|exact Hfr].
  - cbn [groups set_groups nextGroup set_gobj set_nextGroup].
    intros g Hin. apply in_app_or in Hin. destruct Hin as [Hin|[<-|[]]].
    + apply Hfr in Hin. lia.
    + lia.
  - cbn [groups set_groups gobj set_gobj set_nextGroup].
    intros g Hin. unfold upd. destruct (Nat.eqb_spec g (nextGroup st)) as [->|Hne].
    + reflexivity.
    + apply Hreg. apply in_app_or in Hin. destruct Hin as [Hin|[Heq|[]]];
        [exact Hin|congruence].
  - cbn [groups set_groups gobj set_gobj set_nextGroup].
    intros g Hin. unfold upd. destruct (Nat.eqb_spec g (nextGroup st)) as [->|Hne].
    + exfalso. apply Hin. apply in_or_app. right. left. reflexivity.
    + apply Hun. intros Hg. apply Hin. apply in_or_app. left. exact Hg.
Qed.

Lemma removeGroup_listening (g : gid) (st : State) :
  Listening st -> Listening (removeGroup g st).
Proof.
  intros HL.
  destruct (removeGroup_cases g st)
    as [[-> _]|(_ & Hin & Hg & Ho & Hn & _)]; [exact HL|].
  destruct HL as [Hnd Hfr Hreg Hun]. constructor.
  - rewrite Hg. apply drop1_NoDup. exact Hnd.
  - rewrite Hg, Hn. intros g' Hg'. apply Hfr. eapply drop1_incl. exact Hg'.
  - rewrite Hg, Ho. intros g' Hg'. unfold upd.
    destruct (Nat.eqb_spec g' g) as [->|Hne].
    + exfalso. exact (drop1_gone _ _ Hnd Hg').
    + apply Hreg. eapply drop1_incl. exact Hg'.
  - rewrite Hg, Ho. intros g' Hg'. unfold upd.
    destruct (Nat.eqb_spec g' g) as [->|Hne]; [reflexivity|].
    apply Hun. intros Hin'. apply Hg'. apply drop1_keeps; assumption.
Qed.

Lemma onWindowRemovedFromGroup_listening (g : gid) (w : wid) (st : State) :
  Listening st -> Listening (onWindowRemovedFromGroup g w st).
Proof.
  intros HL. unfold onWindowRemovedFromGroup, sendWindowRemovedMessage.
  match goal with |- Listening (emit _ ?s) =>
    apply Listening_frame with (st := s); try reflexivity end.
  destruct (Nat.eqb _ _); [apply removeGroup_listening|]; exact HL.
Qed.

Lemma group_removeWindow_listening (g : gid) (w : wid) (st : State) :
  Listening st -> Listening (group_removeWindow g w st).
Proof.
  intros HL. unfold group_removeWindow. destruct (existsb _ _); [|exact HL].
  unfold emit_onWindowRemoved.
  destruct (SnapGroup.onWindowRemoved _).
  - apply onWindowRemovedFromGroup_listening, set_group_windows_listening, HL.
  - apply set_group_windows_listening, HL.
Qed.

Lemma group_addWindow_listening (g : gid) (w : wid) (st : State) :
  Listening st -> Listening (group_addWindow g w st).
Proof.
  intros HL. unfold group_addWindow, emit_onWindowAdded, sendWindowAddedMessage.
  destruct (SnapGroup.onWindowAdded _).
  - match goal with |- Listening (emit _ ?s) =>
      apply Listening_frame with (st := s); try reflexivity end.
    apply set_group_windows_listening, HL.
  - apply set_group_windows_listening, HL.
Qed.

Lemma set_wobj_listening (w : wid) (o : SnapWindow.t) (st : State) :
  Listening st -> Listening (set_wobj w o st).
Proof. apply Listening_frame; reflexivity. Qed.

Lemma setGroup_listening (w : wid) (g : gid) (o h : option Point.t) (st : State) :
  Listening st -> Listening (setGroup w g o h st).
Proof.
  intros HL. unfold setGroup.
  apply group_addWindow_listening, group_removeWindow_listening, set_wobj_listening, HL.
Qed.

Lemma offsetBy_listening (w : wid) (d : Point.t) (st : State) :
  Listening st -> Listening (offsetBy w d st).
Proof. apply set_wobj_listening. Qed.

Section ListeningService.

Variable distance : Rectangle.t -> Rectangle.t -> MeasureResult.t.
Variable getSnapTarget : State -> list gid -> gid -> option SnapTarget.t.

Lemma explodeOne_listening (st : State) (wo : wid * Point.t) :
  Listening st -> Listening (explodeOne st wo).
Proof.
  intros HL. destruct wo as [w off]. unfold explodeOne.
  change (addGroup st) with (nextGroup st, snd (addGroup st)). cbv iota beta.
  apply offsetBy_listening, setGroup_listening, addGroup_listening, HL.
Qed.

Lemma undock_listening (target : WindowIdentity.t) (st : State) :
  Listening st -> Listening (undock distance target st).
Proof.
  intros HL. unfold undock. destruct (find _ _) as [w|]; [|exact HL].
  change (addGroup st) with (nextGroup st, snd (addGroup st)). cbv iota beta.
  unfold emit_onModified, validateGroup.
  match goal with |- Listening (if ?c then ?s else ?s) =>
    replace (if c then s else s) with s by (destruct c; reflexivity) end.
  apply offsetBy_listening, setGroup_listening, addGroup_listening, HL.
Qed.

Lemma explodeGroup_listening (target : WindowIdentity.t) (st : State) :
  Listening st -> Listening (explodeGroup distance target st).
Proof.
  intros HL. unfold explodeGroup. destruct (find _ _) as [g|]; [|exact HL].
  destruct (Nat.ltb _ _); [|exact HL].
  generalize (combine (group_windows st g)
                (map (calculateOffset distance st) (group_windows st g))).
  intros l. revert st HL. induction l as [|wo l IH]; intros st HL; [exact HL|].
  cbn [fold_left]. apply IH, explodeOne_listening, HL.
Qed.

Lemma applySnapTarget_listening (g : gid) (st : State) :
  Listening st -> Listening (applySnapTarget getSnapTarget g st).
Proof.
  intros HL. unfold applySnapTarget, view_update.
  match goal with |- Listening (set_view _ ?s) =>
    apply Listening_frame with (st := s); try reflexivity end.
  destruct (getSnapTarget st (groups st) g) as [t|]; [|exact HL].
  destruct (_ && _); [|exact HL].
  generalize (group_windows st g). intros l. revert st HL.
  induction l as [|w l IH]; intros st HL; [exact HL|].
  cbn [fold_left]. apply IH. rewrite applyOne_setGroup. apply setGroup_listening, HL.
Qed.

Lemma onWindowClosed_listening (w : wid) (st : State) :
  Listening st -> Listening (onWindowClosed w st).
Proof.
  intros HL. unfold onWindowClosed, validateGroup.
  destruct (0 <=? _)%Z; [|exact HL].
  apply set_wobj_listening. revert HL. apply Listening_frame; reflexivity.
Qed.

Lemma addWindow_listening (identity : WindowIdentity.t) (state : WindowState) (st : State) :
  Listening st -> Listening (snd (addWindow identity state st)).
Proof.
  intros HL. unfold addWindow, newSnapWindow.
  change (addGroup st) with (nextGroup st, snd (addGroup st)). cbv iota beta. cbn [snd].
  match goal with |- Listening (set_windows _ ?s) =>
    apply Listening_frame with (st := s); try reflexivity end.
  apply set_wobj_listening, group_addWindow_listening, set_wobj_listening.
  match goal with |- Listening (set_nextWindow _ ?s) =>
    apply Listening_frame with (st := s); try reflexivity end.
  apply addGroup_listening, HL.
Qed.

Lemma handle_listening (e : Event) (st : State) :
  Listening st -> Listening (handle distance getSnapTarget e st).
Proof.
  intros HL. destruct e; cbn [handle].
  - apply undock_listening, HL.
  - exact HL.
  - apply explodeGroup_listening, HL.
  - apply addWindow_listening, HL.
  - unfold windowClosed. apply group_removeWindow_listening.
    destruct (SnapWindow.onClose _); [apply onWindowClosed_listening|]; exact HL.
  - unfold refreshState. apply set_wobj_listening, HL.
  - destruct (SnapGroup.onTransform _); [|exact HL].
    unfold snapGroup, view_update. revert HL. apply Listening_frame; reflexivity.
  - destruct (SnapGroup.onCommit _); [|exact HL].
    apply applySnapTarget_listening, HL.
  - unfold emit_onModified, validateGroup. destruct (SnapGroup.onModified _); exact HL.
  - revert HL. apply Listening_frame; reflexivity.
Qed.

Lemma reachable_listening (st : State) :
  reachable distance getSnapTarget st -> Listening st.
Proof.
  induction 1 as [|st e Hr IH].
  - constructor; simpl; try tauto; constructor.
  - apply handle_listening. exact IH.
Qed.

End ListeningService.

(** ** What a move between two registered groups announces *)

Lemma attached_fields (o : SnapGroup.t) :
  attached o ->
  SnapGroup.onWindowRemoved o = true /\ SnapGroup.onWindowAdded o = true.
Proof. unfold attached, handlers. intros H. injection H as _ _ _ -> ->. auto. Qed.

Lemma setGroup_emitted (w : wid) (g : gid) (o h : option Point.t) (st : State) :
  let prev := getGroup st w in
  In w (group_windows st prev) ->
  SnapGroup.onWindowRemoved (gobj st prev) = true ->
  In prev (groups st) ->
  g <> prev ->
  SnapGroup.onWindowAdded (gobj st g) = true ->
  emitted (setGroup w g o h st)
  = emitted st ++ [WindowRemoved prev w; WindowAdded g w].
Proof.
  intros prev Hmem Hwired Hreg Hne Hadd. unfold setGroup.
  fold (getGroup st w). fold prev.
  set (s1 := set_wobj w _ st).
  assert (Hin1 : In w (group_windows s1 prev)) by exact Hmem.
  assert (Hwd1 : SnapGroup.onWindowRemoved (gobj s1 prev) = true) by exact Hwired.
  assert (Hreg1 : In prev (groups s1)) by exact Hreg.
  destruct (group_removeWindow_fields prev w s1 Hin1 Hwd1 Hreg1)
    as (_ & _ & _ & _ & _ & _ & _ & Hoth & _).
  rewrite group_addWindow_emitted.
  - rewrite (group_removeWindow_emitted prev w s1 Hin1 Hwd1).
    change (emitted s1) with (emitted st). rewrite <- app_assoc. reflexivity.
  - rewrite Hoth by exact Hne. exact Hadd.
Qed.

Lemma merge_loop_emitted (t : SnapTarget.t) (g : gid) :
  SnapTarget.group t <> g ->
  forall (l : list wid) (st : State),
  l <> [] ->
  NoDup l ->
  Listening st ->
  In g (groups st) ->
  In (SnapTarget.group t) (groups st) ->
  group_windows st g = l ->
  (forall w, In w l -> getGroup st w = g) ->
  emitted (fold_left (applyOne t) l st)
  = emitted st
    ++ flat_map (fun w => [WindowRemoved g w; WindowAdded (SnapTarget.group t) w]) l.
Proof.
  intros Hne. induction l as [|w l IH]; intros st Hnonempty Hnd HL Hreg Htg Hl Hback;
    [congruence|].
  inversion Hnd as [|? ? Hwl Hnd']; subst.
  cbn [fold_left flat_map]. rewrite applyOne_setGroup.
  set (o := Some (SnapTarget.snapOffset t)). set (h := halfSizeFor t w).
  assert (Hprev : getGroup st w = g) by (apply Hback; left; reflexivity).
  assert (Hmem : In w (group_windows st (getGroup st w)))
    by (rewrite Hprev, Hl; left; reflexivity).
  destruct (attached_fields _ (ls_registered _ HL g Hreg)) as [Hwired _].
  destruct (attached_fields _ (ls_registered _ HL _ Htg)) as [_ Hadd].
  assert (Hwired' : SnapGroup.onWindowRemoved (gobj st (getGroup st w)) = true)
    by (rewrite Hprev; exact Hwired).
  assert (Hreg' : In (getGroup st w) (groups st)) by (rewrite Hprev; exact Hreg).
  assert (Hne' : SnapTarget.group t <> getGroup st w) by (rewrite Hprev; exact Hne).
  pose proof (setGroup_emitted w (SnapTarget.group t) o h st Hmem Hwired' Hreg' Hne' Hadd)
    as Hem.
  destruct (setGroup_fields w (SnapTarget.group t) o h st Hmem Hwired' Hreg' Hne')
    as (Hwo & _ & _ & _ & _ & _ & _ & _ & Hpw & _ & Hmore & _).
  rewrite Hprev in Hem, Hpw, Hmore.
  assert (Hrest : drop1 w (group_windows st g) = l).
  { rewrite Hl. simpl. rewrite Nat.eqb_refl. reflexivity. }
  rewrite Hrest in Hpw, Hmore.
  pose proof (setGroup_listening w (SnapTarget.group t) o h st HL) as HL1.
  set (st1 := setGroup w (SnapTarget.group t) o h st) in *.
  destruct l as [|x l'].
  - cbn [fold_left flat_map]. rewrite app_nil_r. exact Hem.
  - assert (Hnil : x :: l' <> []) by discriminate.
    destruct (Hmore Hnil) as [Hgr _].
    assert (Hreg1 : In g (groups st1)) by (rewrite Hgr; exact Hreg).
    assert (Htg1 : In (SnapTarget.group t) (groups st1)) by (rewrite Hgr; exact Htg).
    assert (Hback1 : forall y, In y (x :: l') -> getGroup st1 y = g).
    { intros y Hy. unfold getGroup. rewrite Hwo, upd_other.
      - apply Hback. right. exact Hy.
      - intros ->. contradiction. }
    rewrite (IH st1 Hnil Hnd' HL1 Hreg1 Htg1 Hpw Hback1), Hem, <- app_assoc.
    reflexivity.
Qed.

(** ** The preview overlay *)

Section PreviewMore.

Variable Scope : Type.
Variable deepEqual : Scope -> Scope -> bool.
Variable query : Scope -> Preview.PreviewType -> Preview.Validity -> Preview.Overlay.

Lemma sameKey_eq (a b : Preview.PreviewType * Preview.Validity) :
  Preview.sameKey a b = true <-> a = b.
Proof.
  destruct a as [[|] [|]], b as [[|] [|]]; simpl; split; congruence.
Qed.

Lemma sameKey_sym (a b : Preview.PreviewType * Preview.Validity) :
  Preview.sameKey a b = Preview.sameKey b a.
Proof. destruct a as [[|] [|]], b as [[|] [|]]; reflexivity. Qed.

Lemma applyScopeStyles_cases (sc : Scope) (p : Preview.t Scope) :
  Preview.applyScopeStyles deepEqual query sc p
  = if sameAsLastScope deepEqual sc p then p
    else Preview.mkPreview
           (fun ty v =>
              let d := Preview.previewWindows p ty v in
              Preview.mkData (Preview.bounds d) (Preview.windowOpacity d)
                (Preview.overlayBackground (query sc ty v))
                (Preview.overlayBorder (query sc ty v))
                (Preview.overlayOpacity (query sc ty v)))
           (Preview.activeWindowPreview p) (Some sc).
Proof. reflexivity. Qed.

Lemma applyScopeStyles_frame (sc : Scope) (p : Preview.t Scope) :
  Preview.activeWindowPreview (Preview.applyScopeStyles deepEqual query sc p)
  = Preview.activeWindowPreview p
  /\ forall ty v,
       Preview.bounds (Preview.previewWindows
                         (Preview.applyScopeStyles deepEqual query sc p) ty v)
       = Preview.bounds (Preview.previewWindows p ty v)
       /\ Preview.windowOpacity (Preview.previewWindows
                                   (Preview.applyScopeStyles deepEqual query sc p) ty v)
          = Preview.windowOpacity (Preview.previewWindows p ty v).
Proof.
  rewrite applyScopeStyles_cases.
  destruct (sameAsLastScope _ _ _); split; intros; split; reflexivity.
Qed.

Lemma isActive_applyScopeStyles (sc : Scope) (p : Preview.t Scope)
    (ty : Preview.PreviewType) (v : Preview.Validity) :
  isActive (Preview.applyScopeStyles deepEqual query sc p) ty v = isActive p ty v.
Proof.
  unfold isActive. rewrite (proj1 (applyScopeStyles_frame sc p)). reflexivity.
Qed.

Lemma show_cases (target : Preview.PreviewableTarget Scope) (p : Preview.t Scope) :
  Preview.show deepEqual query target p
  = if isActive p (fst (keyOf target)) (snd (keyOf target))
    then shown deepEqual query target p
    else Preview.mkPreview
           (Preview.previewWindows (Preview.hide (shown deepEqual query target p)))
           (Some (keyOf target))
           (Preview.lastScope (Preview.hide (shown deepEqual query target p))).
Proof.
  change (Preview.show deepEqual query target p)
    with (if negb (match Preview.activeWindowPreview
                           (Preview.applyScopeStyles deepEqual query
                              (Preview.scope (Preview.activeWindow target)) p) with
                   | Some a => Preview.sameKey (keyOf target) a
                   | None => false
                   end)
          then Preview.mkPreview
                 (Preview.previewWindows (Preview.hide (shown deepEqual query target p)))
                 (Some (keyOf target))
                 (Preview.lastScope (Preview.hide (shown deepEqual query target p)))
          else shown deepEqual query target p).
  rewrite (proj1 (applyScopeStyles_frame _ p)).
  unfold isActive.
  change (fst (keyOf target), snd (keyOf target)) with (keyOf target).
  destruct (Preview.activeWindowPreview p) as [a|]; [|reflexivity].
  destruct (Preview.sameKey (keyOf target) a); reflexivity.
Qed.

End PreviewMore.

Section PreviewShow.

Variable Scope : Type.
Variable deepEqual : Scope -> Scope -> bool.
Variable query : Scope -> Preview.PreviewType -> Preview.Validity -> Preview.Overlay.

Lemma hide_window (p : Preview.t Scope) (ty : Preview.PreviewType) (v : Preview.Validity) :
  Preview.previewWindows (Preview.hide p) ty v
  = if isActive p ty v
    then Preview.mkData (Preview.bounds (Preview.previewWindows p ty v)) 0%Q
           (Preview.background (Preview.previewWindows p ty v))
           (Preview.border (Preview.previewWindows p ty v))
           (Preview.opacity (Preview.previewWindows p ty v))
    else Preview.previewWindows p ty v.
Proof.
  unfold Preview.hide, isActive.
  destruct (Preview.activeWindowPreview p) as [a|]; [|reflexivity].
  unfold Preview.updateOptions, Preview.updateWindow. cbn [Preview.previewWindows].
  destruct (Preview.sameKey (ty, v) a); reflexivity.
Qed.

Lemma hide_active (p : Preview.t Scope) :
  Preview.activeWindowPreview (Preview.hide p) = None.
Proof.
  unfold Preview.hide. destruct (Preview.activeWindowPreview p) eqn:Ha; [reflexivity|exact Ha].
Qed.

Lemma hide_lastScope (p : Preview.t Scope) :
  Preview.lastScope (Preview.hide p) = Preview.lastScope p.
Proof. unfold Preview.hide. destruct (Preview.activeWindowPreview p); reflexivity. Qed.

Lemma shown_active (target : Preview.PreviewableTarget Scope) (p : Preview.t Scope) :
  Preview.activeWindowPreview (shown deepEqual query target p)
  = Preview.activeWindowPreview p.
Proof.
  change (Preview.activeWindowPreview (shown deepEqual query target p))
    with (Preview.activeWindowPreview
            (Preview.applyScopeStyles deepEqual query
               (Preview.scope (Preview.activeWindow target)) p)).
  apply applyScopeStyles_frame.
Qed.

Lemma isActive_shown (target : Preview.PreviewableTarget Scope) (p : Preview.t Scope)
    (ty : Preview.PreviewType) (v : Preview.Validity) :
  isActive (shown deepEqual query target p) ty v = isActive p ty v.
Proof. unfold isActive. rewrite shown_active. reflexivity. Qed.

(** The window [show] picks, once positioned and given its opacity. *)
Lemma shown_picked (target : Preview.PreviewableTarget Scope) (p : Preview.t Scope) :
  let p1 := Preview.applyScopeStyles deepEqual query
              (Preview.scope (Preview.activeWindow target)) p in
  let rect := Preview.generatePreviewRect target in
  let ty := fst (keyOf target) in
  let v := snd (keyOf target) in
  Preview.previewWindows (shown deepEqual query target p) ty v
  = Preview.mkData
      (Preview.mkBounds
         (Point.x (Rectangle.center rect) - Point.x (Rectangle.halfSize rect))%Q
         (Point.y (Rectangle.center rect) - Point.y (Rectangle.halfSize rect))%Q
         (Point.x (Rectangle.halfSize rect) * 2)%Q
         (Point.y (Rectangle.halfSize rect) * 2)%Q)
      (Preview.opacity (Preview.previewWindows p ty v))
      (Preview.background (Preview.previewWindows p1 ty v))
      (Preview.border (Preview.previewWindows p1 ty v))
      (Preview.opacity (Preview.previewWindows p1 ty v)).
Proof.
  intros p1 rect ty v. unfold shown, Preview.updateOptions, Preview.positionPreview.
  change (keyOf target) with (ty, v).
  rewrite !updateWindow_same. reflexivity.
Qed.

(** The windows [show] does not pick are as [applyScopeStyles] leaves them. *)
Lemma shown_other (target : Preview.PreviewableTarget Scope) (p : Preview.t Scope)
    (ty : Preview.PreviewType) (v : Preview.Validity) :
  Preview.sameKey (ty, v) (keyOf target) = false ->
  Preview.previewWindows (shown deepEqual query target p) ty v
  = Preview.previewWindows
      (Preview.applyScopeStyles deepEqual query
         (Preview.scope (Preview.activeWindow target)) p) ty v.
Proof.
  intros Hne. unfold shown, Preview.updateOptions, Preview.positionPreview.
  rewrite !updateWindow_other by exact Hne. reflexivity.
Qed.

Lemma show_active (target : Preview.PreviewableTarget Scope) (p : Preview.t Scope) :
  Preview.activeWindowPreview (Preview.show deepEqual query target p)
  = Some (keyOf target).
Proof.
  rewrite show_cases.
  destruct (isActive p (fst (keyOf target)) (snd (keyOf target))) eqn:Hact; [|reflexivity].
  rewrite shown_active. unfold isActive in Hact.
  destruct (Preview.activeWindowPreview p) as [a|]; [|discriminate].
  apply sameKey_eq in Hact. rewrite <- Hact. reflexivity.
Qed.

Lemma show_window (target : Preview.PreviewableTarget Scope) (p : Preview.t Scope)
    (ty : Preview.PreviewType) (v : Preview.Validity) :
  Preview.previewWindows (Preview.show deepEqual query target p) ty v
  = if isActive p ty v && negb (Preview.sameKey (ty, v) (keyOf target))
    then Preview.mkData
           (Preview.bounds (Preview.previewWindows (shown deepEqual query target p) ty v)) 0%Q
           (Preview.background (Preview.previewWindows (shown deepEqual query target p) ty v))
           (Preview.border (Preview.previewWindows (shown deepEqual query target p) ty v))
           (Preview.opacity (Preview.previewWindows (shown deepEqual query target p) ty v))
    else Preview.previewWindows (shown deepEqual query target p) ty v.
Proof.
  rewrite show_cases.
  destruct (isActive p (fst (keyOf target)) (snd (keyOf target))) eqn:Hact.
  - (* the picked window is the active one: no other window is active *)
    destruct (isActive p ty v) eqn:Hty; [|reflexivity].
    unfold isActive in Hact, Hty.
    destruct (Preview.activeWindowPreview p) as [a|]; [|discriminate].
    apply sameKey_eq in Hact, Hty.
    assert (Hk : (ty, v) = keyOf target) by (rewrite Hty, <- Hact; reflexivity).
    rewrite Hk, sameKey_refl. reflexivity.
  - cbn [Preview.previewWindows]. rewrite hide_window, isActive_shown.
    destruct (isActive p ty v) eqn:Hty; [|reflexivity].
    destruct (Preview.sameKey (ty, v) (keyOf target)) eqn:Hk; [|reflexivity].
    apply sameKey_eq in Hk.
    assert (Habs : isActive p (fst (keyOf target)) (snd (keyOf target)) = true)
      by (rewrite <- Hk; exact Hty).
    congruence.
Qed.

Lemma hide_oneVisible (p : Preview.t Scope) :
  OneVisible p -> OneVisible (Preview.hide p).
Proof.
  intros HP ty v _. rewrite hide_window.
  destruct (isActive p ty v) eqn:Hact; [reflexivity|]. apply HP. exact Hact.
Qed.

Lemma applyScopeStyles_oneVisible (sc : Scope) (p : Preview.t Scope) :
  OneVisible p -> OneVisible (Preview.applyScopeStyles deepEqual query sc p).
Proof.
  intros HP ty v Hact. rewrite isActive_applyScopeStyles in Hact.
  rewrite (proj2 (proj2 (applyScopeStyles_frame _ deepEqual query sc p) ty v)).
  apply HP. exact Hact.
Qed.

Lemma show_oneVisible (target : Preview.PreviewableTarget Scope) (p : Preview.t Scope) :
  OneVisible p -> OneVisible (Preview.show deepEqual query target p).
Proof.
  intros HP ty v Hact. unfold isActive in Hact. rewrite show_active in Hact.
  rewrite show_window, Hact. cbn [negb].
  destruct (isActive p ty v) eqn:Hty; [reflexivity|]. cbn [andb].
  rewrite shown_other by exact Hact.
  rewrite (proj2 (proj2 (applyScopeStyles_frame _ deepEqual query _ p) ty v)).
  apply HP. exact Hty.
Qed.

Lemma after_oneVisible (calls : list (PreviewCall Scope)) :
  OneVisible (after Scope deepEqual query calls).
Proof.
  unfold after.
  assert (H0 : OneVisible (@newPreview Scope)) by (intros ty v _; reflexivity).
  revert H0. generalize (@newPreview Scope).
  induction calls as [|c calls IH]; intros p HP; [exact HP|].
  cbn [fold_left]. apply IH. destruct c; cbn [call].
  - apply show_oneVisible, HP.
  - apply hide_oneVisible, HP.
  - apply applyScopeStyles_oneVisible, HP.
Qed.

End PreviewShow.

(** ** Signs *)

Lemma Math_sign_compat (q q' : Q) : (q == q')%Q -> Math_sign q = Math_sign q'.
Proof.
  unfold Qeq, Math_sign. intros Heq. f_equal.
  assert (H1 : Z.sgn (Qnum q * Z.pos (Qden q')) = Z.sgn (Qnum q))
    by (rewrite Z.sgn_mul; simpl (Z.sgn (Z.pos _)); apply Z.mul_1_r).
  assert (H2 : Z.sgn (Qnum q' * Z.pos (Qden q)) = Z.sgn (Qnum q'))
    by (rewrite Z.sgn_mul; simpl (Z.sgn (Z.pos _)); apply Z.mul_1_r).
  rewrite <- H1, Heq. exact H2.
Qed.

Lemma Math_sign_opp (q : Q) : Math_sign (- q) = (- Math_sign q)%Q.
Proof.
  unfold Math_sign, Qopp, inject_Z. cbn [Qnum Qden]. rewrite Z.sgn_opp. reflexivity.
Qed.

Lemma Math_sign_swap (a b c c' : Q) :
  (c == c')%Q -> Math_sign ((b - a) * c') = (- Math_sign ((a - b) * c))%Q.
Proof.
  intros Hc. rewrite <- Math_sign_opp. apply Math_sign_compat. rewrite Hc. ring.
Qed.

(** * Main results *)

(** ** Facts about the sample states *)

Lemma twoWindows_attainable : attainable gapDistance (dockOnto 0 1 VALID) twoWindows.
Proof.
  cbv [twoWindows run fold_left].
  apply attainable_handle; [apply attainable_handle; [apply attainable_initial|]|].
  - unfold expected. intros w Hin. vm_compute in Hin. contradiction.
  - unfold expected. intros w Hin. vm_compute in Hin.
    destruct Hin as [<-|[]]. vm_compute. discriminate.
Qed.

Lemma farWindows_attainable : attainable gapDistance (dockOnto 0 1 VALID) farWindows.
Proof.
  cbv [farWindows run fold_left].
  apply attainable_handle; [apply attainable_handle; [apply attainable_initial|]|].
  - unfold expected. intros w Hin. vm_compute in Hin. contradiction.
  - unfold expected. intros w Hin. vm_compute in Hin.
    destruct Hin as [<-|[]]. vm_compute. discriminate.
Qed.

Lemma docked_attainable : attainable gapDistance (dockOnto 0 1 VALID) docked.
Proof.
  unfold docked, run. apply attainable_handle; [exact twoWindows_attainable|].
  unfold expected. split; [vm_compute; auto|].
  intros t Ht. unfold dockOnto in Ht. injection Ht as <-. cbn [SnapTarget.group].
  split; [vm_compute; auto|discriminate].
Qed.

Lemma looseGroup_attainable : attainable gapDistance (dockOnto 0 1 VALID) looseGroup.
Proof.
  unfold looseGroup, run. apply attainable_handle; [exact farWindows_attainable|].
  unfold expected. split; [vm_compute; auto|].
  intros t Ht. unfold dockOnto in Ht. injection Ht as <-. cbn [SnapTarget.group].
  split; [vm_compute; auto|discriminate].
Qed.

Lemma twoWindows_wf : WellFormed twoWindows.
Proof. exact (attainable_wf _ _ _ twoWindows_attainable). Qed.

Lemma docked_wf : WellFormed docked.
Proof. exact (attainable_wf _ _ _ docked_attainable). Qed.

Lemma looseGroup_wf : WellFormed looseGroup.
Proof. exact (attainable_wf _ _ _ looseGroup_attainable). Qed.

(** ** C1 *)

(** C1: every group in the registry is non-empty.  In every state the service
    can reach, each registered group has at least one window; when the last
    window of a registered group leaves it, the "window removed" notification
    takes the group out of the registry at once and detaches the five
    handlers ([onWindowRemovedFromGroup] does so for any registered group it
    finds empty); and [removeGroup] leaves a group that still has members
    where it is. *)
Theorem registered_groups_never_empty :
  forall (distance : Rectangle.t -> Rectangle.t -> MeasureResult.t)
         (getSnapTarget : State -> list gid -> gid -> option SnapTarget.t),
  (forall st g, reachable distance getSnapTarget st -> In g (groups st) ->
                0 < group_length st g)
  /\ (forall st g w, RegistryOK nonePending st -> In g (groups st) ->
                     group_windows st g = [w] ->
                     let st' := group_removeWindow g w st in
                     ~ In g (groups st') /\ detached (gobj st' g)
                     /\ RegistryOK nonePending st')
  /\ (forall st g w, NoDup (groups st) -> In g (groups st) ->
                     group_length st g = 0 ->
                     let st' := onWindowRemovedFromGroup g w st in
                     ~ In g (groups st') /\ detached (gobj st' g))
  /\ (forall st g, group_length st g <> 0 -> removeGroup g st = st).
Proof.
  intros distance getSnapTarget. repeat apply conj.
  - intros st g Hr Hin. apply reachable_ok in Hr.
    pose proof (reg_nonempty _ _ Hr g Hin) as Hne.
    unfold group_length, SnapGroup.length. unfold group_windows, nonePending in Hne.
    destruct (SnapGroup.windows (gobj st g)); [exfalso; apply Hne; tauto|simpl; lia].
  - intros st g w HOK Hin Hws st'.
    assert (Hmem : In w (group_windows st g)) by (rewrite Hws; left; reflexivity).
    destruct (group_removeWindow_fields g w st Hmem (reg_wired _ _ HOK g Hin) Hin)
      as (_ & _ & _ & _ & _ & _ & _ & _ & _ & Hlast).
    rewrite Hws in Hlast. simpl in Hlast. rewrite Nat.eqb_refl in Hlast.
    destruct (Hlast eq_refl) as [Hg Hdet].
    split; [|split].
    + subst st'. rewrite Hg. apply drop1_gone. exact (reg_nodup _ _ HOK).
    + exact Hdet.
    + apply group_removeWindow_ok. exact HOK.
  - intros st g w Hnd Hin Hz st'. subst st'.
    unfold onWindowRemovedFromGroup, sendWindowRemovedMessage.
    rewrite Hz. simpl Nat.eqb. cbv iota.
    destruct (removeGroup_cases g st) as [[_ [Hnz|Hnin]]|(_ & _ & Hg & Ho & _)];
      [contradiction..|].
    simpl. rewrite Hg, Ho, upd_same. split.
    + apply drop1_gone. exact Hnd.
    + repeat split.
  - intros st g Hnz.
    destruct (removeGroup_cases g st) as [[Heq _]|(Hz & _)]; [exact Heq|contradiction].
Qed.

Lemma registered_groups_never_empty_witness :
  0 < group_length docked 0
  /\ (~ In 1 (groups (group_removeWindow 1 1 twoWindows))
      /\ detached (gobj (group_removeWindow 1 1 twoWindows) 1)
      /\ RegistryOK nonePending (group_removeWindow 1 1 twoWindows))
  /\ (~ In 0 (groups (onWindowRemovedFromGroup 0 7 pendingGroup))
      /\ detached (gobj (onWindowRemovedFromGroup 0 7 pendingGroup) 0))
  /\ removeGroup 0 docked = docked.
Proof.
  destruct (registered_groups_never_empty gapDistance (dockOnto 0 1 VALID))
    as (Hnonempty & Hlast & Hhandler & Hguard).
  split; [|split; [|split]].
  - apply Hnonempty; [exact (attainable_reachable _ _ _ docked_attainable)|vm_compute; auto].
  - apply (Hlast twoWindows 1 1).
    + exact (wf_registry _ _ twoWindows_wf).
    + vm_compute. auto.
    + vm_compute. reflexivity.
  - apply (Hhandler pendingGroup 0 7).
    + vm_compute. repeat constructor. simpl. tauto.
    + vm_compute. auto.
    + vm_compute. reflexivity.
  - apply Hguard. vm_compute. discriminate.
Defined.

(** ** C2 *)

(** C2: in a well-formed state, exploding a registered group with more than
    one window, named through the identity of any of its members, puts every
    one of its windows alone into a group of its own that did not exist
    before; afterwards the original group is no longer in the registry (and
    the state is well-formed again). *)
Theorem explodeGroup_makes_singletons :
  forall (distance : Rectangle.t -> Rectangle.t -> MeasureResult.t)
         (st : State) (g : gid) (w : wid),
  WellFormed st ->
  In g (groups st) ->
  In w (group_windows st g) ->
  1 < group_length st g ->
  let ws := group_windows st g in
  let st' := explodeGroup distance (getIdentity st w) st in
  ~ In g (groups st')
  /\ groups st' = drop1 g (groups st) ++ seq (nextGroup st) (List.length ws)
  /\ (forall i x, nth_error ws i = Some x ->
        let g' := nextGroup st + i in
        getGroup st' x = g' /\ group_windows st' g' = [x]
        /\ In g' (groups st') /\ ~ In g' (groups st))
  /\ WellFormed st'.
Proof.
  intros distance st g w HC Hg Hw Hlen ws st'.
  pose proof (wellformed_explodable st g w HC Hg Hw) as Hx.
  pose proof (explodeGroup_exploded distance st _ g Hx Hlen) as HE.
  fold ws in HE. fold st' in HE.
  destruct HE as [Eg En Ew Ev Ee Ed Eog Eow Em].
  destruct (wf_registry _ _ HC) as [Hnd Hfr Hwd Hne].
  split; [|split; [|split]].
  - rewrite Eg. intros Hin. apply in_app_or in Hin. destruct Hin as [Hin|Hin].
    + exact (drop1_gone g _ Hnd Hin).
    + apply in_seq in Hin. apply Hfr in Hg. lia.
  - exact Eg.
  - intros i x Hi g'.
    pose proof (map_nth_error (calculateOffset distance st) i ws Hi) as Hoff.
    destruct (Em i x _ Hi Hoff) as (Hwo & Hgw & _).
    unfold getGroup. rewrite Hwo. simpl.
    split; [reflexivity|]. split; [exact Hgw|]. split.
    + rewrite Eg. apply in_or_app. right. apply in_seq.
      assert (i < List.length ws) by (apply nth_error_Some; congruence).
      unfold g'. lia.
    + intros Hin. apply Hfr in Hin. unfold g' in Hin. lia.
  - apply explodeGroup_wf. exact HC.
Qed.

Lemma explodeGroup_makes_singletons_witness :
  let st' := explodeGroup gapDistance (getIdentity docked 0) docked in
  (In 0 (groups docked) /\ In 0 (group_windows docked 0) /\ 1 < group_length docked 0
   /\ nth_error (group_windows docked 0) 1 = Some 1)
  /\ ~ In 0 (groups st')
  /\ groups st' = drop1 0 (groups docked)
                   ++ seq (nextGroup docked) (List.length (group_windows docked 0))
  /\ (getGroup st' 1 = nextGroup docked + 1
      /\ group_windows st' (nextGroup docked + 1) = [1]
      /\ In (nextGroup docked + 1) (groups st')
      /\ ~ In (nextGroup docked + 1) (groups docked))
  /\ WellFormed st'.
Proof.
  assert (Hg : In 0 (groups docked)) by (vm_compute; auto).
  assert (Hw : In 0 (group_windows docked 0)) by (vm_compute; auto).
  assert (Hlen : 1 < group_length docked 0) by (vm_compute; lia).
  assert (Hnth : nth_error (group_windows docked 0) 1 = Some 1)
    by (vm_compute; reflexivity).
  destruct (explodeGroup_makes_singletons gapDistance docked 0 0 docked_wf Hg Hw Hlen)
    as (Hgone & Hgroups & Hmembers & Hwf).
  split; [auto|]. split; [exact Hgone|]. split; [exact Hgroups|].
  split; [exact (Hmembers 1 1 Hnth)|exact Hwf].
Defined.

(** ** C3 *)

(** C3, as the code has it: on a commit whose re-queried target is VALID, and
    with the global [foo] not set, every window of the active group is
    handed to [setGroup] with the target's group and offset, and the anchor
    window with the target's half-size as well; afterwards each of them
    refers to the target group, is a member of it, and has been translated by
    the offset (and the anchor resized). *)
Theorem commit_moves_every_window :
  forall (getSnapTarget : State -> list gid -> gid -> option SnapTarget.t)
         (st : State) (activeGroup : gid) (t : SnapTarget.t),
  getSnapTarget st (groups st) activeGroup = Some t ->
  SnapTarget.validity t = VALID ->
  window_foo st = false ->
  NoDup (group_windows st activeGroup) ->
  let st' := applySnapTarget getSnapTarget activeGroup st in
  forall w, In w (group_windows st activeGroup) ->
    getGroup st' w = SnapTarget.group t
    /\ In w (group_windows st' (SnapTarget.group t))
    /\ getState st' w
       = applyDelta (Some (SnapTarget.snapOffset t))
           (if Nat.eqb w (SnapTarget.activeWindow t) then SnapTarget.halfSize t else None)
           (getState st w).
Proof.
  intros getSnapTarget st g t Hres Hvalid Hfoo Hnd st' w Hin. subst st'.
  unfold applySnapTarget. rewrite Hres, Hvalid, Hfoo. simpl andb. cbv iota.
  destruct (commit_loop_member t (group_windows st g) st w Hnd Hin) as [Hw Hmem].
  unfold getGroup, getState, group_windows, view_update in *. simpl.
  rewrite Hw. simpl. auto.
Qed.

Lemma commit_moves_every_window_witness :
  let st' := applySnapTarget (dockOnto 0 1 VALID) 1 twoWindows in
  In 1 (group_windows twoWindows 1)
  /\ getGroup st' 1 = 0
  /\ In 1 (group_windows st' 0)
  /\ getState st' 1 = applyDelta (Some (Point.mk 0 0)) None (getState twoWindows 1).
Proof.
  assert (Hin : In 1 (group_windows twoWindows 1)) by (vm_compute; auto).
  assert (Hfoo : window_foo twoWindows = false) by (vm_compute; reflexivity).
  assert (Hnd : NoDup (group_windows twoWindows 1))
    by (vm_compute; repeat constructor; simpl; tauto).
  split; [exact Hin|].
  exact (commit_moves_every_window (dockOnto 0 1 VALID) twoWindows 1
           (SnapTarget.mk 0 1 (Point.mk 0 0) None VALID)
           eq_refl eq_refl Hfoo Hnd 1 Hin).
Defined.

(** C3 as stated fails when the global [foo] is set: the target is VALID,
    yet window 1 of the active group 1 stays in group 1 instead of joining
    the target group 0. *)
Lemma commit_skipped_when_foo_is_set :
  dockOnto 0 1 VALID fooSet (groups fooSet) 1
  = Some (SnapTarget.mk 0 1 (Point.mk 0 0) None VALID)
  /\ window_foo fooSet = true
  /\ group_windows fooSet 1 = [1]
  /\ getGroup (applySnapTarget (dockOnto 0 1 VALID) 1 fooSet) 1 = 1
  /\ group_windows (applySnapTarget (dockOnto 0 1 VALID) 1 fooSet) 0 = [0]
  /\ ~ (forall w, In w (group_windows fooSet 1) ->
         getGroup (applySnapTarget (dockOnto 0 1 VALID) 1 fooSet) w = 0).
Proof.
  repeat apply conj; try (vm_compute; reflexivity).
  intros H.
  assert (Hin : In 1 (group_windows fooSet 1)) by (vm_compute; auto).
  specialize (H 1 Hin). vm_compute in H. discriminate.
Qed.

(** ** C4 *)

(** C4, as the code has it: for a window [w], every other member [o] of its
    group that meets the guard ([minAbs == 0] and [min < 0]) makes
    [calculateOffset] add, to the x component, the sign of the product of
    [w.center.x - o.center.x] and the magnitude of the distance on y; that is
    the sign of the centre difference when the distance on y is not zero, and
    zero when it is; and symmetrically for the y component.  Members that do
    not meet the guard, and [w] itself, add nothing. *)
Theorem calculateOffset_adds_signs :
  forall (distance : Rectangle.t -> Rectangle.t -> MeasureResult.t)
         (st : State) (w : wid),
  (forall acc o,
     o <> w ->
     (MeasureResult.minAbs (distance (getState st w) (getState st o)) == 0)%Q ->
     (MeasureResult.min (distance (getState st w) (getState st o)) < 0)%Q ->
     let d := distance (getState st w) (getState st o) in
     let dx := (Point.x (Rectangle.center (getState st w))
                - Point.x (Rectangle.center (getState st o)))%Q in
     let dy := (Point.y (Rectangle.center (getState st w))
                - Point.y (Rectangle.center (getState st o)))%Q in
     accumulate distance st w acc o
     = Point.mk (Point.x acc + Math_sign (dx * Math_abs (MeasureResult.y d)))%Q
                (Point.y acc + Math_sign (dy * Math_abs (MeasureResult.x d)))%Q
     /\ Math_sign (dx * Math_abs (MeasureResult.y d))
        = (if Qeq_bool (MeasureResult.y d) 0 then 0%Q else Math_sign dx)
     /\ Math_sign (dy * Math_abs (MeasureResult.x d))
        = (if Qeq_bool (MeasureResult.x d) 0 then 0%Q else Math_sign dy)
     /\ (forall q, Math_sign q = 1%Q \/ Math_sign q = 0%Q \/ Math_sign q = (-1)%Q))
  /\ calculateOffset distance st w
     = fold_left translate (map (push distance st w) (repelling distance st w))
         (Point.mk 0 0).
Proof.
  intros distance st w. split.
  - intros acc o Hne Hmin Hlt d dx dy.
    split; [|split; [apply Math_sign_gated|split; [apply Math_sign_gated|]]].
    2: { intros q. destruct (Math_sign_cases q) as [[-> _]|[[-> _]|[-> _]]]; auto. }
    rewrite accumulate_push.
    destruct (Nat.eqb_spec o w) as [->|_]; [contradiction|].
    rewrite (proj2 (repels_spec _) (conj Hmin Hlt)). reflexivity.
  - apply calculateOffset_pushes.
Qed.

Lemma calculateOffset_adds_signs_witness :
  let d := gapDistance (getState docked 0) (getState docked 1) in
  (MeasureResult.minAbs d == 0)%Q /\ (MeasureResult.min d < 0)%Q
  /\ accumulate gapDistance docked 0 (Point.mk 0 0) 1 = Point.mk (0 + -1)%Q (0 + 0)%Q
  /\ calculateOffset gapDistance docked 0
     = fold_left translate (map (push gapDistance docked 0) (repelling gapDistance docked 0))
         (Point.mk 0 0).
Proof.
  destruct (calculateOffset_adds_signs gapDistance docked 0) as [Hstep Htotal].
  assert (Hmin : (MeasureResult.minAbs
                    (gapDistance (getState docked 0%nat) (getState docked 1%nat)) == 0)%Q)
    by (vm_compute; reflexivity).
  assert (Hlt : (MeasureResult.min
                   (gapDistance (getState docked 0%nat) (getState docked 1%nat)) < 0)%Q)
    by (vm_compute; reflexivity).
  split; [exact Hmin|]. split; [exact Hlt|]. split; [|exact Htotal].
  destruct (Hstep (Point.mk 0 0) 1 ltac:(discriminate) Hmin Hlt) as (Hacc & _).
  rewrite Hacc. vm_compute. reflexivity.
Defined.

(** C4 as stated fails: in [docked], window 1 is the only other member of the
    group of window 0 and meets the guard, with an overlap of 20 on y.  The
    claim would have the x component of the offset be sign(0 - 20) * 20 =
    -20; [calculateOffset] gives -1. *)
Lemma offset_ignores_overlap_magnitude :
  group_windows docked (getGroup docked 0) = [0; 1]
  /\ repels (gapDistance (getState docked 0) (getState docked 1)) = true
  /\ weightedPush gapDistance docked 0 1 = Point.mk (-20) 0
  /\ calculateOffset gapDistance docked 0 = Point.mk (-1) 0
  /\ ~ (Point.x (calculateOffset gapDistance docked 0%nat)
        == 0 + Point.x (weightedPush gapDistance docked 0%nat 1%nat))%Q.
Proof.
  repeat apply conj; try (vm_compute; reflexivity).
  vm_compute. discriminate.
Qed.

(** ** C5 *)

(** C5: in a well-formed state, undocking a registered window moves it, on each axis, by exactly
    [UNDOCK_MOVE_SCALE] = 30 in magnitude; the sign on an axis is that of the
    repulsion offset computed for the window, and positive where the offset
    is zero, so the window moves on both axes. *)
Theorem undock_nudges_by_scale :
  forall (distance : Rectangle.t -> Rectangle.t -> MeasureResult.t)
         (st : State) (w : wid),
  WellFormed st ->
  In w (windows st) ->
  let off := calculateOffset distance st w in
  let c := Rectangle.center (getState st w) in
  let st' := undock distance (getIdentity st w) st in
  exists dx dy : Q,
    Rectangle.center (getState st' w) = Point.mk (Point.x c + dx)%Q (Point.y c + dy)%Q
    /\ Rectangle.halfSize (getState st' w) = Rectangle.halfSize (getState st w)
    /\ (Qabs dx == 30)%Q /\ (Qabs dy == 30)%Q
    /\ ((0 < Point.x off)%Q -> (dx == 30)%Q)
    /\ ((Point.x off == 0)%Q -> (dx == 30)%Q)
    /\ ((Point.x off < 0)%Q -> (dx == -30)%Q)
    /\ ((0 < Point.y off)%Q -> (dy == 30)%Q)
    /\ ((Point.y off == 0)%Q -> (dy == 30)%Q)
    /\ ((Point.y off < 0)%Q -> (dy == -30)%Q).
Proof.
  intros distance st w HC Hin off c st'.
  assert (Huniq : forall w', In w' (windows st) ->
                             getIdentity st w' = getIdentity st w -> w' = w).
  { intros w' Hin' Hid. exact (wf_identities _ _ HC w' w Hin' Hin Hid). }
  pose proof (undock_moves distance st w Hin Huniq) as Hmove.
  fold st' off in Hmove.
  exists (Point.x (undockDelta off)), (Point.y (undockDelta off)).
  rewrite Hmove. split; [reflexivity|]. split; [reflexivity|].
  unfold undockDelta. cbn [Point.x Point.y].
  destruct (undock_sign (Point.x off)) as [[Hx Hsx]|[Hx Hsx]];
    destruct (undock_sign (Point.y off)) as [[Hy Hsy]|[Hy Hsy]];
    rewrite Hsx, Hsy;
    repeat apply conj; intros; try reflexivity;
    match goal with
    | Hle : (0 <= ?q)%Q, Hlt : (?q < 0)%Q |- _ =>
        exfalso; exact (Qle_not_lt _ _ Hle Hlt)
    | Hpos : (0 < ?q)%Q, Hlt : (?q < 0)%Q |- _ =>
        exfalso; exact (Qlt_irrefl _ (Qlt_trans _ _ _ Hpos Hlt))
    | Hz : (?q == 0)%Q, Hlt : (?q < 0)%Q |- _ =>
        exfalso; rewrite Hz in Hlt; exact (Qlt_irrefl _ Hlt)
    end.
Qed.

Lemma undock_nudges_by_scale_witness :
  let off := calculateOffset gapDistance docked 0 in
  let c := Rectangle.center (getState docked 0) in
  let st' := undock gapDistance (getIdentity docked 0) docked in
  In 0 (windows docked)
  /\ exists dx dy : Q,
    Rectangle.center (getState st' 0) = Point.mk (Point.x c + dx)%Q (Point.y c + dy)%Q
    /\ Rectangle.halfSize (getState st' 0) = Rectangle.halfSize (getState docked 0)
    /\ (Qabs dx == 30)%Q /\ (Qabs dy == 30)%Q
    /\ ((0 < Point.x off)%Q -> (dx == 30)%Q)
    /\ ((Point.x off == 0)%Q -> (dx == 30)%Q)
    /\ ((Point.x off < 0)%Q -> (dx == -30)%Q)
    /\ ((0 < Point.y off)%Q -> (dy == 30)%Q)
    /\ ((Point.y off == 0)%Q -> (dy == 30)%Q)
    /\ ((Point.y off < 0)%Q -> (dy == -30)%Q).
Proof.
  assert (Hin : In 0 (windows docked)) by (vm_compute; auto).
  split; [exact Hin|].
  exact (undock_nudges_by_scale gapDistance docked 0 docked_wf Hin).
Defined.

(** ** C6 *)

(** C6: [undock] with an identity that no registered window has, and
    [explodeGroup] with an identity that is in no registered group or only in
    groups of at most one window, return the state they were given: the
    windows, the groups, every membership and every rectangle are untouched. *)
Theorem unknown_identity_is_a_noop :
  forall (distance : Rectangle.t -> Rectangle.t -> MeasureResult.t)
         (st : State) (target : WindowIdentity.t),
  ((forall w, In w (windows st) -> getIdentity st w <> target) ->
   undock distance target st = st)
  /\ ((forall g, In g (groups st) ->
                 (forall w, In w (group_windows st g) -> getIdentity st w <> target)) ->
      explodeGroup distance target st = st)
  /\ ((forall g, In g (groups st) ->
                 (exists w, In w (group_windows st g) /\ getIdentity st w = target) ->
                 group_length st g <= 1) ->
      explodeGroup distance target st = st).
Proof.
  intros distance st target. split; [|split].
  - apply undock_unknown.
  - intros Hnone. apply explodeGroup_noop.
    intros g Hin [w [Hw Hid]]. exfalso. exact (Hnone g Hin w Hw Hid).
  - apply explodeGroup_noop.
Qed.

Lemma unknown_identity_is_a_noop_witness :
  undock gapDistance idOther docked = docked
  /\ explodeGroup gapDistance idOther docked = docked
  /\ explodeGroup gapDistance idLeft twoWindows = twoWindows.
Proof.
  destruct (unknown_identity_is_a_noop gapDistance docked idOther)
    as (Hundock & Hexplode & _).
  destruct (unknown_identity_is_a_noop gapDistance twoWindows idLeft)
    as (_ & _ & Hsingle).
  split; [|split].
  - apply Hundock.
    intros w Hin. vm_compute in Hin.
    destruct Hin as [<-|[<-|[]]]; vm_compute; discriminate.
  - apply Hexplode.
    intros g Hg w Hin. vm_compute in Hg. destruct Hg as [<-|[]].
    vm_compute in Hin. destruct Hin as [<-|[<-|[]]]; vm_compute; discriminate.
  - apply Hsingle.
    intros g Hg _. vm_compute in Hg.
    destruct Hg as [<-|[<-|[]]]; vm_compute; lia.
Defined.

(** ** C7 *)

(** C7: when a group with more than one window is exploded, each window is
    moved by the displacement of its own repulsion offset as [calculateOffset]
    gives it in the state before the explode, with all the windows still
    members of the group; on each axis the displacement is the sign of that
    offset's component times half of [UNDOCK_MOVE_SCALE]. *)
Theorem explodeGroup_applies_precomputed_offsets :
  forall (distance : Rectangle.t -> Rectangle.t -> MeasureResult.t)
         (st : State) (g : gid) (w : wid),
  WellFormed st ->
  In g (groups st) ->
  In w (group_windows st g) ->
  1 < group_length st g ->
  forall x, In x (group_windows st g) ->
  let off := calculateOffset distance st x in
  let st' := explodeGroup distance (getIdentity st w) st in
  getGroup st x = g
  /\ Rectangle.center (getState st' x)
     = Point.mk
         (Point.x (Rectangle.center (getState st x))
          + Math_sign (Point.x off) * (1 # 2) * UNDOCK_MOVE_SCALE)%Q
         (Point.y (Rectangle.center (getState st x))
          + Math_sign (Point.y off) * (1 # 2) * UNDOCK_MOVE_SCALE)%Q
  /\ Rectangle.halfSize (getState st' x) = Rectangle.halfSize (getState st x).
Proof.
  intros distance st g w HC Hg Hw Hlen x Hin off st'.
  pose proof (wellformed_explodable st g w HC Hg Hw) as Hx.
  split; [exact (xp_backref _ _ _ Hx x Hin)|].
  subst st'. rewrite (explodeGroup_member_state distance st _ g Hx Hlen x Hin).
  split; reflexivity.
Qed.

Lemma explodeGroup_applies_precomputed_offsets_witness :
  let off := calculateOffset gapDistance docked 1 in
  let st' := explodeGroup gapDistance (getIdentity docked 0) docked in
  (In 0 (groups docked) /\ In 0 (group_windows docked 0) /\ 1 < group_length docked 0
   /\ In 1 (group_windows docked 0))
  /\ getGroup docked 1 = 0
  /\ Rectangle.center (getState st' 1)
     = Point.mk
         (Point.x (Rectangle.center (getState docked 1%nat))
          + Math_sign (Point.x off) * (1 # 2) * UNDOCK_MOVE_SCALE)%Q
         (Point.y (Rectangle.center (getState docked 1%nat))
          + Math_sign (Point.y off) * (1 # 2) * UNDOCK_MOVE_SCALE)%Q
  /\ Rectangle.halfSize (getState st' 1) = Rectangle.halfSize (getState docked 1).
Proof.
  assert (Hg : In 0 (groups docked)) by (vm_compute; auto).
  assert (Hw : In 0 (group_windows docked 0)) by (vm_compute; auto).
  assert (Hlen : 1 < group_length docked 0) by (vm_compute; lia).
  assert (Hx : In 1 (group_windows docked 0)) by (vm_compute; auto).
  split; [auto|].
  exact (explodeGroup_applies_precomputed_offsets gapDistance docked 0 0
           docked_wf Hg Hw Hlen 1 Hx).
Defined.

(** Why the offsets are computed first: once window 0 has left the docked
    group, window 1 is alone in it and its offset would be zero, whereas the
    offset applied to it is the one it had next to window 0. *)
Remark offsets_differ_after_a_detach :
  calculateOffset gapDistance docked 1 = Point.mk 1 0
  /\ calculateOffset gapDistance
       (explodeOne docked (0, calculateOffset gapDistance docked 0)) 1
     = Point.mk 0 0.
Proof. split; vm_compute; reflexivity. Qed.

(** ** C8 *)

(** C8: a commit for which the resolver returns no target, or a target that
    is not VALID, changes nothing but the view: no window changes group or
    rectangle and no group is created or destroyed; and every commit, merging
    or not, ends with the view reset to its empty state. *)
Theorem commit_without_valid_target :
  forall (getSnapTarget : State -> list gid -> gid -> option SnapTarget.t)
         (st : State) (activeGroup : gid),
  view (applySnapTarget getSnapTarget activeGroup st) = emptyView
  /\ (getSnapTarget st (groups st) activeGroup = None ->
      applySnapTarget getSnapTarget activeGroup st = set_view emptyView st)
  /\ (forall t, getSnapTarget st (groups st) activeGroup = Some t ->
                SnapTarget.validity t <> VALID ->
                applySnapTarget getSnapTarget activeGroup st = set_view emptyView st).
Proof.
  intros getSnapTarget st g. unfold applySnapTarget, view_update. split; [|split].
  - reflexivity.
  - intros ->. reflexivity.
  - intros t -> Hinv. destruct (SnapTarget.validity t); [contradiction|reflexivity].
Qed.

Lemma commit_without_valid_target_witness :
  view (applySnapTarget (dockOnto 0 1 VALID) 1 twoWindows) = emptyView
  /\ applySnapTarget noTarget 1 twoWindows = set_view emptyView twoWindows
  /\ applySnapTarget (dockOnto 0 1 INVALID) 1 twoWindows = set_view emptyView twoWindows.
Proof.
  destruct (commit_without_valid_target (dockOnto 0 1 VALID) twoWindows 1) as (Hview & _).
  destruct (commit_without_valid_target noTarget twoWindows 1) as (_ & Hnone & _).
  destruct (commit_without_valid_target (dockOnto 0 1 INVALID) twoWindows 1)
    as (_ & _ & Hinvalid).
  split; [exact Hview|]. split.
  - apply Hnone. reflexivity.
  - apply (Hinvalid (SnapTarget.mk 0 1 (Point.mk 0 0) None INVALID)).
    + reflexivity.
    + simpl. discriminate.
Defined.

(** ** C9 *)

(** C9: for a snap target given to [Preview.show], the preview rectangle has
    the target's half-size when the target has one and the anchor window's
    current half-size otherwise; its centre is the anchor window's current
    centre plus the target's offset plus, on each axis, the preview half-size
    minus the anchor's current half-size; and [show] places the preview
    window chosen by the target's type and validity on that rectangle. *)
Theorem show_places_snap_preview :
  forall (Scope : Type) (deepEqual : Scope -> Scope -> bool)
         (query : Scope -> Preview.PreviewType -> Preview.Validity -> Preview.Overlay)
         (p : Preview.t Scope) (valid : bool) (anchor : Preview.DesktopWindow Scope)
         (offset : Point.t) (targetHalfSize : option Point.t),
  let target := Preview.SnapTarget valid anchor offset targetHalfSize in
  let current := Preview.currentState anchor in
  let halfSize := match targetHalfSize with
                  | Some h => h
                  | None => Rectangle.halfSize current
                  end in
  let rect := Preview.generatePreviewRect target in
  Rectangle.halfSize rect = halfSize
  /\ Rectangle.center rect
     = Point.mk
         (Point.x (Rectangle.center current) + Point.x offset
          + (Point.x halfSize - Point.x (Rectangle.halfSize current)))%Q
         (Point.y (Rectangle.center current) + Point.y offset
          + (Point.y halfSize - Point.y (Rectangle.halfSize current)))%Q
  /\ Preview.bounds
       (Preview.previewWindows (Preview.show deepEqual query target p) Preview.snap
          (if valid then Preview.VALID else Preview.INVALID))
     = Preview.mkBounds
         (Point.x (Rectangle.center rect) - Point.x halfSize)%Q
         (Point.y (Rectangle.center rect) - Point.y halfSize)%Q
         (Point.x halfSize * 2)%Q
         (Point.y halfSize * 2)%Q.
Proof.
  intros Scope deepEqual query p valid anchor offset targetHalfSize
         target current halfSize rect.
  split; [reflexivity|]. split; [reflexivity|].
  exact (show_bounds Scope deepEqual query target p).
Qed.

(** ** C10 *)

(** C10: in [explodeGroup] a zero component of a window's precomputed offset
    gives no displacement on that axis (nothing defaults to a positive sign
    as in [undock]); a window that no other member of the group repels has a
    zero offset and keeps its position and size through the explode. *)
Theorem explodeGroup_zero_offset_stays :
  forall (distance : Rectangle.t -> Rectangle.t -> MeasureResult.t)
         (st : State) (g : gid) (w : wid),
  WellFormed st ->
  In g (groups st) ->
  In w (group_windows st g) ->
  1 < group_length st g ->
  forall x, In x (group_windows st g) ->
  let off := calculateOffset distance st x in
  let c := Rectangle.center (getState st x) in
  let st' := explodeGroup distance (getIdentity st w) st in
  let c' := Rectangle.center (getState st' x) in
  ((Point.x off == 0)%Q -> (Point.x c' == Point.x c)%Q)
  /\ ((Point.y off == 0)%Q -> (Point.y c' == Point.y c)%Q)
  /\ ((forall o, In o (group_windows st g) -> o <> x ->
                 repels (distance (getState st x) (getState st o)) = false) ->
      off = Point.mk 0 0
      /\ (Point.x c' == Point.x c)%Q /\ (Point.y c' == Point.y c)%Q
      /\ Rectangle.halfSize (getState st' x) = Rectangle.halfSize (getState st x)).
Proof.
  intros distance st g w HC Hg Hw Hlen x Hin off c st' c'.
  pose proof (wellformed_explodable st g w HC Hg Hw) as Hx.
  pose proof (xp_backref _ _ _ Hx x Hin) as Hback.
  pose proof (explodeGroup_member_state distance st _ g Hx Hlen x Hin) as Hst.
  fold st' off in Hst.
  assert (Hc : c' = translate c (explodeDelta off)) by (unfold c'; rewrite Hst; reflexivity).
  assert (Hh : Rectangle.halfSize (getState st' x) = Rectangle.halfSize (getState st x))
    by (rewrite Hst; reflexivity).
  assert (Hzx : (Point.x off == 0)%Q -> (Point.x c' == Point.x c)%Q).
  { intros Hz. rewrite Hc. unfold translate. cbn [Point.x].
    rewrite (explodeDelta_zero_x off Hz). ring. }
  assert (Hzy : (Point.y off == 0)%Q -> (Point.y c' == Point.y c)%Q).
  { intros Hz. rewrite Hc. unfold translate. cbn [Point.y].
    rewrite (explodeDelta_zero_y off Hz). ring. }
  split; [exact Hzx|]. split; [exact Hzy|].
  intros Hcalm.
  assert (Hoff : off = Point.mk 0 0).
  { apply calculateOffset_calm. rewrite Hback. exact Hcalm. }
  split; [exact Hoff|]. split; [|split].
  - apply Hzx. rewrite Hoff. reflexivity.
  - apply Hzy. rewrite Hoff. reflexivity.
  - exact Hh.
Qed.

Lemma explodeGroup_zero_offset_stays_witness :
  let off := calculateOffset gapDistance looseGroup 1 in
  let c := Rectangle.center (getState looseGroup 1) in
  let st' := explodeGroup gapDistance (getIdentity looseGroup 0) looseGroup in
  let c' := Rectangle.center (getState st' 1) in
  (In 0 (groups looseGroup) /\ In 0 (group_windows looseGroup 0)
   /\ 1 < group_length looseGroup 0 /\ In 1 (group_windows looseGroup 0))
  /\ ((Point.x off == 0)%Q /\ (Point.x c' == Point.x c)%Q)
  /\ ((Point.y off == 0)%Q /\ (Point.y c' == Point.y c)%Q)
  /\ ((forall o, In o (group_windows looseGroup 0) -> o <> 1 ->
                 repels (gapDistance (getState looseGroup 1) (getState looseGroup o)) = false)
      /\ off = Point.mk 0 0
      /\ (Point.x c' == Point.x c)%Q /\ (Point.y c' == Point.y c)%Q
      /\ Rectangle.halfSize (getState st' 1) = Rectangle.halfSize (getState looseGroup 1)).
Proof.
  assert (Hg : In 0 (groups looseGroup)) by (vm_compute; auto).
  assert (Hw : In 0 (group_windows looseGroup 0)) by (vm_compute; auto).
  assert (Hlen : 1 < group_length looseGroup 0) by (vm_compute; lia).
  assert (Hin : In 1 (group_windows looseGroup 0)) by (vm_compute; auto).
  destruct (explodeGroup_zero_offset_stays gapDistance looseGroup 0 0
              looseGroup_wf Hg Hw Hlen 1 Hin) as (Hx & Hy & Hcalm).
  assert (Hfar : forall o, In o (group_windows looseGroup 0) -> o <> 1 ->
                 repels (gapDistance (getState looseGroup 1) (getState looseGroup o)) = false).
  { intros o Ho Hne. vm_compute in Ho.
    destruct Ho as [<-|[<-|[]]]; [vm_compute; reflexivity|contradiction]. }
  split; [auto|]. split; [|split].
  - assert (Hz : (Point.x (calculateOffset gapDistance looseGroup 1%nat) == 0)%Q)
      by (vm_compute; reflexivity).
    split; [exact Hz|exact (Hx Hz)].
  - assert (Hz : (Point.y (calculateOffset gapDistance looseGroup 1%nat) == 0)%Q)
      by (vm_compute; reflexivity).
    split; [exact Hz|exact (Hy Hz)].
  - split; [exact Hfar|exact (Hcalm Hfar)].
Defined.

(** * Further results *)

(** ** [undock] *)

(** X1: in a well-formed state, undocking a registered window leaves it alone
    in a group created for it, takes it (and nothing else) out of its former
    group, and leaves the window registry and every other window as they
    were.  The former group stays registered when it had other members and
    leaves the registry when the window was its only member.  The state is
    well-formed again. *)
Theorem undock_isolates_the_window :
  forall (distance : Rectangle.t -> Rectangle.t -> MeasureResult.t)
         (st : State) (w : wid),
  WellFormed st ->
  In w (windows st) ->
  let prev := getGroup st w in
  let n := nextGroup st in
  let st' := undock distance (getIdentity st w) st in
  getGroup st' w = n
  /\ group_windows st' n = [w]
  /\ ~ In n (groups st)
  /\ group_windows st' prev = drop1 w (group_windows st prev)
  /\ windows st' = windows st
  /\ (forall x, x <> w -> wobj st' x = wobj st x)
  /\ (forall g, g <> prev -> g <> n -> gobj st' g = gobj st g)
  /\ (group_windows st prev <> [w] -> groups st' = groups st ++ [n])
  /\ (group_windows st prev = [w] -> groups st' = drop1 prev (groups st) ++ [n])
  /\ WellFormed st'.
Proof.
  intros distance st w HC Hw prev n st'.
  destruct (wellformed_member_fields st w HC Hw) as (Hfr & Hg & Hwd & Hm & Hnd & Hgnd).
  destruct (isolate_fields st prev w Hfr Hg Hwd Hm eq_refl)
    as (Hwo & Hoth & Hwins & Hnx & Hv & Hgn & Hgp & Hgo & Hmore & Hlast & Hem).
  assert (Hst : st' = offsetBy w (undockDelta (calculateOffset distance st w))
                        (setGroup w (nextGroup st) None None (snd (addGroup st))))
    by (apply undock_unfold; assumption).
  repeat apply conj.
  - rewrite Hst, offsetBy_getGroup. unfold getGroup. rewrite Hwo. reflexivity.
  - rewrite Hst. exact Hgn.
  - intros Hin. apply Hfr in Hin. unfold n in Hin. lia.
  - rewrite Hst. exact Hgp.
  - rewrite Hst. exact Hwins.
  - intros x Hx. rewrite Hst, offsetBy_other by exact Hx. apply Hoth. exact Hx.
  - intros g Hgp' Hgn'. rewrite Hst. apply Hgo; assumption.
  - intros Hne. rewrite Hst. apply Hmore. intros Habs. apply Hne.
    apply drop1_empty_single; assumption.
  - intros Heq. rewrite Hst. apply Hlast. fold prev. rewrite Heq. simpl.
    rewrite Nat.eqb_refl. reflexivity.
  - subst st'. apply undock_wf. exact HC.
Qed.

Lemma undock_isolates_the_window_witness :
  let st' := undock gapDistance (getIdentity docked 0) docked in
  In 0 (windows docked)
  /\ getGroup st' 0 = nextGroup docked
  /\ group_windows st' (nextGroup docked) = [0]
  /\ group_windows st' (getGroup docked 0) = drop1 0 (group_windows docked (getGroup docked 0))
  /\ windows st' = windows docked.
Proof.
  assert (Hin : In 0 (windows docked)) by (vm_compute; auto).
  destruct (undock_isolates_the_window gapDistance docked 0 docked_wf Hin)
    as (H1 & H2 & _ & H4 & H5 & _).
  repeat apply conj; assumption.
Defined.

(** X2: undocking a window that is alone in its group: no other window
    repels it, so its offset is zero and it is moved by exactly
    (+30, +30); its former group leaves the registry while the new one
    enters it, so the number of groups stays the same. *)
Theorem undock_of_a_lone_window :
  forall (distance : Rectangle.t -> Rectangle.t -> MeasureResult.t)
         (st : State) (w : wid),
  WellFormed st ->
  In w (windows st) ->
  group_windows st (getGroup st w) = [w] ->
  let c := Rectangle.center (getState st w) in
  let st' := undock distance (getIdentity st w) st in
  calculateOffset distance st w = Point.mk 0 0
  /\ Rectangle.center (getState st' w) = Point.mk (Point.x c + 30)%Q (Point.y c + 30)%Q
  /\ Rectangle.halfSize (getState st' w) = Rectangle.halfSize (getState st w)
  /\ ~ In (getGroup st w) (groups st')
  /\ List.length (groups st') = List.length (groups st).
Proof.
  intros distance st w HC Hw Hlone c st'.
  destruct (wellformed_member_fields st w HC Hw) as (Hfr & Hg & Hwd & Hm & Hnd & Hgnd).
  assert (Hoff : calculateOffset distance st w = Point.mk 0 0).
  { apply calculateOffset_calm. intros o Ho Hne. rewrite Hlone in Ho.
    destruct Ho as [<-|[]]. contradiction. }
  destruct (isolate_fields st (getGroup st w) w Hfr Hg Hwd Hm eq_refl)
    as (_ & _ & _ & _ & _ & _ & _ & _ & _ & Hlast & _).
  assert (Hrest : drop1 w (group_windows st (getGroup st w)) = []).
  { rewrite Hlone. simpl. rewrite Nat.eqb_refl. reflexivity. }
  destruct (Hlast Hrest) as [Hgr _].
  assert (Hst : st' = offsetBy w (undockDelta (calculateOffset distance st w))
                        (setGroup w (nextGroup st) None None (snd (addGroup st))))
    by (apply undock_unfold; assumption).
  assert (Hgroups : groups st' = drop1 (getGroup st w) (groups st) ++ [nextGroup st]).
  { rewrite Hst. exact Hgr. }
  assert (Hmove : getState st' w
                  = movedBy (undockDelta (calculateOffset distance st w)) (getState st w)).
  { apply undock_moves; [exact Hw|].
    intros w' Hw' Hid. exact (wf_identities _ _ HC w' w Hw' Hw Hid). }
  rewrite Hoff in Hmove.
  repeat apply conj.
  - exact Hoff.
  - rewrite Hmove. reflexivity.
  - rewrite Hmove. reflexivity.
  - rewrite Hgroups. intros Hin. apply in_app_or in Hin. destruct Hin as [Hin|[Heq|[]]].
    + exact (drop1_gone _ _ Hgnd Hin).
    + apply Hfr in Hg. rewrite <- Heq in Hg. exact (Nat.lt_irrefl _ Hg).
  - rewrite Hgroups, length_app. simpl.
    pose proof (drop1_length _ _ Hg). unfold gid in *. lia.
Qed.

Lemma undock_of_a_lone_window_witness :
  let c := Rectangle.center (getState twoWindows 1) in
  let st' := undock gapDistance (getIdentity twoWindows 1) twoWindows in
  (In 1 (windows twoWindows) /\ group_windows twoWindows (getGroup twoWindows 1) = [1])
  /\ calculateOffset gapDistance twoWindows 1 = Point.mk 0 0
  /\ Rectangle.center (getState st' 1) = Point.mk (Point.x c + 30)%Q (Point.y c + 30)%Q
  /\ Rectangle.halfSize (getState st' 1) = Rectangle.halfSize (getState twoWindows 1)
  /\ ~ In (getGroup twoWindows 1) (groups st')
  /\ List.length (groups st') = List.length (groups twoWindows).
Proof.
  assert (Hin : In 1 (windows twoWindows)) by (vm_compute; auto).
  assert (Hlone : group_windows twoWindows (getGroup twoWindows 1) = [1])
    by (vm_compute; reflexivity).
  split; [auto|].
  exact (undock_of_a_lone_window gapDistance twoWindows 1 twoWindows_wf Hin Hlone).
Defined.

(** X3: undocking a registered window makes the service announce exactly two
    things, in this order: the window was removed from its former group, and
    it was added to its new group.  The removal is announced also when it
    emptied the former group and so removed it from the registry. *)
Theorem undock_announces_removal_then_addition :
  forall (distance : Rectangle.t -> Rectangle.t -> MeasureResult.t)
         (st : State) (w : wid),
  WellFormed st ->
  In w (windows st) ->
  emitted (undock distance (getIdentity st w) st)
  = emitted st ++ [WindowRemoved (getGroup st w) w; WindowAdded (nextGroup st) w].
Proof.
  intros distance st w HC Hw.
  destruct (wellformed_member_fields st w HC Hw) as (Hfr & Hg & Hwd & Hm & Hnd & Hgnd).
  destruct (isolate_fields st (getGroup st w) w Hfr Hg Hwd Hm eq_refl)
    as (_ & _ & _ & _ & _ & _ & _ & _ & _ & _ & Hem).
  rewrite (undock_unfold distance st w HC Hw). exact Hem.
Qed.

Lemma undock_announces_removal_then_addition_witness :
  In 1 (windows twoWindows)
  /\ emitted (undock gapDistance (getIdentity twoWindows 1) twoWindows)
     = emitted twoWindows
       ++ [WindowRemoved (getGroup twoWindows 1) 1; WindowAdded (nextGroup twoWindows) 1].
Proof.
  assert (Hin : In 1 (windows twoWindows)) by (vm_compute; auto).
  split; [exact Hin|].
  exact (undock_announces_removal_then_addition gapDistance twoWindows 1 twoWindows_wf Hin).
Defined.

(** ** [addGroup] and [removeGroup] *)

(** X4: [removeGroup] on a group that is not in the registry changes nothing,
    even if the group is empty; hence, the registry holding no group twice,
    removing a group a second time changes nothing more. *)
Theorem removeGroup_twice :
  forall (st : State) (g : gid),
  (~ In g (groups st) -> removeGroup g st = st)
  /\ (NoDup (groups st) -> removeGroup g (removeGroup g st) = removeGroup g st).
Proof.
  intros st g.
  assert (Hout : forall s, ~ In g (groups s) -> removeGroup g s = s).
  { intros s Hnin. destruct (removeGroup_cases g s) as [[Heq _]|(_ & Hin & _)];
      [exact Heq|contradiction]. }
  split; [apply Hout|].
  intros Hnd. destruct (removeGroup_cases g st) as [[Heq _]|(_ & Hin & Hg & _)].
  - rewrite !Heq. reflexivity.
  - apply Hout. rewrite Hg. apply drop1_gone. exact Hnd.
Qed.

Lemma removeGroup_twice_witness :
  (~ In 5 (groups docked) /\ removeGroup 5 docked = docked)
  /\ (NoDup (groups pendingGroup)
      /\ removeGroup 0 (removeGroup 0 pendingGroup) = removeGroup 0 pendingGroup).
Proof.
  assert (Hnin : ~ In 5 (groups docked)) by (vm_compute; intuition discriminate).
  assert (Hnd : NoDup (groups pendingGroup)) by (vm_compute; repeat constructor; simpl; tauto).
  destruct (removeGroup_twice docked 5) as [Hout _].
  destruct (removeGroup_twice pendingGroup 0) as [_ Htwice].
  split; split; auto.
Defined.

(** X5: a group made by [addGroup] is new to the registry, is its last entry,
    is empty and has the five handlers attached; removing it right away
    gives back the registry as it was and detaches the handlers. *)
Theorem addGroup_then_removeGroup :
  forall (st : State),
  (forall g, In g (groups st) -> g < nextGroup st) ->
  let n := fst (addGroup st) in
  let st1 := snd (addGroup st) in
  ~ In n (groups st)
  /\ groups st1 = groups st ++ [n]
  /\ gobj st1 n = SnapGroup.mk [] true true true true true
  /\ (forall g, g <> n -> gobj st1 g = gobj st g)
  /\ groups (removeGroup n st1) = groups st
  /\ detached (gobj (removeGroup n st1) n).
Proof.
  intros st Hfr n st1.
  assert (Hnin : ~ In n (groups st)).
  { intros Hin. apply Hfr in Hin. unfold n in Hin. simpl in Hin. lia. }
  assert (Hn : gobj st1 n = SnapGroup.mk [] true true true true true)
    by (unfold st1, n; simpl; apply upd_same).
  split; [|split; [|split; [|split; [|split]]]].
  - exact Hnin.
  - reflexivity.
  - exact Hn.
  - intros g Hg. unfold st1. simpl. apply upd_other. exact Hg.
  - destruct (removeGroup_cases n st1) as [[_ [Hnz|Hout]]|(_ & _ & Hg & _)].
    + exfalso. apply Hnz. unfold group_length. rewrite Hn. reflexivity.
    + exfalso. apply Hout. unfold st1. simpl. apply in_or_app. right. left. reflexivity.
    + rewrite Hg. unfold st1. simpl. apply drop1_snoc_absent. exact Hnin.
  - destruct (removeGroup_cases n st1) as [[_ [Hnz|Hout]]|(_ & _ & _ & Ho & _)].
    + exfalso. apply Hnz. unfold group_length. rewrite Hn. reflexivity.
    + exfalso. apply Hout. unfold st1. simpl. apply in_or_app. right. left. reflexivity.
    + rewrite Ho, upd_same. repeat split.
Qed.

Lemma addGroup_then_removeGroup_witness :
  (forall g, In g (groups docked) -> g < nextGroup docked)
  /\ ~ In (fst (addGroup docked)) (groups docked)
  /\ groups (removeGroup (fst (addGroup docked)) (snd (addGroup docked))) = groups docked.
Proof.
  assert (Hfr : forall g, In g (groups docked) -> g < nextGroup docked).
  { intros g Hin. vm_compute in Hin. destruct Hin as [<-|[]]. vm_compute. lia. }
  destruct (addGroup_then_removeGroup docked Hfr) as (H1 & _ & _ & _ & H5 & _).
  repeat apply conj; assumption.
Defined.

(** ** [addWindow] *)

(** X6: admitting a window to a well-formed state appends a new window to the
    window registry and a new group to the group registry; the window holds
    the given identity and state, has the close handler attached, and is the
    only member of that group; nothing that existed before is changed, and
    the addition is announced.  If no registered window has the identity
    yet, the state is well-formed again. *)
Theorem addWindow_creates_a_singleton :
  forall (identity : WindowIdentity.t) (state : WindowState) (st : State),
  WellFormed st ->
  let w := fst (addWindow identity state st) in
  let g := nextGroup st in
  let st' := snd (addWindow identity state st) in
  ~ In w (windows st) /\ ~ In g (groups st)
  /\ windows st' = windows st ++ [w]
  /\ groups st' = groups st ++ [g]
  /\ wobj st' w = SnapWindow.mk identity state g true
  /\ group_windows st' g = [w]
  /\ (forall x, x <> w -> wobj st' x = wobj st x)
  /\ (forall g', g' <> g -> gobj st' g' = gobj st g')
  /\ emitted st' = emitted st ++ [WindowAdded g w]
  /\ ((forall x, In x (windows st) -> getIdentity st x <> identity) -> WellFormed st').
Proof.
  intros identity state st HC w g st'.
  destruct (addWindow_fields identity state st)
    as (Hw & Hws & Hgs & _ & _ & Hwo & Hoth & Hgo & Hgoth & _ & Hem).
  subst w g st'. rewrite Hw.
  split; [|split; [|split; [|split; [|split; [|split; [|split; [|split; [|split]]]]]]]].
  - intros Hin. apply (wf_window_fresh _ _ HC) in Hin. lia.
  - intros Hin. apply (reg_fresh _ _ (wf_registry _ _ HC)) in Hin. lia.
  - exact Hws.
  - exact Hgs.
  - exact Hwo.
  - unfold group_windows. rewrite Hgo. reflexivity.
  - exact Hoth.
  - exact Hgoth.
  - exact Hem.
  - intros Hnew. exact (addWindow_wf gapDistance noTarget identity state st HC Hnew).
Qed.

Lemma addWindow_creates_a_singleton_witness :
  let w := fst (addWindow idOther (square 40 0) docked) in
  let st' := snd (addWindow idOther (square 40 0) docked) in
  (forall x, In x (windows docked) -> getIdentity docked x <> idOther)
  /\ windows st' = windows docked ++ [w]
  /\ groups st' = groups docked ++ [nextGroup docked]
  /\ group_windows st' (nextGroup docked) = [w]
  /\ WellFormed st'.
Proof.
  assert (Hnew : forall x, In x (windows docked) -> getIdentity docked x <> idOther).
  { intros x Hin. vm_compute in Hin.
    destruct Hin as [<-|[<-|[]]]; vm_compute; discriminate. }
  destruct (addWindow_creates_a_singleton idOther (square 40 0) docked docked_wf)
    as (_ & _ & H3 & H4 & _ & H6 & _ & _ & _ & H10).
  exact (conj Hnew (conj H3 (conj H4 (conj H6 (H10 Hnew))))).
Defined.

(** ** [onWindowClosed] *)

(** X7: [onWindowClosed] takes the closed window out of the window registry
    and detaches its close handler, and does nothing else: the groups and
    their members are left as they were (the group removes the window
    itself).  For a window that is not registered it does nothing, so, the
    registry holding no window twice, a second call changes nothing more. *)
Theorem onWindowClosed_only_deregisters :
  forall (st : State) (w : wid),
  (~ In w (windows st) -> onWindowClosed w st = st)
  /\ (In w (windows st) ->
      let st' := onWindowClosed w st in
      windows st' = drop1 w (windows st)
      /\ SnapWindow.onClose (wobj st' w) = false
      /\ getGroup st' w = getGroup st w
      /\ groups st' = groups st /\ gobj st' = gobj st
      /\ (forall x, x <> w -> wobj st' x = wobj st x))
  /\ (NoDup (windows st) ->
      onWindowClosed w (onWindowClosed w st) = onWindowClosed w st).
Proof.
  intros st w. split; [apply onWindowClosed_unknown|]. split.
  - intros Hw st'.
    destruct (onWindowClosed_fields w st Hw) as (Hws & Hgs & Hgo & _ & _ & _ & _ & Hwo & Hoth).
    fold st' in Hws, Hgs, Hgo, Hwo, Hoth.
    repeat apply conj; auto.
    + rewrite Hwo. reflexivity.
    + unfold getGroup at 1. rewrite Hwo. reflexivity.
  - intros Hnd. destruct (in_dec Nat.eq_dec w (windows st)) as [Hw|Hnw].
    + apply onWindowClosed_unknown.
      rewrite (proj1 (onWindowClosed_fields w st Hw)). apply drop1_gone. exact Hnd.
    + rewrite !(onWindowClosed_unknown w st Hnw). reflexivity.
Qed.

Lemma onWindowClosed_only_deregisters_witness :
  (~ In 9 (windows docked) /\ onWindowClosed 9 docked = docked)
  /\ (In 1 (windows docked)
      /\ windows (onWindowClosed 1 docked) = drop1 1 (windows docked)
      /\ groups (onWindowClosed 1 docked) = groups docked
      /\ gobj (onWindowClosed 1 docked) = gobj docked)
  /\ (NoDup (windows docked)
      /\ onWindowClosed 1 (onWindowClosed 1 docked) = onWindowClosed 1 docked).
Proof.
  assert (Hnin : ~ In 9 (windows docked)) by (vm_compute; intuition discriminate).
  assert (Hin : In 1 (windows docked)) by (vm_compute; auto).
  assert (Hnd : NoDup (windows docked)) by exact (wf_windows_nodup _ _ docked_wf).
  destruct (onWindowClosed_only_deregisters docked 9) as (Hout & _).
  destruct (onWindowClosed_only_deregisters docked 1) as (_ & Hreg & Htwice).
  destruct (Hreg Hin) as (H1 & _ & _ & H4 & H5 & _).
  exact (conj (conj Hnin (Hout Hnin))
              (conj (conj Hin (conj H1 (conj H4 H5))) (conj Hnd (Htwice Hnd)))).
Defined.

(** ** A window closes *)

(** X8: when a registered window of a well-formed state closes, the service
    and the window's group both react: the window leaves the window registry
    and its group, one removal from that group is announced, and nothing
    else changes.  If the window was the last of its group, the group leaves
    the registry with its handlers detached; otherwise the group registry is
    as it was.  The state is well-formed again. *)
Theorem closing_a_window_removes_it :
  forall (st : State) (w : wid),
  WellFormed st ->
  In w (windows st) ->
  let g := getGroup st w in
  let st' := windowClosed w st in
  ~ In w (windows st')
  /\ windows st' = drop1 w (windows st)
  /\ group_windows st' g = drop1 w (group_windows st g)
  /\ ~ In w (group_windows st' g)
  /\ (forall g', g' <> g -> gobj st' g' = gobj st g')
  /\ (forall x, x <> w -> wobj st' x = wobj st x)
  /\ (group_windows st g <> [w] -> groups st' = groups st)
  /\ (group_windows st g = [w] ->
      groups st' = drop1 g (groups st) /\ ~ In g (groups st') /\ detached (gobj st' g))
  /\ emitted st' = emitted st ++ [WindowRemoved g w]
  /\ WellFormed st'.
Proof.
  intros st w HC Hw g st'.
  destruct (wellformed_member_fields st w HC Hw) as (Hfr & Hg & Hwd & Hm & Hnd & Hgnd).
  destruct (windowClosed_fields w st HC Hw)
    as (Hws & Hgw & Hoth & Hwo & Hmore & Hlast & Hem).
  fold g in Hgw, Hoth, Hmore, Hlast, Hem, Hm, Hnd. fold st' in Hws, Hgw, Hoth, Hwo, Hmore, Hlast, Hem.
  split; [rewrite Hws; apply drop1_gone; exact (wf_windows_nodup _ _ HC)|].
  split; [exact Hws|].
  split; [exact Hgw|].
  split; [rewrite Hgw; apply drop1_gone; exact Hnd|].
  split; [exact Hoth|].
  split; [exact Hwo|].
  split.
  { intros Hne. apply Hmore. intros Hr. apply Hne.
    apply drop1_empty_single; assumption. }
  split.
  { intros Heq.
    assert (Hr : drop1 w (group_windows st g) = []).
    { rewrite Heq. simpl. rewrite Nat.eqb_refl. reflexivity. }
    destruct (Hlast Hr) as [Hgr Hdet].
    split; [exact Hgr|]. split; [|exact Hdet].
    rewrite Hgr. apply drop1_gone. exact Hgnd. }
  split; [exact Hem|].
  apply windowClosed_wf. exact HC.
Qed.

Lemma closing_a_window_removes_it_witness :
  let st' := windowClosed 1 docked in
  In 1 (windows docked)
  /\ ~ In 1 (windows st')
  /\ windows st' = drop1 1 (windows docked)
  /\ group_windows st' (getGroup docked 1) = drop1 1 (group_windows docked (getGroup docked 1))
  /\ emitted st' = emitted docked ++ [WindowRemoved (getGroup docked 1) 1]
  /\ WellFormed st'.
Proof.
  assert (Hin : In 1 (windows docked)) by (vm_compute; auto).
  destruct (closing_a_window_removes_it docked 1 docked_wf Hin)
    as (H1 & H2 & H3 & _ & _ & _ & _ & _ & H9 & H10).
  exact (conj Hin (conj H1 (conj H2 (conj H3 (conj H9 H10))))).
Defined.

(** ** [applySnapTarget] *)

(** X9: a commit that goes through (the re-queried target is VALID, the
    global [foo] is not set, and the target group is another registered
    group) appends the members of the active group, in their order, to the
    members of the target group.  The active group is left empty and is
    taken out of the registry with its handlers detached, so the check that
    follows the loop finds it gone; no other group and no window outside the
    active group is touched, and the state is well-formed again. *)
Theorem commit_merges_into_the_target :
  forall (getSnapTarget : State -> list gid -> gid -> option SnapTarget.t)
         (st : State) (activeGroup : gid) (t : SnapTarget.t),
  WellFormed st ->
  In activeGroup (groups st) ->
  getSnapTarget st (groups st) activeGroup = Some t ->
  SnapTarget.validity t = VALID ->
  window_foo st = false ->
  In (SnapTarget.group t) (groups st) ->
  SnapTarget.group t <> activeGroup ->
  let st' := applySnapTarget getSnapTarget activeGroup st in
  group_windows st' (SnapTarget.group t)
  = group_windows st (SnapTarget.group t) ++ group_windows st activeGroup
  /\ group_windows st' activeGroup = []
  /\ groups st' = drop1 activeGroup (groups st)
  /\ (indexOf activeGroup (groups st') < 0)%Z
  /\ detached (gobj st' activeGroup)
  /\ windows st' = windows st
  /\ (forall g, g <> activeGroup -> g <> SnapTarget.group t -> gobj st' g = gobj st g)
  /\ (forall w, ~ In w (group_windows st activeGroup) -> wobj st' w = wobj st w)
  /\ WellFormed st'.
Proof.
  intros getSnapTarget st g t HC Hg Hres Hvalid Hfoo Htg Hne st'.
  pose proof (wf_registry _ _ HC) as HR.
  assert (Hnonempty : group_windows st g <> [])
    by (apply (reg_nonempty _ _ HR g Hg); intros []).
  destruct (merge_loop t g Hne (group_windows st g) st Hnonempty
              (wf_members_nodup _ _ HC g Hg) Hg (reg_wired _ _ HR g Hg) eq_refl
              (fun w Hw => proj2 (wf_member_home _ _ HC g w Hg Hw)))
    as (H1 & H2 & H3 & H4 & H5 & H6 & H7).
  assert (Est : st' = set_view emptyView
                        (fold_left (applyOne t) (group_windows st g) st)).
  { unfold st', applySnapTarget. rewrite Hres, Hvalid, Hfoo. reflexivity. }
  rewrite Est.
  split; [exact H1|]. split; [exact H2|]. split; [exact H3|].
  split.
  { destruct (Z.lt_ge_cases (indexOf g (drop1 g (groups st))) 0) as [Hlt|Hge].
    - cbn [groups set_view]. rewrite H3. exact Hlt.
    - apply indexOf_found in Hge. exfalso.
      exact (drop1_gone _ _ (reg_nodup _ _ HR) Hge). }
  split; [exact H4|]. split; [exact H5|]. split; [exact H6|]. split; [exact H7|].
  rewrite <- Est. apply applySnapTarget_wf; [exact HC|].
  split; [exact Hg|]. intros t' Ht'. rewrite Hres in Ht'. inversion Ht'; subst t'.
  split; assumption.
Qed.

Lemma commit_merges_into_the_target_witness :
  let st' := applySnapTarget (dockOnto 0 1 VALID) 1 twoWindows in
  (In 1 (groups twoWindows) /\ window_foo twoWindows = false /\ In 0 (groups twoWindows))
  /\ group_windows st' 0 = group_windows twoWindows 0 ++ group_windows twoWindows 1
  /\ group_windows st' 1 = []
  /\ groups st' = drop1 1 (groups twoWindows)
  /\ windows st' = windows twoWindows
  /\ WellFormed st'.
Proof.
  assert (Hg : In 1 (groups twoWindows)) by (vm_compute; auto).
  assert (Hfoo : window_foo twoWindows = false) by (vm_compute; reflexivity).
  assert (Htg : In 0 (groups twoWindows)) by (vm_compute; auto).
  assert (Hne : 0 <> 1) by discriminate.
  destruct (commit_merges_into_the_target (dockOnto 0 1 VALID) twoWindows 1
              (SnapTarget.mk 0 1 (Point.mk 0 0) None VALID)
              twoWindows_wf Hg eq_refl eq_refl Hfoo Htg Hne)
    as (H1 & H2 & H3 & _ & _ & H6 & _ & _ & H9).
  exact (conj (conj Hg (conj Hfoo Htg)) (conj H1 (conj H2 (conj H3 (conj H6 H9))))).
Defined.

(** ** [explodeGroup] *)

(** X10: exploding a registered group of a well-formed state touches that
    group and its windows only.  The window registry and the view are as
    before; the windows outside the group are as before; the windows of the
    group keep their identity and their close handler; every other
    registered group is as before and still registered; the exploded group
    is left empty with its handlers detached; and the registry has grown by
    the size of the group minus one. *)
Theorem explodeGroup_touches_only_its_group :
  forall (distance : Rectangle.t -> Rectangle.t -> MeasureResult.t)
         (st : State) (g : gid) (w : wid),
  WellFormed st ->
  In g (groups st) ->
  In w (group_windows st g) ->
  1 < group_length st g ->
  let st' := explodeGroup distance (getIdentity st w) st in
  windows st' = windows st
  /\ view st' = view st
  /\ (forall x, ~ In x (group_windows st g) -> wobj st' x = wobj st x)
  /\ (forall x, In x (group_windows st g) ->
        getIdentity st' x = getIdentity st x
        /\ SnapWindow.onClose (wobj st' x) = SnapWindow.onClose (wobj st x))
  /\ (forall g', In g' (groups st) -> g' <> g ->
        gobj st' g' = gobj st g' /\ In g' (groups st'))
  /\ group_windows st' g = []
  /\ detached (gobj st' g)
  /\ S (List.length (groups st')) = List.length (groups st) + group_length st g.
Proof.
  intros distance st g w HC Hg Hw Hlen st'.
  pose proof (explodeGroup_exploded distance st (getIdentity st w) g
                (wellformed_explodable st g w HC Hg Hw) Hlen) as HE.
  fold st' in HE.
  destruct HE as [Hgr _ Hws Hv Hempty Hdet Hog How Hmem].
  pose proof (wf_registry _ _ HC) as HR.
  split; [exact Hws|]. split; [exact Hv|]. split; [exact How|].
  split.
  { intros x Hx. destruct (In_nth_error _ _ Hx) as [i Hi].
    pose proof (map_nth_error (calculateOffset distance st) i _ Hi) as Hoff.
    destruct (Hmem i x _ Hi Hoff) as (Hwo & _).
    unfold getIdentity at 1. rewrite Hwo. split; reflexivity. }
  split.
  { intros g' Hg' Hne. split.
    - apply Hog; [exact Hne|]. exact (reg_fresh _ _ HR g' Hg').
    - rewrite Hgr. apply in_or_app. left. apply drop1_keeps; assumption. }
  split; [exact Hempty|]. split; [exact Hdet|].
  rewrite Hgr, length_app, length_seq.
  pose proof (drop1_length g (groups st) Hg) as Hd.
  unfold group_length, SnapGroup.length. fold (group_windows st g).
  unfold gid, wid in *. lia.
Qed.

Lemma explodeGroup_touches_only_its_group_witness :
  let st' := explodeGroup gapDistance (getIdentity docked 0) docked in
  (In 0 (groups docked) /\ In 0 (group_windows docked 0) /\ 1 < group_length docked 0)
  /\ windows st' = windows docked
  /\ view st' = view docked
  /\ group_windows st' 0 = []
  /\ S (List.length (groups st')) = List.length (groups docked) + group_length docked 0.
Proof.
  assert (Hg : In 0 (groups docked)) by (vm_compute; auto).
  assert (Hw : In 0 (group_windows docked 0)) by (vm_compute; auto).
  assert (Hlen : 1 < group_length docked 0) by (vm_compute; lia).
  destruct (explodeGroup_touches_only_its_group gapDistance docked 0 0 docked_wf Hg Hw Hlen)
    as (H1 & H2 & _ & _ & _ & H6 & _ & H8).
  exact (conj (conj Hg (conj Hw Hlen)) (conj H1 (conj H2 (conj H6 H8)))).
Defined.

(** ** [calculateOffset] *)

(** X11: each component of the offset [calculateOffset] returns is a whole
    number whose magnitude is at most the number of other members of the
    window's group that meet the guard; that number is at most the size of
    the group, and below it when the window is a member of the group it
    refers to.  However large the overlaps, a window docked to one other
    window gets an offset of at most 1 on each axis. *)
Theorem calculateOffset_is_bounded :
  forall (distance : Rectangle.t -> Rectangle.t -> MeasureResult.t)
         (st : State) (w : wid),
  let off := calculateOffset distance st w in
  let others := repelling distance st w in
  (exists zx zy : Z,
     (Point.x off == inject_Z zx)%Q /\ (Point.y off == inject_Z zy)%Q
     /\ (Z.abs zx <= Z.of_nat (List.length others))%Z
     /\ (Z.abs zy <= Z.of_nat (List.length others))%Z)
  /\ List.length others <= group_length st (getGroup st w)
  /\ (In w (group_windows st (getGroup st w)) ->
      List.length others < group_length st (getGroup st w)).
Proof.
  intros distance st w off others. split; [|split].
  - destruct (fold_translate_integral (map (push distance st w) others)) with
      (acc := Point.mk 0 0) (za := 0%Z) (zb := 0%Z)
      as (zx & zy & Hx & Hy & Hbx & Hby).
    + intros p Hp. apply in_map_iff in Hp. destruct Hp as (o & <- & _).
      eexists. eexists. split; [reflexivity|]. split; [reflexivity|].
      split; apply Zsgn_bound.
    + reflexivity.
    + reflexivity.
    + exists zx, zy. unfold off. rewrite calculateOffset_pushes. fold others.
      rewrite length_map in Hbx, Hby. rewrite Z.sub_0_r in Hbx, Hby.
      repeat split; assumption.
  - unfold others, repelling, group_length, SnapGroup.length.
    apply filter_length_le.
  - intros Hin. unfold others, repelling, group_length, SnapGroup.length.
    apply (filter_length_lt _ _ w Hin). rewrite Nat.eqb_refl. reflexivity.
Qed.

Lemma calculateOffset_is_bounded_witness :
  In 0 (group_windows docked (getGroup docked 0))
  /\ List.length (repelling gapDistance docked 0) < group_length docked (getGroup docked 0).
Proof.
  assert (Hin : In 0 (group_windows docked (getGroup docked 0))) by (vm_compute; auto).
  destruct (calculateOffset_is_bounded gapDistance docked 0) as (_ & _ & H3).
  exact (conj Hin (H3 Hin)).
Defined.

(** ** The registries, taken together *)

(** X12: in every state the service gets into while the environment keeps
    its side, the registered groups partition the registered windows: the
    member lists of the registered groups, put end to end, hold every
    registered window exactly once and nothing else; so no window is in two
    registered groups, and the number of registered windows is the sum of
    the sizes of the registered groups.  Each registered window refers to
    the registered group that holds it. *)
Theorem groups_partition_the_windows :
  forall (distance : Rectangle.t -> Rectangle.t -> MeasureResult.t)
         (getSnapTarget : State -> list gid -> gid -> option SnapTarget.t)
         (st : State),
  attainable distance getSnapTarget st ->
  let members := flat_map (group_windows st) (groups st) in
  NoDup members
  /\ (forall w, In w (windows st) <-> In w members)
  /\ List.length (windows st) = list_sum (map (group_length st) (groups st))
  /\ (forall w g g', In g (groups st) -> In g' (groups st) ->
        In w (group_windows st g) -> In w (group_windows st g') -> g = g')
  /\ (forall w, In w (windows st) ->
        In (getGroup st w) (groups st) /\ In w (group_windows st (getGroup st w))).
Proof.
  intros distance getSnapTarget st Hatt members.
  pose proof (attainable_wf _ _ _ Hatt) as HC.
  destruct (wellformed_partition st HC) as [Hnd Hiff]. fold members in Hnd, Hiff.
  split; [exact Hnd|]. split; [exact Hiff|]. split; [|split].
  - rewrite (same_members_same_length _ members (wf_windows_nodup _ _ HC) Hnd Hiff).
    unfold members. clear. induction (groups st) as [|g l IH]; [reflexivity|].
    cbn [flat_map map list_sum]. rewrite length_app, IH. reflexivity.
  - intros w g g' Hg Hg' Hw Hw'.
    rewrite <- (proj2 (wf_member_home _ _ HC g w Hg Hw)).
    exact (proj2 (wf_member_home _ _ HC g' w Hg' Hw')).
  - exact (wf_window_home _ _ HC).
Qed.

Lemma groups_partition_the_windows_witness :
  NoDup (flat_map (group_windows docked) (groups docked))
  /\ List.length (windows docked) = list_sum (map (group_length docked) (groups docked)).
Proof.
  destruct (groups_partition_the_windows gapDistance (dockOnto 0 1 VALID) docked
              docked_attainable) as (H1 & _ & H3 & _).
  exact (conj H1 H3).
Defined.

(** X13: in every state the service can reach, it listens to exactly the
    groups of its registry: [addGroup] attaches the five handlers to the
    group it registers, [removeGroup] detaches all five from the group it
    takes out, and nothing else attaches or detaches one.  So a registered
    group has all five handlers attached, a group outside the registry has
    none, and a transform or a commit signalled by a group that has left the
    registry is not acted upon. *)
Theorem service_listens_to_registered_groups_only :
  forall (distance : Rectangle.t -> Rectangle.t -> MeasureResult.t)
         (getSnapTarget : State -> list gid -> gid -> option SnapTarget.t)
         (st : State),
  reachable distance getSnapTarget st ->
  (forall g, In g (groups st) -> attached (gobj st g))
  /\ (forall g, ~ In g (groups st) ->
        detached (gobj st g)
        /\ handle distance getSnapTarget (GroupTransform g) st = st
        /\ handle distance getSnapTarget (GroupCommit g) st = st).
Proof.
  intros distance getSnapTarget st Hr.
  destruct (reachable_listening distance getSnapTarget st Hr) as [_ _ Hreg Hun].
  split; [exact Hreg|].
  intros g Hg. pose proof (Hun g Hg) as Hh.
  split; [apply handlers_detached; exact Hh|].
  unfold handlers in Hh. injection Hh as _ Ht Hc _ _.
  cbn [handle]. rewrite Ht, Hc. split; reflexivity.
Qed.

Lemma service_listens_to_registered_groups_only_witness :
  (In 0 (groups docked) /\ attached (gobj docked 0))
  /\ ~ In 1 (groups docked)
  /\ detached (gobj docked 1)
  /\ handle gapDistance (dockOnto 0 1 VALID) (GroupCommit 1) docked = docked.
Proof.
  assert (Hin : In 0 (groups docked)) by (vm_compute; auto).
  assert (Hout : ~ In 1 (groups docked)) by (vm_compute; intuition discriminate).
  destruct (service_listens_to_registered_groups_only gapDistance (dockOnto 0 1 VALID) docked
              (attainable_reachable _ _ _ docked_attainable)) as (H1 & H2).
  destruct (H2 1 Hout) as (H3 & _ & H5).
  exact (conj (conj Hin (H1 0 Hin)) (conj Hout (conj H3 H5))).
Defined.

(** X14: while the environment keeps its side, a commit that goes through
    makes the service announce, for each member of the active group in the
    group's order, first its removal from the active group and then its
    addition to the target group, and nothing else. *)
Theorem commit_announces_each_move :
  forall (distance : Rectangle.t -> Rectangle.t -> MeasureResult.t)
         (getSnapTarget : State -> list gid -> gid -> option SnapTarget.t)
         (st : State) (activeGroup : gid) (t : SnapTarget.t),
  attainable distance getSnapTarget st ->
  expected getSnapTarget st (GroupCommit activeGroup) ->
  getSnapTarget st (groups st) activeGroup = Some t ->
  SnapTarget.validity t = VALID ->
  window_foo st = false ->
  emitted (handle distance getSnapTarget (GroupCommit activeGroup) st)
  = emitted st
    ++ flat_map (fun w => [WindowRemoved activeGroup w;
                           WindowAdded (SnapTarget.group t) w])
         (group_windows st activeGroup).
Proof.
  intros distance getSnapTarget st g t Hatt [Hg Hexp] Hres Hvalid Hfoo.
  destruct (Hexp t Hres) as [Htg Hne].
  pose proof (attainable_wf _ _ _ Hatt) as HC.
  pose proof (reachable_listening _ _ _ (attainable_reachable _ _ _ Hatt)) as HL.
  pose proof (wf_registry _ _ HC) as HR.
  assert (Hnonempty : group_windows st g <> [])
    by (apply (reg_nonempty _ _ HR g Hg); intros []).
  assert (Hc : SnapGroup.onCommit (gobj st g) = true).
  { pose proof (ls_registered _ HL g Hg) as Ha. unfold attached, handlers in Ha.
    injection Ha as _ _ -> _ _. reflexivity. }
  cbn [handle]. rewrite Hc. unfold applySnapTarget. rewrite Hres, Hvalid, Hfoo.
  cbn [eSnapValidity_eqb negb andb]. unfold view_update.
  change (emitted (set_view ?v ?s)) with (emitted s).
  apply merge_loop_emitted; auto.
  - exact (wf_members_nodup _ _ HC g Hg).
  - intros w Hw. exact (proj2 (wf_member_home _ _ HC g w Hg Hw)).
Qed.

Lemma commit_announces_each_move_witness :
  expected (dockOnto 0 1 VALID) twoWindows (GroupCommit 1)
  /\ window_foo twoWindows = false
  /\ emitted (handle gapDistance (dockOnto 0 1 VALID) (GroupCommit 1) twoWindows)
     = emitted twoWindows
       ++ flat_map (fun w => [WindowRemoved 1 w; WindowAdded 0 w])
            (group_windows twoWindows 1).
Proof.
  assert (Hexp : expected (dockOnto 0 1 VALID) twoWindows (GroupCommit 1)).
  { split; [vm_compute; auto|]. intros t Ht. injection Ht as <-.
    split; [vm_compute; auto|discriminate]. }
  assert (Hfoo : window_foo twoWindows = false) by (vm_compute; reflexivity).
  exact (conj Hexp (conj Hfoo
           (commit_announces_each_move gapDistance (dockOnto 0 1 VALID) twoWindows 1
              (SnapTarget.mk 0 1 (Point.mk 0 0) None VALID)
              twoWindows_attainable Hexp eq_refl eq_refl Hfoo))).
Defined.

(** ** [snapGroup] *)



(** * The preview overlay *)

(** ** [hide] *)

(** X16: [hide] leaves no preview active.  The preview window that was
    active gets opacity 0 and keeps its bounds, its style and its cached
    opacity; every other preview window, and the last scope, are as before.
    Hiding twice is the same as hiding once. *)
Theorem hide_blanks_the_active_preview :
  forall (Scope : Type) (p : Preview.t Scope),
  Preview.activeWindowPreview (Preview.hide p) = None
  /\ Preview.lastScope (Preview.hide p) = Preview.lastScope p
  /\ (forall ty v,
        let d := Preview.previewWindows p ty v in
        let d' := Preview.previewWindows (Preview.hide p) ty v in
        Preview.bounds d' = Preview.bounds d
        /\ Preview.background d' = Preview.background d
        /\ Preview.border d' = Preview.border d
        /\ Preview.opacity d' = Preview.opacity d
        /\ Preview.windowOpacity d'
           = if isActive p ty v then 0%Q else Preview.windowOpacity d)
  /\ Preview.hide (Preview.hide p) = Preview.hide p.
Proof.
  intros Scope p.
  split; [apply hide_active|]. split; [apply hide_lastScope|]. split.
  - intros ty v d d'. unfold d'. rewrite hide_window. fold d.
    destruct (isActive p ty v); repeat split; reflexivity.
  - pose proof (hide_active _ p) as Hnone. revert Hnone.
    generalize (Preview.hide p). intros q Hq.
    unfold Preview.hide. rewrite Hq. reflexivity.
Qed.

(** ** The preview, whatever is asked of it *)

(** X17: at most one preview window is visible at a time.  After any
    sequence of [show], [hide] and transform calls on a new preview, every
    preview window other than the active one has opacity 0; so when no
    preview is active, all of them have. *)
Theorem at_most_one_preview_is_visible :
  forall (Scope : Type) (deepEqual : Scope -> Scope -> bool)
         (query : Scope -> Preview.PreviewType -> Preview.Validity -> Preview.Overlay)
         (calls : list (PreviewCall Scope)),
  let p := after Scope deepEqual query calls in
  OneVisible p
  /\ (forall ty v, Preview.activeWindowPreview p <> Some (ty, v) ->
        Preview.windowOpacity (Preview.previewWindows p ty v) = 0%Q)
  /\ (Preview.activeWindowPreview p = None ->
      forall ty v, Preview.windowOpacity (Preview.previewWindows p ty v) = 0%Q).
Proof.
  intros Scope deepEqual query calls p.
  pose proof (after_oneVisible Scope deepEqual query calls) as HP. fold p in HP.
  split; [exact HP|]. split.
  - intros ty v Hne. apply HP. unfold isActive.
    destruct (Preview.activeWindowPreview p) as [a|]; [|reflexivity].
    destruct (Preview.sameKey (ty, v) a) eqn:Hk; [|reflexivity].
    apply sameKey_eq in Hk. congruence.
  - intros Hnone ty v. apply HP. unfold isActive. rewrite Hnone. reflexivity.
Qed.

Lemma at_most_one_preview_is_visible_witness :
  let p := after nat Nat.eqb sampleQuery [Show sampleSnap; Show sampleTab; Hide] in
  Preview.activeWindowPreview p = None
  /\ forall ty v, Preview.windowOpacity (Preview.previewWindows p ty v) = 0%Q.
Proof.
  assert (Hnone : Preview.activeWindowPreview
                    (after nat Nat.eqb sampleQuery [Show sampleSnap; Show sampleTab; Hide])
                  = None) by (vm_compute; reflexivity).
  destruct (at_most_one_preview_is_visible nat Nat.eqb sampleQuery
              [Show sampleSnap; Show sampleTab; Hide]) as (_ & _ & H3).
  exact (conj Hnone (H3 Hnone)).
Defined.

(** ** [show] *)

(** X18: [show] makes the preview window picked by the target's type and
    validity the active one, and gives it the opacity that was cached for it
    when [show] began, before the styles of the target's scope are applied.
    So when the scope is not the last one applied, the window is shown with
    the opacity of the previous scope, and the cache holds the opacity
    configured for the new scope only afterwards: showing the same target
    once more gives the window that opacity.  On a new preview the first
    [show] leaves the picked window at opacity 0. *)
Theorem show_gives_the_opacity_cached_before :
  forall (Scope : Type) (deepEqual : Scope -> Scope -> bool)
         (query : Scope -> Preview.PreviewType -> Preview.Validity -> Preview.Overlay)
         (target : Preview.PreviewableTarget Scope) (p : Preview.t Scope),
  let ty := fst (keyOf target) in
  let v := snd (keyOf target) in
  let sc := Preview.scope (Preview.activeWindow target) in
  let p' := Preview.show deepEqual query target p in
  Preview.activeWindowPreview p' = Some (ty, v)
  /\ Preview.windowOpacity (Preview.previewWindows p' ty v)
     = Preview.opacity (Preview.previewWindows p ty v)
  /\ (sameAsLastScope deepEqual sc p = true ->
      Preview.opacity (Preview.previewWindows p' ty v)
      = Preview.opacity (Preview.previewWindows p ty v))
  /\ (sameAsLastScope deepEqual sc p = false ->
      Preview.opacity (Preview.previewWindows p' ty v)
      = Preview.overlayOpacity (query sc ty v)
      /\ Preview.windowOpacity
           (Preview.previewWindows (Preview.show deepEqual query target p') ty v)
         = Preview.overlayOpacity (query sc ty v))
  /\ Preview.windowOpacity
       (Preview.previewWindows (Preview.show deepEqual query target newPreview) ty v)
     = 0%Q.
Proof.
  intros Scope deepEqual query target p ty v sc p'.
  assert (Hpick : forall q,
            Preview.previewWindows (Preview.show deepEqual query target q) ty v
            = Preview.previewWindows (shown deepEqual query target q) ty v).
  { intros q. rewrite show_window.
    change (ty, v) with (keyOf target). rewrite sameKey_refl, andb_false_r. reflexivity. }
  assert (Hwin : forall q,
            Preview.windowOpacity
              (Preview.previewWindows (Preview.show deepEqual query target q) ty v)
            = Preview.opacity (Preview.previewWindows q ty v)).
  { intros q. rewrite Hpick. unfold ty, v. rewrite shown_picked. reflexivity. }
  assert (Hcache : Preview.opacity (Preview.previewWindows p' ty v)
                   = Preview.opacity
                       (Preview.previewWindows
                          (Preview.applyScopeStyles deepEqual query sc p) ty v)).
  { unfold p'. rewrite Hpick. unfold ty, v. rewrite shown_picked. reflexivity. }
  split; [apply show_active|]. split; [apply Hwin|]. split; [|split].
  - intros Hsame. rewrite Hcache, applyScopeStyles_cases, Hsame. reflexivity.
  - intros Hnew.
    assert (Hc : Preview.opacity (Preview.previewWindows p' ty v)
                 = Preview.overlayOpacity (query sc ty v))
      by (rewrite Hcache, applyScopeStyles_cases, Hnew; reflexivity).
    split; [exact Hc|]. rewrite Hwin. exact Hc.
  - rewrite Hwin. reflexivity.
Qed.

Lemma show_gives_the_opacity_cached_before_witness :
  let p := Preview.show Nat.eqb sampleQuery sampleSnap newPreview in
  sameAsLastScope Nat.eqb (Preview.scope (Preview.activeWindow sampleSnap)) newPreview = false
  /\ Preview.windowOpacity (Preview.previewWindows p Preview.snap Preview.VALID) = 0%Q
  /\ Preview.opacity (Preview.previewWindows p Preview.snap Preview.VALID) = (8 # 10)%Q
  /\ Preview.windowOpacity
       (Preview.previewWindows (Preview.show Nat.eqb sampleQuery sampleSnap p)
          Preview.snap Preview.VALID) = (8 # 10)%Q.
Proof.
  assert (Hnew : sameAsLastScope Nat.eqb (Preview.scope (Preview.activeWindow sampleSnap))
                   newPreview = false) by reflexivity.
  destruct (show_gives_the_opacity_cached_before nat Nat.eqb sampleQuery sampleSnap newPreview)
    as (_ & H2 & _ & H4 & _).
  destruct (H4 Hnew) as [H5 H6].
  exact (conj Hnew (conj H2 (conj H5 H6))).
Defined.

(** X19: when [show] picks another preview window than the active one, the
    window that was active gets opacity 0 and is no longer the active one.
    [show] moves no window but the one it picks: every other preview window
    keeps its bounds. *)
Theorem show_hides_the_previous_preview :
  forall (Scope : Type) (deepEqual : Scope -> Scope -> bool)
         (query : Scope -> Preview.PreviewType -> Preview.Validity -> Preview.Overlay)
         (target : Preview.PreviewableTarget Scope) (p : Preview.t Scope)
         (ty : Preview.PreviewType) (v : Preview.Validity),
  Preview.sameKey (ty, v) (keyOf target) = false ->
  let p' := Preview.show deepEqual query target p in
  Preview.bounds (Preview.previewWindows p' ty v)
  = Preview.bounds (Preview.previewWindows p ty v)
  /\ isActive p' ty v = false
  /\ (isActive p ty v = true ->
      Preview.windowOpacity (Preview.previewWindows p' ty v) = 0%Q)
  /\ (isActive p ty v = false ->
      Preview.windowOpacity (Preview.previewWindows p' ty v)
      = Preview.windowOpacity (Preview.previewWindows p ty v)).
Proof.
  intros Scope deepEqual query target p ty v Hne p'.
  pose proof (applyScopeStyles_frame _ deepEqual query
                (Preview.scope (Preview.activeWindow target)) p) as [_ Hframe].
  destruct (Hframe ty v) as [Hb Ho].
  unfold p'. rewrite show_window, Hne. cbn [negb]. rewrite andb_true_r.
  rewrite shown_other by exact Hne.
  split; [destruct (isActive p ty v); exact Hb|].
  split; [unfold isActive; rewrite show_active; exact Hne|].
  split; intros Hact; rewrite Hact; [reflexivity|exact Ho].
Qed.

Lemma show_hides_the_previous_preview_witness :
  let p := Preview.show Nat.eqb sampleQuery sampleSnap
             (Preview.show Nat.eqb sampleQuery sampleSnap newPreview) in
  let p' := Preview.show Nat.eqb sampleQuery sampleTab p in
  (Preview.sameKey (Preview.snap, Preview.VALID) (keyOf sampleTab) = false
   /\ isActive p Preview.snap Preview.VALID = true)
  /\ Preview.windowOpacity (Preview.previewWindows p Preview.snap Preview.VALID) = (8 # 10)%Q
  /\ Preview.windowOpacity (Preview.previewWindows p' Preview.snap Preview.VALID) = 0%Q
  /\ Preview.bounds (Preview.previewWindows p' Preview.snap Preview.VALID)
     = Preview.bounds (Preview.previewWindows p Preview.snap Preview.VALID)
  /\ isActive p' Preview.snap Preview.VALID = false.
Proof.
  assert (Hne : Preview.sameKey (Preview.snap, Preview.VALID) (keyOf sampleTab) = false)
    by reflexivity.
  assert (Hact : isActive (Preview.show Nat.eqb sampleQuery sampleSnap
                             (Preview.show Nat.eqb sampleQuery sampleSnap newPreview))
                   Preview.snap Preview.VALID = true) by reflexivity.
  assert (Hop : Preview.windowOpacity
                  (Preview.previewWindows
                     (Preview.show Nat.eqb sampleQuery sampleSnap
                        (Preview.show Nat.eqb sampleQuery sampleSnap newPreview))
                     Preview.snap Preview.VALID) = (8 # 10)%Q) by reflexivity.
  destruct (show_hides_the_previous_preview nat Nat.eqb sampleQuery sampleTab
              (Preview.show Nat.eqb sampleQuery sampleSnap
                 (Preview.show Nat.eqb sampleQuery sampleSnap newPreview))
              Preview.snap Preview.VALID Hne) as (H1 & H2 & H3 & _).
  exact (conj (conj Hne Hact) (conj Hop (conj (H3 Hact) (conj H1 H2)))).
Defined.

(** ** [applyScopeStyles] *)

(** X20: [applyScopeStyles] does nothing when the scope is deep-equal to the
    last one applied.  Otherwise it gives every preview window the
    background and border configured for the scope, caches the configured
    opacity for each, and remembers the scope.  Either way it leaves the
    bounds and the opacity of every preview window, and the active preview,
    as they were; and if the scope is deep-equal to itself, applying it
    again changes nothing, as does the transform of a group whose first
    window has that scope. *)
Theorem applyScopeStyles_loads_every_preview :
  forall (Scope : Type) (deepEqual : Scope -> Scope -> bool)
         (query : Scope -> Preview.PreviewType -> Preview.Validity -> Preview.Overlay)
         (sc : Scope) (p : Preview.t Scope),
  let p' := Preview.applyScopeStyles deepEqual query sc p in
  (sameAsLastScope deepEqual sc p = true -> p' = p)
  /\ (sameAsLastScope deepEqual sc p = false ->
      Preview.lastScope p' = Some sc
      /\ forall ty v,
           Preview.opacity (Preview.previewWindows p' ty v)
           = Preview.overlayOpacity (query sc ty v)
           /\ Preview.background (Preview.previewWindows p' ty v)
              = Preview.overlayBackground (query sc ty v)
           /\ Preview.border (Preview.previewWindows p' ty v)
              = Preview.overlayBorder (query sc ty v))
  /\ Preview.activeWindowPreview p' = Preview.activeWindowPreview p
  /\ (forall ty v,
        Preview.bounds (Preview.previewWindows p' ty v)
        = Preview.bounds (Preview.previewWindows p ty v)
        /\ Preview.windowOpacity (Preview.previewWindows p' ty v)
           = Preview.windowOpacity (Preview.previewWindows p ty v))
  /\ (deepEqual sc sc = true ->
      Preview.applyScopeStyles deepEqual query sc p' = p'
      /\ forall target, Preview.scope target = sc ->
           onTransform Scope deepEqual query None target p' = p').
Proof.
  intros Scope deepEqual query sc p p'.
  assert (Hagain : deepEqual sc sc = true ->
                   Preview.applyScopeStyles deepEqual query sc p' = p').
  { intros Hrefl. unfold p'. rewrite (applyScopeStyles_cases _ deepEqual query sc p).
    destruct (sameAsLastScope deepEqual sc p) eqn:Hsame.
    - rewrite applyScopeStyles_cases, Hsame. reflexivity.
    - rewrite applyScopeStyles_cases. unfold sameAsLastScope at 1.
      cbn [Preview.lastScope]. rewrite Hrefl. reflexivity. }
  split; [intros Hsame; unfold p'; rewrite applyScopeStyles_cases, Hsame; reflexivity|].
  split.
  { intros Hnew. unfold p'. rewrite applyScopeStyles_cases, Hnew.
    split; [reflexivity|]. intros ty v. repeat split. }
  split; [apply applyScopeStyles_frame|]. split; [apply applyScopeStyles_frame|].
  intros Hrefl. split; [exact (Hagain Hrefl)|].
  intros target Hsc. unfold onTransform. rewrite Hsc. exact (Hagain Hrefl).
Qed.

Lemma applyScopeStyles_loads_every_preview_witness :
  let p' := Preview.applyScopeStyles Nat.eqb sampleQuery 7 newPreview in
  (sameAsLastScope Nat.eqb 7 newPreview = false /\ Nat.eqb 7 7 = true)
  /\ Preview.lastScope p' = Some 7
  /\ Preview.opacity (Preview.previewWindows p' Preview.tab Preview.INVALID) = (5 # 10)%Q
  /\ Preview.applyScopeStyles Nat.eqb sampleQuery 7 p' = p'.
Proof.
  assert (Hnew : sameAsLastScope Nat.eqb 7 newPreview = false) by reflexivity.
  assert (Hrefl : Nat.eqb 7 7 = true) by reflexivity.
  destruct (applyScopeStyles_loads_every_preview nat Nat.eqb sampleQuery 7 newPreview)
    as (_ & H2 & _ & _ & H5).
  destruct (H2 Hnew) as [Hl Hq]. destruct (Hq Preview.tab Preview.INVALID) as (Ho & _).
  exact (conj (conj Hnew Hrefl) (conj Hl (conj Ho (proj1 (H5 Hrefl))))).
Defined.

(** ** [positionPreview] and [generatePreviewRect] *)

(** X21: for a tab target, [show] places the preview window picked by the
    target's validity on the target's drop area: its left and top are the
    centre of the drop area minus its half-size, its width and height twice
    the half-size.  The anchor window's rectangle plays no part. *)
Theorem show_places_tab_preview :
  forall (Scope : Type) (deepEqual : Scope -> Scope -> bool)
         (query : Scope -> Preview.PreviewType -> Preview.Validity -> Preview.Overlay)
         (p : Preview.t Scope) (valid : bool) (anchor : Preview.DesktopWindow Scope)
         (dropArea : Rectangle.t),
  let target := Preview.TabTarget valid anchor dropArea in
  Preview.generatePreviewRect target = dropArea
  /\ Preview.bounds
       (Preview.previewWindows (Preview.show deepEqual query target p) Preview.tab
          (if valid then Preview.VALID else Preview.INVALID))
     = Preview.mkBounds
         (Point.x (Rectangle.center dropArea) - Point.x (Rectangle.halfSize dropArea))%Q
         (Point.y (Rectangle.center dropArea) - Point.y (Rectangle.halfSize dropArea))%Q
         (Point.x (Rectangle.halfSize dropArea) * 2)%Q
         (Point.y (Rectangle.halfSize dropArea) * 2)%Q.
Proof.
  intros Scope deepEqual query p valid anchor dropArea target.
  split; [reflexivity|].
  exact (show_bounds Scope deepEqual query target p).
Qed.

(** X22: the preview of a snap target keeps the top-left corner of the
    anchor window, displaced by the target's offset, whatever the half-size
    of the target: the left and top of the preview window are the left and
    top of the anchor's current rectangle plus the offset.  Its width and
    height are twice the target's half-size, or those of the anchor when the
    target has none. *)
Theorem snap_preview_keeps_the_anchor_corner :
  forall (Scope : Type) (deepEqual : Scope -> Scope -> bool)
         (query : Scope -> Preview.PreviewType -> Preview.Validity -> Preview.Overlay)
         (p : Preview.t Scope) (valid : bool) (anchor : Preview.DesktopWindow Scope)
         (offset : Point.t) (targetHalfSize : option Point.t),
  let target := Preview.SnapTarget valid anchor offset targetHalfSize in
  let current := Preview.currentState anchor in
  let anchorLeft := (Point.x (Rectangle.center current)
                     - Point.x (Rectangle.halfSize current))%Q in
  let anchorTop := (Point.y (Rectangle.center current)
                    - Point.y (Rectangle.halfSize current))%Q in
  let halfSize := match targetHalfSize with
                  | Some h => h
                  | None => Rectangle.halfSize current
                  end in
  let b := Preview.bounds
             (Preview.previewWindows (Preview.show deepEqual query target p) Preview.snap
                (if valid then Preview.VALID else Preview.INVALID)) in
  (Preview.left b == anchorLeft + Point.x offset)%Q
  /\ (Preview.top b == anchorTop + Point.y offset)%Q
  /\ Preview.width b = (Point.x halfSize * 2)%Q
  /\ Preview.height b = (Point.y halfSize * 2)%Q.
Proof.
  intros Scope deepEqual query p valid anchor offset targetHalfSize
         target current anchorLeft anchorTop halfSize b.
  pose proof (show_bounds Scope deepEqual query target p) as Hb.
  cbv zeta in Hb. change (Preview.toLowerCase (Preview.type target)) with Preview.snap in Hb.
  change (Preview.valid target) with valid in Hb.
  unfold b. rewrite Hb. cbn [Preview.left Preview.top Preview.width Preview.height].
  unfold target, Preview.generatePreviewRect.
  cbn [Rectangle.center Rectangle.halfSize Point.x Point.y].
  fold current. fold halfSize. unfold anchorLeft, anchorTop.
  split; [ring|]. split; [ring|]. split; reflexivity.
Qed.

(** * More on the repulsion offset *)

(** X23: two windows that make up a group repel each other in opposite
    directions.  If the distance between the two rectangles does not depend
    on the order in which they are given (the guard gives the same answer
    and the distances on each axis are equal in magnitude), the offsets
    [calculateOffset] returns for the two windows are opposite on each
    axis. *)
Theorem paired_windows_repel_oppositely :
  forall (distance : Rectangle.t -> Rectangle.t -> MeasureResult.t)
         (st : State) (a b : wid),
  a <> b ->
  group_windows st (getGroup st a) = [a; b] ->
  getGroup st b = getGroup st a ->
  let d := distance (getState st a) (getState st b) in
  let d' := distance (getState st b) (getState st a) in
  repels d' = repels d ->
  (Qabs (MeasureResult.x d') == Qabs (MeasureResult.x d))%Q ->
  (Qabs (MeasureResult.y d') == Qabs (MeasureResult.y d))%Q ->
  (Point.x (calculateOffset distance st b) == - Point.x (calculateOffset distance st a))%Q
  /\ (Point.y (calculateOffset distance st b) == - Point.y (calculateOffset distance st a))%Q.
Proof.
  intros distance st a b Hne Hgroup Hsame d d' Hguard Hx Hy.
  unfold calculateOffset. rewrite Hsame, Hgroup. cbn [fold_left].
  unfold accumulate.
  rewrite !Nat.eqb_refl.
  rewrite (proj2 (Nat.eqb_neq a b) Hne), (proj2 (Nat.eqb_neq b a) (not_eq_sym Hne)).
  cbn [negb]. fold d. fold d'. rewrite Hguard.
  destruct (repels d); cbn [Point.x Point.y]; [|split; reflexivity].
  unfold Math_abs.
  rewrite (Math_sign_swap (Point.x (Rectangle.center (getState st a)))
             (Point.x (Rectangle.center (getState st b))) _ _ (Qeq_sym _ _ Hy)).
  rewrite (Math_sign_swap (Point.y (Rectangle.center (getState st a)))
             (Point.y (Rectangle.center (getState st b))) _ _ (Qeq_sym _ _ Hx)).
  split; ring.
Qed.

Lemma paired_windows_repel_oppositely_witness :
  let d := gapDistance (getState docked 0%nat) (getState docked 1%nat) in
  let d' := gapDistance (getState docked 1%nat) (getState docked 0%nat) in
  (0 <> 1 /\ group_windows docked (getGroup docked 0%nat) = [0; 1]
   /\ getGroup docked 1 = getGroup docked 0
   /\ repels d' = repels d
   /\ (Qabs (MeasureResult.x d') == Qabs (MeasureResult.x d))%Q
   /\ (Qabs (MeasureResult.y d') == Qabs (MeasureResult.y d))%Q)
  /\ (Point.x (calculateOffset gapDistance docked 1%nat)
      == - Point.x (calculateOffset gapDistance docked 0%nat))%Q
  /\ (Point.y (calculateOffset gapDistance docked 1%nat)
      == - Point.y (calculateOffset gapDistance docked 0%nat))%Q.
Proof.
  assert (Hne : 0 <> 1) by discriminate.
  assert (Hgroup : group_windows docked (getGroup docked 0%nat) = [0; 1])
    by (vm_compute; reflexivity).
  assert (Hsame : getGroup docked 1 = getGroup docked 0%nat) by (vm_compute; reflexivity).
  assert (Hguard : repels (gapDistance (getState docked 1%nat) (getState docked 0%nat))
                   = repels (gapDistance (getState docked 0%nat) (getState docked 1%nat)))
    by (vm_compute; reflexivity).
  assert (Hx : (Qabs (MeasureResult.x (gapDistance (getState docked 1%nat) (getState docked 0%nat)))
                == Qabs (MeasureResult.x (gapDistance (getState docked 0%nat) (getState docked 1%nat))))%Q)
    by (vm_compute; reflexivity).
  assert (Hy : (Qabs (MeasureResult.y (gapDistance (getState docked 1%nat) (getState docked 0%nat)))
                == Qabs (MeasureResult.y (gapDistance (getState docked 0%nat) (getState docked 1%nat))))%Q)
    by (vm_compute; reflexivity).
  exact (conj (conj Hne (conj Hgroup (conj Hsame (conj Hguard (conj Hx Hy)))))
           (paired_windows_repel_oppositely gapDistance docked 0 1
              Hne Hgroup Hsame Hguard Hx Hy)).
Defined.

(** * A window comes and goes *)

(** X24: a window that is admitted and then closes leaves the two registries
    as they were before it came: the window registry and the group registry
    are the same lists again, every window and every group that was
    registered is untouched, and the service has announced the addition of
    the window to its group and then its removal from it.  The state is
    well-formed again. *)
Theorem created_then_closed_restores_the_registries :
  forall (identity : WindowIdentity.t) (state : WindowState) (st : State),
  WellFormed st ->
  (forall x, In x (windows st) -> getIdentity st x <> identity) ->
  let w := fst (addWindow identity state st) in
  let g := nextGroup st in
  let st' := windowClosed w (snd (addWindow identity state st)) in
  windows st' = windows st
  /\ groups st' = groups st
  /\ (forall x, In x (windows st) -> wobj st' x = wobj st x)
  /\ (forall g', In g' (groups st) -> gobj st' g' = gobj st g')
  /\ group_windows st' g = []
  /\ detached (gobj st' g)
  /\ emitted st' = emitted st ++ [WindowAdded g w; WindowRemoved g w]
  /\ WellFormed st'.
Proof.
  intros identity state st HC Hnew w g st'.
  destruct (addWindow_fields identity state st)
    as (Hw & Hws & Hgs & _ & _ & Hwo & Hoth & Hgo & Hgoth & _ & Hem).
  fold w in Hw. rewrite <- Hw in Hws, Hwo, Hoth, Hgo, Hem. fold g in Hgs, Hwo, Hgo, Hgoth, Hem.
  pose proof (addWindow_wf gapDistance noTarget identity state st HC Hnew) as HC1.
  set (st1 := snd (addWindow identity state st)) in *.
  assert (Hfresh : ~ In w (windows st)).
  { intros Hin. apply (wf_window_fresh _ _ HC) in Hin. rewrite Hw in Hin.
    exact (Nat.lt_irrefl _ Hin). }
  assert (Hgfresh : ~ In g (groups st)).
  { intros Hin. apply (reg_fresh _ _ (wf_registry _ _ HC)) in Hin.
    exact (Nat.lt_irrefl _ Hin). }
  assert (Hin1 : In w (windows st1)) by (rewrite Hws; apply in_or_app; right; left; reflexivity).
  assert (Hg1 : getGroup st1 w = g) by (unfold getGroup; rewrite Hwo; reflexivity).
  destruct (windowClosed_fields w st1 HC1 Hin1)
    as (Hws2 & Hgw2 & Hoth2 & Hwo2 & _ & Hlast & Hem2).
  rewrite Hg1 in Hgw2, Hoth2, Hlast, Hem2. fold st' in Hws2, Hgw2, Hoth2, Hwo2, Hlast, Hem2.
  assert (Hrest : drop1 w (group_windows st1 g) = []).
  { unfold group_windows. rewrite Hgo. simpl. rewrite Nat.eqb_refl. reflexivity. }
  destruct (Hlast Hrest) as [Hgr Hdet].
  split; [rewrite Hws2, Hws; apply drop1_snoc_absent; exact Hfresh|].
  split; [rewrite Hgr, Hgs; apply drop1_snoc_absent; exact Hgfresh|].
  split.
  { intros x Hx. assert (Hne : x <> w) by (intros ->; contradiction).
    rewrite Hwo2 by exact Hne. apply Hoth. exact Hne. }
  split.
  { intros g' Hg'. assert (Hne : g' <> g) by (intros ->; contradiction).
    rewrite Hoth2 by exact Hne. apply Hgoth. exact Hne. }
  split; [rewrite Hgw2; exact Hrest|]. split; [exact Hdet|].
  split; [rewrite Hem2, Hem, <- app_assoc; reflexivity|].
  apply windowClosed_wf. exact HC1.
Qed.

Lemma created_then_closed_restores_the_registries_witness :
  let added := addWindow idOther (square 40 0) docked in
  let st' := windowClosed (fst added) (snd added) in
  (forall x, In x (windows docked) -> getIdentity docked x <> idOther)
  /\ windows st' = windows docked
  /\ groups st' = groups docked
  /\ WellFormed st'.
Proof.
  assert (Hnew : forall x, In x (windows docked) -> getIdentity docked x <> idOther).
  { intros x Hin. vm_compute in Hin.
    destruct Hin as [<-|[<-|[]]]; vm_compute; discriminate. }
  destruct (created_then_closed_restores_the_registries idOther (square 40 0) docked
              docked_wf Hnew) as (H1 & H2 & _ & _ & _ & _ & _ & H8).
  exact (conj Hnew (conj H1 (conj H2 H8))).
Defined.
